(** * yt-looper: the deterministic core, embedded and verified

    A shallow embedding of the identifier extractor, the timestamp and
    segment codecs, the link builder, the poll tick of the player and
    the state controller of the looper application.

    Conventions of the embedding.
    - A JavaScript string is a [string]: a sequence of code units, of
      which only U+0000..U+00FF are represented.
    - A JavaScript number is a [number]: [NaN], the two infinities, or
      an exact rational.  Arithmetic is exact: the rounding of binary64
      and the sign of zero are not represented.
    - An exception is a [Throw] completion; [try]/[catch] is [try_catch].
    - The services of the host (the URL parser, the JSON parser and
      printer, the source of fresh identifiers) are parameters of the
      functions that call them; an executable model of each is given in
      [Host] and used to run the functions on concrete inputs.

    Part I holds the embedding, Part II the properties the
    specification states, Part III properties read off the code: of the
    clock format, the initial state, the other handlers of the
    controller and the effects of the player component. *)

From Stdlib Require Import NArith Nnat ZArith QArith Qround Qabs Lia Lqa.
From Stdlib Require Import List Bool Ascii String.
From Stdlib Require Import Permutation Sorted.
Import ListNotations.
Local Open Scope string_scope.

(* ================================================================= *)
(** * Part I: the embedding *)
(* ================================================================= *)

(** ** Completions: normal results and thrown exceptions *)

Inductive Completion (A : Type) : Type :=
| Normal (a : A)
| Throw (reason : string).
Arguments Normal {A} a.
Arguments Throw {A} reason.

Definition bind {A B} (c : Completion A) (k : A -> Completion B) : Completion B :=
  match c with
  | Normal a => k a
  | Throw e => Throw e
  end.

Definition try_catch {A} (body : Completion A) (handler : string -> A) : A :=
  match body with
  | Normal a => a
  | Throw e => handler e
  end.

Notation "x <- c ;; k" := (bind c (fun x => k))
  (at level 61, c at next level, right associativity).

(** ** Strings *)

Module Str.

Definition code (c : ascii) : N := N_of_ascii c.

Definition in_range (lo hi : N) (c : ascii) : bool :=
  (lo <=? code c)%N && (code c <=? hi)%N.

Definition is_digit (c : ascii) : bool := in_range 48 57 c.
Definition is_lower (c : ascii) : bool := in_range 97 122 c.
Definition is_upper (c : ascii) : bool := in_range 65 90 c.

(** WhiteSpace and LineTerminator code units below U+0100. *)
Definition is_white_space (c : ascii) : bool :=
  match code c with
  | 9 | 10 | 11 | 12 | 13 | 32 | 160 => true
  | _ => false
  end%N.

Definition is_empty (s : string) : bool :=
  match s with
  | EmptyString => true
  | String _ _ => false
  end.

Fixpoint all (p : ascii -> bool) (s : string) : bool :=
  match s with
  | EmptyString => true
  | String c r => p c && all p r
  end.

(** What is left of [s] once its leading (trailing) characters that
    satisfy [p] are dropped. *)
Fixpoint dropWhile (p : ascii -> bool) (s : string) : string :=
  match s with
  | EmptyString => EmptyString
  | String c r => if p c then dropWhile p r else s
  end.

Fixpoint dropWhileEnd (p : ascii -> bool) (s : string) : string :=
  match s with
  | EmptyString => EmptyString
  | String c r =>
      let r' := dropWhileEnd p r in
      if p c && is_empty r' then EmptyString else String c r'
  end.

Definition trimStart (s : string) : string := dropWhile is_white_space s.
Definition trimEnd (s : string) : string := dropWhileEnd is_white_space s.

(** [String.prototype.trim] *)
Definition trim (s : string) : string := trimEnd (trimStart s).

(** [s.includes(c)] for a one-character needle *)
Fixpoint includes (c : ascii) (s : string) : bool :=
  match s with
  | EmptyString => false
  | String d r => Ascii.eqb d c || includes c r
  end.

(** [s.split(sep)] for a one-character separator *)
Fixpoint split (sep : ascii) (s : string) : list string :=
  match s with
  | EmptyString => [EmptyString]
  | String c r =>
      if Ascii.eqb c sep then EmptyString :: split sep r
      else match split sep r with
           | h :: t => String c h :: t
           | [] => [String c EmptyString]
           end
  end.

(** [s.padStart(2, "0")] *)
Definition padStart2 (s : string) : string :=
  match s with
  | EmptyString => "00"
  | String c EmptyString => String "0" s
  | _ => s
  end.

(** The longest prefix whose characters satisfy [p], and the rest. *)
Fixpoint span (p : ascii -> bool) (s : string) : string * string :=
  match s with
  | EmptyString => (EmptyString, EmptyString)
  | String c r =>
      if p c then let (a, b) := span p r in (String c a, b)
      else (EmptyString, s)
  end.

(** [s.replace(/^prefix/, "")] *)
Fixpoint strip_prefix (p s : string) : option string :=
  match p, s with
  | EmptyString, _ => Some s
  | String a p', String b s' => if Ascii.eqb a b then strip_prefix p' s' else None
  | String _ _, EmptyString => None
  end.

Definition replace_prefix (p s : string) : string :=
  match strip_prefix p s with
  | Some r => r
  | None => s
  end.

(** [/^\d+$/.test(s)] *)
Definition test_digits (s : string) : bool := negb (is_empty s) && all is_digit s.

Fixpoint repeat0 (n : nat) : string :=
  match n with
  | O => EmptyString
  | S k => String "0" (repeat0 k)
  end.

Fixpoint rev_acc (s acc : string) : string :=
  match s with
  | EmptyString => acc
  | String c r => rev_acc r (String c acc)
  end.

Definition rev (s : string) : string := rev_acc s EmptyString.

End Str.

(** [arr.filter(Boolean)] on an array of strings: the empty string is
    the only falsy one. *)
Definition filter_Boolean (l : list string) : list string :=
  filter (fun s => negb (Str.is_empty s)) l.

(** [arr.indexOf(x)]; [None] stands for [-1]. *)
Fixpoint indexOf (x : string) (l : list string) : option nat :=
  match l with
  | [] => None
  | y :: t => if String.eqb y x then Some O else option_map S (indexOf x t)
  end.

(** Truthiness of a [string | null | undefined]. *)
Definition truthy (o : option string) : bool :=
  match o with
  | Some s => negb (Str.is_empty s)
  | None => false
  end.

(** ** Numbers *)

Inductive number : Type :=
| NaN
| PosInf
| NegInf
| Fin (q : Q).

Definition Qltb (x y : Q) : bool := negb (Qle_bool y x).

(** [a < b] *)
Definition num_lt (a b : number) : bool :=
  match a, b with
  | NaN, _ => false
  | _, NaN => false
  | PosInf, _ => false
  | _, NegInf => false
  | NegInf, _ => true
  | Fin _, PosInf => true
  | Fin x, Fin y => Qltb x y
  end.

(** [a <= b] *)
Definition num_le (a b : number) : bool :=
  match a, b with
  | NaN, _ => false
  | _, NaN => false
  | NegInf, _ => true
  | _, PosInf => true
  | PosInf, _ => false
  | Fin _, NegInf => false
  | Fin x, Fin y => Qle_bool x y
  end.

(** [a > b] and [a >= b] *)
Definition num_gt (a b : number) : bool := num_lt b a.
Definition num_ge (a b : number) : bool := num_le b a.
Arguments num_gt : simpl never.
Arguments num_ge : simpl never.

Definition num_opp (a : number) : number :=
  match a with
  | NaN => NaN
  | PosInf => NegInf
  | NegInf => PosInf
  | Fin x => Fin (- x)
  end.

(** [a + b] *)
Definition num_add (a b : number) : number :=
  match a, b with
  | NaN, _ => NaN
  | _, NaN => NaN
  | PosInf, NegInf => NaN
  | NegInf, PosInf => NaN
  | PosInf, _ => PosInf
  | _, PosInf => PosInf
  | NegInf, _ => NegInf
  | _, NegInf => NegInf
  | Fin x, Fin y => Fin (x + y)
  end.

(** [a - b] *)
Definition num_sub (a b : number) : number := num_add a (num_opp b).

Definition inf_of_sign (negative : bool) : number :=
  if negative then NegInf else PosInf.

Definition num_is_neg (a : number) : bool :=
  match a with
  | NegInf => true
  | Fin x => Qltb x 0
  | _ => false
  end.

Definition num_is_zero (a : number) : bool :=
  match a with
  | Fin x => Qeq_bool x 0
  | _ => false
  end.

(** [a * b] *)
Definition num_mul (a b : number) : number :=
  match a, b with
  | NaN, _ => NaN
  | _, NaN => NaN
  | Fin x, Fin y => Fin (x * y)
  | _, _ =>
      if num_is_zero a || num_is_zero b then NaN
      else inf_of_sign (xorb (num_is_neg a) (num_is_neg b))
  end.

(** [a / b] *)
Definition num_div (a b : number) : number :=
  match a, b with
  | NaN, _ => NaN
  | _, NaN => NaN
  | Fin x, Fin y =>
      if Qeq_bool y 0 then
        if Qeq_bool x 0 then NaN else inf_of_sign (Qltb x 0)
      else Fin (x / y)
  | Fin _, _ => Fin 0
  | _, Fin _ => inf_of_sign (xorb (num_is_neg a) (num_is_neg b))
  | _, _ => NaN
  end.

(** The integer part, rounding toward zero. *)
Definition Qtrunc (x : Q) : Z :=
  if Qle_bool 0 x then Qfloor x else (- Qfloor (- x))%Z.

(** [a % b]: the remainder takes the sign of the dividend. *)
Definition num_rem (a b : number) : number :=
  match a, b with
  | Fin x, Fin y =>
      if Qeq_bool y 0 then NaN
      else Fin (x - y * inject_Z (Qtrunc (x / y)))
  | Fin x, PosInf => Fin x
  | Fin x, NegInf => Fin x
  | _, _ => NaN
  end.

Definition Math_max (a b : number) : number :=
  match a, b with
  | NaN, _ => NaN
  | _, NaN => NaN
  | _, _ => if num_lt a b then b else a
  end.

Definition Math_min (a b : number) : number :=
  match a, b with
  | NaN, _ => NaN
  | _, NaN => NaN
  | _, _ => if num_lt b a then b else a
  end.

Definition Math_floor (a : number) : number :=
  match a with
  | Fin x => Fin (inject_Z (Qfloor x))
  | _ => a
  end.

(** [Math.round]: the nearest integer, a tie going up. *)
Definition Math_round (a : number) : number :=
  match a with
  | Fin x => Fin (inject_Z (Qfloor (x + (1 # 2))))
  | _ => a
  end.

Definition Number_isNaN (a : number) : bool :=
  match a with
  | NaN => true
  | _ => false
  end.

Definition Number_isFinite (a : number) : bool :=
  match a with
  | Fin _ => true
  | _ => false
  end.

(** Equality of numbers as values ([NaN] apart, this is [===]). *)
Definition num_eq (a b : number) : Prop :=
  match a, b with
  | NaN, NaN => True
  | PosInf, PosInf => True
  | NegInf, NegInf => True
  | Fin x, Fin y => x == y
  | _, _ => False
  end.

Definition of_Z (z : Z) : number := Fin (inject_Z z).
Definition of_nat (n : nat) : number := of_Z (Z.of_nat n).

(** *** Numbers to text *)

Definition digit_char (d : N) : ascii := ascii_of_N (48 + d).

(** The decimal digits of [n] pushed in front of [acc], the least
    significant one first; [fuel] bounds their number. *)
Fixpoint digits_acc (fuel : nat) (n : N) (acc : string) : string :=
  match fuel with
  | O => acc
  | S f =>
      let acc' := String (digit_char (n mod 10)) acc in
      if (n / 10 =? 0)%N then acc' else digits_acc f (n / 10) acc'
  end.

(** A natural number in decimal digits. *)
Definition N_digits (n : N) : string :=
  digits_acc (S (N.to_nat (N.log2 n))) n EmptyString.

Definition Z_digits (z : Z) : string := N_digits (Z.to_N z).

(** The digits of [r / den] after the point, by long division, for
    [0 <= r < den]; it stops when the remainder vanishes. *)
Fixpoint frac_digits (fuel : nat) (r den : Z) : string :=
  match fuel with
  | O => EmptyString
  | S f =>
      if (r =? 0)%Z then EmptyString
      else String (digit_char (Z.to_N (r * 10 / den)))
                  (frac_digits f ((r * 10) mod den) den)
  end.

Definition ten21 : Q := inject_Z (10 ^ 21).

Definition Q_is_integer (x : Q) : bool := Qeq_bool (inject_Z (Qfloor x)) x.

Definition exponent_text (e : Z) : string :=
  ("e" ++ (if (e <? 0)%Z then "-" else "+") ++ Z_digits (Z.abs e))%string.

(** [Number::toString] of a positive rational that is not an integer
    below 10^21: the digits [s] (without leading or trailing zeros),
    their count [k], and the position [n] of the point, laid out as
    ECMAScript prescribes.  The expansion is exact up to 40 places
    after the point. *)
Definition positive_toString (x : Q) : string :=
  let i := Qfloor x in
  let ip := if (i =? 0)%Z then EmptyString else Z_digits i in
  let fp := frac_digits 40 (Qnum x - i * Zpos (Qden x)) (Zpos (Qden x)) in
  let whole := (ip ++ fp)%string in
  let lead := Str.dropWhile (fun c => Ascii.eqb c "0") whole in
  let s := Str.rev (Str.dropWhile (fun c => Ascii.eqb c "0") (Str.rev lead)) in
  let k := Z.of_nat (String.length s) in
  let n := (Z.of_nat (String.length ip)
            - Z.of_nat (String.length whole - String.length lead))%Z in
  if Str.is_empty s then "0"
  else if ((k <=? n) && (n <=? 21))%Z then
    (s ++ Str.repeat0 (Z.to_nat (n - k)))%string
  else if ((0 <? n) && (n <=? 21))%Z then
    (substring 0 (Z.to_nat n) s ++ "."
       ++ substring (Z.to_nat n) (Z.to_nat (k - n)) s)%string
  else if ((-6 <? n) && (n <=? 0))%Z then
    ("0." ++ Str.repeat0 (Z.to_nat (- n)) ++ s)%string
  else if (k =? 1)%Z then (s ++ exponent_text (n - 1))%string
  else (substring 0 1 s ++ "." ++ substring 1 (Z.to_nat (k - 1)) s
          ++ exponent_text (n - 1))%string.

(** [Number.prototype.toString] in radix 10 *)
Definition Number_toString (a : number) : string :=
  match a with
  | NaN => "NaN"
  | PosInf => "Infinity"
  | NegInf => "-Infinity"
  | Fin x =>
      let sign := if Qltb x 0 then "-" else EmptyString in
      let m := Qabs x in
      if Q_is_integer m && Qltb m ten21
      then (sign ++ Z_digits (Qfloor m))%string
      else (sign ++ positive_toString m)%string
  end.

(** [Number.prototype.toFixed(2)]: below 10^21 in magnitude, the
    nearest multiple of 0.01 (a tie going away from zero) printed with
    two places; from 10^21 on, [Number::toString]. *)
Definition toFixed2 (a : number) : string :=
  match a with
  | Fin x =>
      if Qle_bool ten21 (Qabs x) then Number_toString a
      else
        let n := Qfloor (Qabs x * inject_Z 100 + (1 # 2)) in
        ((if Qltb x 0 then "-" else EmptyString)
           ++ Z_digits (n / 100) ++ "." ++ Str.padStart2 (Z_digits (n mod 100)))%string
  | _ => Number_toString a
  end.

(** *** Text to numbers *)

Definition digit_value (c : ascii) : N := (Str.code c - 48)%N.

Fixpoint digits_value_acc (s : string) (acc : N) : N :=
  match s with
  | EmptyString => acc
  | String c r => digits_value_acc r (acc * 10 + digit_value c)
  end.

(** The value of a string of decimal digits. *)
Definition digits_value (s : string) : N := digits_value_acc s 0.

(** [m * 10^e] *)
Definition scale10 (m e : Z) : Q :=
  if (0 <=? e)%Z then inject_Z (m * 10 ^ e)
  else Qmake m (Z.to_pos (10 ^ (- e))).

(** ExponentPart, or nothing: the exponent it denotes. *)
Definition parse_exponent (s : string) : option Z :=
  match s with
  | EmptyString => Some 0%Z
  | String c r =>
      if Ascii.eqb c "e" || Ascii.eqb c "E" then
        let '(negative, ds) :=
          match r with
          | String "+" t => (false, t)
          | String "-" t => (true, t)
          | _ => (false, r)
          end in
        if Str.test_digits ds then
          Some (if negative then - Z.of_N (digits_value ds) else Z.of_N (digits_value ds))%Z
        else None
      else None
  end.

(** StrUnsignedDecimalLiteral *)
Definition StrUnsignedDecimalLiteral (s : string) : option number :=
  if String.eqb s "Infinity" then Some PosInf
  else
    let (ip, r1) := Str.span Str.is_digit s in
    let (fp, r2) :=
      match r1 with
      | String "." t => Str.span Str.is_digit t
      | _ => (EmptyString, r1)
      end in
    if Str.is_empty ip && Str.is_empty fp then None
    else match parse_exponent r2 with
         | Some e =>
             Some (Fin (scale10 (Z.of_N (digits_value (ip ++ fp)))
                                (e - Z.of_nat (String.length fp))))
         | None => None
         end.

Definition radix_digit (radix : N) (c : ascii) : option N :=
  let v :=
    if Str.is_digit c then Some (Str.code c - 48)%N
    else if Str.in_range 97 102 c then Some (Str.code c - 87)%N
    else if Str.in_range 65 70 c then Some (Str.code c - 55)%N
    else None in
  match v with
  | Some d => if (d <? radix)%N then Some d else None
  | None => None
  end.

Fixpoint radix_value (radix : N) (s : string) (acc : N) : option N :=
  match s with
  | EmptyString => Some acc
  | String c r =>
      match radix_digit radix c with
      | Some d => radix_value radix r (acc * radix + d)%N
      | None => None
      end
  end.

(** NonDecimalIntegerLiteral: [0x], [0o] and [0b] literals. *)
Definition NonDecimalIntegerLiteral (s : string) : option number :=
  match s with
  | String "0" (String p ds) =>
      let radix :=
        if Ascii.eqb p "x" || Ascii.eqb p "X" then Some 16%N
        else if Ascii.eqb p "o" || Ascii.eqb p "O" then Some 8%N
        else if Ascii.eqb p "b" || Ascii.eqb p "B" then Some 2%N
        else None in
      match radix with
      | Some r =>
          if Str.is_empty ds then None
          else option_map (fun v => of_Z (Z.of_N v)) (radix_value r ds 0)
      | None => None
      end
  | _ => None
  end.

(** StringToNumber: [Number(s)] for a string [s]. *)
Definition StringToNumber (s : string) : number :=
  let t := Str.trim s in
  if Str.is_empty t then Fin 0
  else
    match NonDecimalIntegerLiteral t with
    | Some v => v
    | None =>
        let '(negative, body) :=
          match t with
          | String "+" r => (false, r)
          | String "-" r => (true, r)
          | _ => (false, t)
          end in
        match StrUnsignedDecimalLiteral body with
        | Some v => if negative then num_opp v else v
        | None => NaN
        end
    end.

(** [Number.parseInt(s, 10)] *)
Definition parseInt10 (s : string) : number :=
  let t := Str.trimStart s in
  let '(negative, body) :=
    match t with
    | String "+" r => (false, r)
    | String "-" r => (true, r)
    | _ => (false, t)
    end in
  let (ds, _) := Str.span Str.is_digit body in
  if Str.is_empty ds then NaN
  else
    let v := of_Z (Z.of_N (digits_value ds)) in
    if negative then num_opp v else v.

(** [Number(x.toFixed(2))], the rounding to two places used throughout. *)
Definition round2 (a : number) : number := StringToNumber (toFixed2 a).

(** ** Values of the host *)

(** What [new URL(text)] exposes to this program. *)
Record URL : Type := {
  hostname : string;
  pathname : string;
  searchParams : list (string * string)
}.

(** [URLSearchParams.prototype.get] *)
Fixpoint searchParams_get (name : string) (ps : list (string * string)) : option string :=
  match ps with
  | [] => None
  | (k, v) :: t => if String.eqb k name then Some v else searchParams_get name t
  end.

(** [URLSearchParams.prototype.set] *)
Fixpoint searchParams_set (name value : string) (ps : list (string * string))
  : list (string * string) :=
  match ps with
  | [] => [(name, value)]
  | (k, v) :: t =>
      if String.eqb k name
      then (name, value) :: filter (fun p => negb (String.eqb (fst p) name)) t
      else (k, v) :: searchParams_set name value t
  end.

(** A value produced by [JSON.parse] or handed to [JSON.stringify]. *)
#[warnings="-register-all"]
Inductive json : Type :=
| JNull
| JBool (b : bool)
| JNumber (n : number)
| JString (s : string)
| JArray (items : list json)
| JObject (members : list (string * json)).

(** [value.name] on a parsed value; [None] is [undefined].  A repeated
    key of an object holds its last value; an array has none of the
    names this program reads. *)
Fixpoint get_member (name : string) (members : list (string * json)) : option json :=
  match members with
  | [] => None
  | (k, v) :: t =>
      match get_member name t with
      | Some later => Some later
      | None => if String.eqb k name then Some v else None
      end
  end.

Definition get_property (name : string) (value : json) : option json :=
  match value with
  | JObject members => get_member name members
  | _ => None
  end.

Fixpoint join (sep : string) (l : list string) : string :=
  match l with
  | [] => EmptyString
  | [x] => x
  | x :: t => (x ++ sep ++ join sep t)%string
  end.

(** [String(v)] for a parsed value. *)
Fixpoint json_ToString (v : json) : string :=
  match v with
  | JNull => "null"
  | JBool true => "true"
  | JBool false => "false"
  | JNumber n => Number_toString n
  | JString s => s
  | JArray items =>
      join "," (map (fun x => match x with
                              | JNull => EmptyString
                              | _ => json_ToString x
                              end) items)
  | JObject _ => "[object Object]"
  end.

(** [Number(v)] for a parsed value or [undefined]. *)
Definition ToNumber (v : option json) : number :=
  match v with
  | None => NaN
  | Some JNull => Fin 0
  | Some (JBool true) => Fin 1
  | Some (JBool false) => Fin 0
  | Some (JNumber n) => n
  | Some x => StringToNumber (json_ToString x)
  end.

(** ** src/lib/youtube.ts *)

Definition is_id_char (c : ascii) : bool :=
  Str.is_lower c || Str.is_upper c || Str.is_digit c
  || Ascii.eqb c "_" || Ascii.eqb c "-".

(** [/^[a-zA-Z0-9_-]{11}$/.test(s)] *)
Definition YOUTUBE_ID_PATTERN (s : string) : bool :=
  Nat.eqb (String.length s) 11 && Str.all is_id_char s.

Definition normalizeYouTubeId (value : option string) : option string :=
  match value with
  | None => None
  | Some v =>
      if Str.is_empty v then None
      else
        let trimmed := Str.trim v in
        if YOUTUBE_ID_PATTERN trimmed then Some trimmed else None
  end.
Arguments normalizeYouTubeId : simpl never.

(** [url.pathname.split("/").filter(Boolean)] *)
Definition path_segments (url : URL) : list string :=
  filter_Boolean (Str.split "/" (pathname url)).

(** [segments[embedIndex + 1]] when ["embed"] occurs in [segments]. *)
Definition after_embed (segments : list string) : option (option string) :=
  match indexOf "embed" segments with
  | Some embedIndex => Some (nth_error segments (embedIndex + 1))
  | None => None
  end.

Section Extractor.

Variable URL_parse : string -> Completion URL.

Definition extractYouTubeId (input : string) : option string :=
  let trimmed := Str.trim input in
  if Str.is_empty trimmed then None
  else
    let directId := normalizeYouTubeId (Some trimmed) in
    if truthy directId then directId
    else
      try_catch
        (url <- URL_parse trimmed ;;
         let host := Str.replace_prefix "www." (hostname url) in
         if String.eqb host "youtu.be" then
           Normal (normalizeYouTubeId (nth_error (path_segments url) 0))
         else
           let returned :=
             if String.eqb host "youtube.com" || String.eqb host "m.youtube.com" then
               let idFromQuery := normalizeYouTubeId (searchParams_get "v" (searchParams url)) in
               if truthy idFromQuery then Some idFromQuery
               else option_map normalizeYouTubeId (after_embed (path_segments url))
             else None in
           match returned with
           | Some result => Normal result
           | None =>
               if String.eqb host "youtube-nocookie.com" then
                 match after_embed (path_segments url) with
                 | Some candidate => Normal (normalizeYouTubeId candidate)
                 | None => Normal None
                 end
               else Normal None
           end)
        (fun _ => None).

End Extractor.

(** The earlier revision of the same file, which returns what it
    extracts from a URL without a closing check. *)
Module Revision1.
Section Extractor.

Variable URL_parse : string -> Completion URL.

Definition extractYouTubeId (input : string) : option string :=
  let trimmed := Str.trim input in
  if Str.is_empty trimmed then None
  else if YOUTUBE_ID_PATTERN trimmed then Some trimmed
  else
    try_catch
      (url <- URL_parse trimmed ;;
       let host := Str.replace_prefix "www." (hostname url) in
       if String.eqb host "youtu.be" then
         Normal (nth_error (path_segments url) 0)
       else
         let returned :=
           if String.eqb host "youtube.com" || String.eqb host "m.youtube.com" then
             let idFromQuery := searchParams_get "v" (searchParams url) in
             if truthy idFromQuery then Some idFromQuery
             else after_embed (path_segments url)
           else None in
         match returned with
         | Some result => Normal result
         | None =>
             if String.eqb host "youtube-nocookie.com" then
               match after_embed (path_segments url) with
               | Some candidate => Normal candidate
               | None => Normal None
               end
             else Normal None
         end)
      (fun _ => None).

End Extractor.
End Revision1.

(** The raw candidates the host rules read off a parsed URL, in the
    order in which [extractYouTubeId] tries them. *)
Definition url_candidates (url : URL) : list string :=
  let host := Str.replace_prefix "www." (hostname url) in
  let of_option (o : option string) := match o with Some c => [c] | None => [] end in
  let embedded :=
    match after_embed (path_segments url) with
    | Some candidate => of_option candidate
    | None => []
    end in
  if String.eqb host "youtu.be" then of_option (nth_error (path_segments url) 0)
  else if String.eqb host "youtube.com" || String.eqb host "m.youtube.com" then
    of_option (searchParams_get "v" (searchParams url)) ++ embedded
  else if String.eqb host "youtube-nocookie.com" then embedded
  else [].

(** ** src/lib/segments.ts *)

Record LoopSegment : Type := {
  id : string;
  label : string;
  start : number;
  end_ : number
}.

Definition SEGMENTS_PARAM : string := "segments".

(** The stable sort of [Array.prototype.sort(comparefn)]: [x] moves
    behind [y] only when [comparefn(x, y) > 0]. *)
Section Sort.
Context {A : Type} (comparefn : A -> A -> number).

Fixpoint sort_insert (x : A) (l : list A) : list A :=
  match l with
  | [] => [x]
  | y :: t => if num_gt (comparefn x y) (Fin 0) then y :: sort_insert x t else x :: l
  end.

Definition sort (l : list A) : list A := fold_right sort_insert [] l.
End Sort.

(** [(a, b) => a.start - b.start] *)
Definition by_start (a b : LoopSegment) : number := num_sub (start a) (start b).

Definition sanitizeTimestamp (value : option json) : option number :=
  let numeric :=
    match value with
    | Some (JNumber n) => n
    | _ => ToNumber value
    end in
  if negb (Number_isFinite numeric) then None
  else Some (Math_max (Fin 0) (round2 numeric)).

(** The template [`Loop ${n}`]. *)
Definition loop_label (n : nat) : string := ("Loop " ++ Number_toString (of_nat n))%string.

(** [a || b] on strings. *)
Definition or_else (a b : string) : string := if Str.is_empty a then b else a.

(** The callback of [parsed.map]; [fresh] is what [generateSegmentId()]
    returns if it is reached. *)
Definition segment_of_entry (fresh : string) (entry : json) (index : nat) : option LoopSegment :=
  match entry with
  | JArray _ | JObject _ =>
      let label :=
        match get_property "label" entry with
        | Some (JString s) => s
        | _ => loop_label (index + 1)
        end in
      match sanitizeTimestamp (get_property "start" entry),
            sanitizeTimestamp (get_property "end" entry) with
      | Some start, Some end_ =>
          let min := Math_min start end_ in
          let max := Math_max start end_ in
          Some {| id := fresh;
                  label := or_else (Str.trim label) (loop_label (index + 1));
                  start := min;
                  end_ := max |}
      | _, _ => None
      end
  | JString _ | JNumber _ | JBool _ | JNull => None
  end.

(** [parsed.map(...)], the identifiers being drawn in order from [ids]. *)
Fixpoint map_entries (ids : nat -> string) (entries : list json) (index next : nat)
  : list (option LoopSegment) :=
  match entries with
  | [] => []
  | entry :: rest =>
      match segment_of_entry (ids next) entry index with
      | Some segment => Some segment :: map_entries ids rest (S index) (S next)
      | None => None :: map_entries ids rest (S index) next
      end
  end.

(** [.filter((segment) => segment !== null)] *)
Fixpoint filter_not_null {A : Type} (l : list (option A)) : list A :=
  match l with
  | [] => []
  | Some x :: t => x :: filter_not_null t
  | None :: t => filter_not_null t
  end.

Section SegmentCodec.

Variable JSON_parse : string -> Completion json.
Variable JSON_stringify : json -> Completion string.
Variable URLSearchParams_toString : list (string * string) -> string.
Variable URL_parse : string -> Completion URL.
(** The identifiers [generateSegmentId()] returns, call after call. *)
Variable ids : nat -> string.

(** The body of the [try] block of [parseSegmentsParam]. *)
Definition parseSegmentsParam_try (value : string) : Completion (list LoopSegment) :=
  parsed <- JSON_parse value ;;
  match parsed with
  | JArray entries =>
      Normal (sort by_start (filter_not_null (map_entries ids entries 0 0)))
  | _ => Normal []
  end.

(** [parseSegmentsParam], as a completion: what it returns or throws. *)
Definition parseSegmentsParam_completion (value : option string)
  : Completion (list LoopSegment) :=
  match value with
  | None => Normal []
  | Some text =>
      if Str.is_empty text then Normal []
      else Normal (try_catch (parseSegmentsParam_try text) (fun _ => []))
  end.

Definition parseSegmentsParam (value : option string) : list LoopSegment :=
  match value with
  | None => []
  | Some text =>
      if Str.is_empty text then []
      else try_catch (parseSegmentsParam_try text) (fun _ => [])
  end.

(** The array handed to [JSON.stringify]. *)
Definition payload (segments : list LoopSegment) : json :=
  JArray (map (fun segment =>
                 JObject [("label", JString (label segment));
                          ("start", JNumber (round2 (start segment)));
                          ("end", JNumber (round2 (end_ segment)))])
              segments).

Definition serializeSegments (segments : list LoopSegment) : option string :=
  if Nat.eqb (List.length segments) 0 then None
  else try_catch (text <- JSON_stringify (payload segments) ;; Normal (Some text))
                 (fun _ => None).

Definition buildVideoLink (videoId : string) (segments : list LoopSegment) : string :=
  let searchParams := [("v", videoId)] in
  let serialized := serializeSegments segments in
  let searchParams :=
    if truthy serialized then
      match serialized with
      | Some text => searchParams_set SEGMENTS_PARAM text searchParams
      | None => searchParams
      end
    else searchParams in
  ("https://www.youtube.com/watch?" ++ URLSearchParams_toString searchParams)%string.

Definition extractSegmentsFromInput (value : string) : list LoopSegment :=
  try_catch
    (url <- URL_parse value ;;
     Normal (parseSegmentsParam (searchParams_get SEGMENTS_PARAM (searchParams url))))
    (fun _ => []).

End SegmentCodec.

Definition formatTimestampInput (value : option number) : string :=
  match value with
  | None => EmptyString
  | Some value =>
      if Number_isNaN value || negb (Number_isFinite value) then EmptyString
      else
        let clamped := Math_max (Fin 0) (round2 value) in
        let minutes := Math_floor (num_div clamped (Fin 60)) in
        let seconds := round2 (num_sub clamped (num_mul minutes (Fin 60))) in
        let '(minutes, seconds) :=
          if num_ge seconds (Fin 60)
          then (num_add minutes (Math_floor (num_div seconds (Fin 60))),
                round2 (num_rem seconds (Fin 60)))
          else (minutes, seconds) in
        let minuteString := Str.padStart2 (Number_toString minutes) in
        let secondsInteger := Math_floor seconds in
        let fractional := round2 (num_sub seconds secondsInteger) in
        let secondsString := Str.padStart2 (Number_toString secondsInteger) in
        let secondsString :=
          if num_gt fractional (Fin 0) then
            let fractionAsInt := Math_round (num_mul fractional (Fin 100)) in
            (secondsString ++ "." ++ Str.padStart2 (Number_toString fractionAsInt))%string
          else secondsString in
        (minuteString ++ ":" ++ secondsString)%string
  end.

(** The [for] loop of [parseTimestampInput], over the parts from the
    last one to the first; [is_last] is [index === parts.length - 1]. *)
Fixpoint parseTimestampInput_loop (parts_from_last : list string) (is_last : bool)
    (totalSeconds multiplier : number) : option number :=
  match parts_from_last with
  | [] => Some totalSeconds
  | part :: rest =>
      if Str.is_empty part then None
      else if is_last then
        let numeric := StringToNumber part in
        if Number_isNaN numeric then None
        else parseTimestampInput_loop rest false
               (num_add totalSeconds (num_mul numeric multiplier))
               (num_mul multiplier (Fin 60))
      else
        if negb (Str.test_digits part) then None
        else
          let numeric := parseInt10 part in
          parseTimestampInput_loop rest false
            (num_add totalSeconds (num_mul numeric multiplier))
            (num_mul multiplier (Fin 60))
  end.

Definition parseTimestampInput (value : string) : option number :=
  let trimmed := Str.trim value in
  if Str.is_empty trimmed then None
  else if negb (Str.includes ":" trimmed) then
    let asNumber := StringToNumber trimmed in
    if Number_isNaN asNumber then None else Some (Math_max (Fin 0) asNumber)
  else
    let parts := Str.split ":" trimmed in
    match parseTimestampInput_loop (List.rev parts) true (Fin 0) (Fin 1) with
    | None => None
    | Some totalSeconds => Some (Math_max (Fin 0) (round2 totalSeconds))
    end.

(** ** src/components/youtube-player.tsx: the poll tick *)

Module YouTubePlayer.

Record LoopRange : Type := {
  start : number;
  end_ : number
}.

(** What the live player answers when it is asked. *)
Record YouTubePlayerInstance : Type := {
  getCurrentTime : number;
  getDuration : number
}.

(** What a tick does to the outside: the [onTimeUpdate] callback and
    the [seekTo] command of the player. *)
Inductive action : Type :=
| TimeUpdate (currentTime duration : number)
| SeekTo (seconds : number) (allowSeekAhead : bool).

Definition POLL_INTERVAL_MS : number := Fin (inject_Z 250).
Definition LOOP_THRESHOLD : number := Fin (15 # 100).

(** The callback of [window.setInterval]: [player] is
    [playerRef.current], [onTimeUpdate] tells whether the callback prop
    is set. *)
Definition poll_tick (player : option YouTubePlayerInstance) (onTimeUpdate : bool)
    (isLooping : bool) (loopRange : option LoopRange) : list action :=
  let loopStart := option_map start loopRange in
  let loopEnd := option_map end_ loopRange in
  match player with
  | None => []
  | Some p =>
      let currentTime := getCurrentTime p in
      let duration := getDuration p in
      (if onTimeUpdate then [TimeUpdate currentTime duration] else [])
      ++ match loopStart, loopEnd with
         | Some loopStart, Some loopEnd =>
             if isLooping && num_gt loopEnd loopStart then
               if num_ge currentTime (num_sub loopEnd LOOP_THRESHOLD)
               then [SeekTo loopStart true]
               else []
             else []
         | _, _ => []
         end
  end.

End YouTubePlayer.

(** ** src/hooks/use-looper-state.ts: the state controller *)

Record LooperState : Type := {
  inputValue : string;
  videoId : option string;
  inputError : option string;
  loopSegments : list LoopSegment;
  selectedSegmentId : option string;
  currentTime : number;
  duration : number;
  isPlaying : bool;
  loopingEnabled : bool;
  playbackRate : number;
  draftLabel : string;
  draftStart : option number;
  draftEnd : option number;
  draftStartInput : string;
  draftEndInput : string;
  isInputDirty : bool
}.

Definition setInputValue (v : string) (s : LooperState) : LooperState :=
  {| inputValue := v; videoId := videoId s; inputError := inputError s;
     loopSegments := loopSegments s; selectedSegmentId := selectedSegmentId s;
     currentTime := currentTime s; duration := duration s; isPlaying := isPlaying s;
     loopingEnabled := loopingEnabled s; playbackRate := playbackRate s;
     draftLabel := draftLabel s; draftStart := draftStart s; draftEnd := draftEnd s;
     draftStartInput := draftStartInput s; draftEndInput := draftEndInput s;
     isInputDirty := isInputDirty s |}.

Definition setVideoId (v : option string) (s : LooperState) : LooperState :=
  {| inputValue := inputValue s; videoId := v; inputError := inputError s;
     loopSegments := loopSegments s; selectedSegmentId := selectedSegmentId s;
     currentTime := currentTime s; duration := duration s; isPlaying := isPlaying s;
     loopingEnabled := loopingEnabled s; playbackRate := playbackRate s;
     draftLabel := draftLabel s; draftStart := draftStart s; draftEnd := draftEnd s;
     draftStartInput := draftStartInput s; draftEndInput := draftEndInput s;
     isInputDirty := isInputDirty s |}.

Definition setInputError (v : option string) (s : LooperState) : LooperState :=
  {| inputValue := inputValue s; videoId := videoId s; inputError := v;
     loopSegments := loopSegments s; selectedSegmentId := selectedSegmentId s;
     currentTime := currentTime s; duration := duration s; isPlaying := isPlaying s;
     loopingEnabled := loopingEnabled s; playbackRate := playbackRate s;
     draftLabel := draftLabel s; draftStart := draftStart s; draftEnd := draftEnd s;
     draftStartInput := draftStartInput s; draftEndInput := draftEndInput s;
     isInputDirty := isInputDirty s |}.

Definition setLoopSegments (v : list LoopSegment) (s : LooperState) : LooperState :=
  {| inputValue := inputValue s; videoId := videoId s; inputError := inputError s;
     loopSegments := v; selectedSegmentId := selectedSegmentId s;
     currentTime := currentTime s; duration := duration s; isPlaying := isPlaying s;
     loopingEnabled := loopingEnabled s; playbackRate := playbackRate s;
     draftLabel := draftLabel s; draftStart := draftStart s; draftEnd := draftEnd s;
     draftStartInput := draftStartInput s; draftEndInput := draftEndInput s;
     isInputDirty := isInputDirty s |}.

Definition setSelectedSegmentId (v : option string) (s : LooperState) : LooperState :=
  {| inputValue := inputValue s; videoId := videoId s; inputError := inputError s;
     loopSegments := loopSegments s; selectedSegmentId := v;
     currentTime := currentTime s; duration := duration s; isPlaying := isPlaying s;
     loopingEnabled := loopingEnabled s; playbackRate := playbackRate s;
     draftLabel := draftLabel s; draftStart := draftStart s; draftEnd := draftEnd s;
     draftStartInput := draftStartInput s; draftEndInput := draftEndInput s;
     isInputDirty := isInputDirty s |}.

Definition setCurrentTime (v : number) (s : LooperState) : LooperState :=
  {| inputValue := inputValue s; videoId := videoId s; inputError := inputError s;
     loopSegments := loopSegments s; selectedSegmentId := selectedSegmentId s;
     currentTime := v; duration := duration s; isPlaying := isPlaying s;
     loopingEnabled := loopingEnabled s; playbackRate := playbackRate s;
     draftLabel := draftLabel s; draftStart := draftStart s; draftEnd := draftEnd s;
     draftStartInput := draftStartInput s; draftEndInput := draftEndInput s;
     isInputDirty := isInputDirty s |}.

Definition setDuration (v : number) (s : LooperState) : LooperState :=
  {| inputValue := inputValue s; videoId := videoId s; inputError := inputError s;
     loopSegments := loopSegments s; selectedSegmentId := selectedSegmentId s;
     currentTime := currentTime s; duration := v; isPlaying := isPlaying s;
     loopingEnabled := loopingEnabled s; playbackRate := playbackRate s;
     draftLabel := draftLabel s; draftStart := draftStart s; draftEnd := draftEnd s;
     draftStartInput := draftStartInput s; draftEndInput := draftEndInput s;
     isInputDirty := isInputDirty s |}.

Definition setIsPlaying (v : bool) (s : LooperState) : LooperState :=
  {| inputValue := inputValue s; videoId := videoId s; inputError := inputError s;
     loopSegments := loopSegments s; selectedSegmentId := selectedSegmentId s;
     currentTime := currentTime s; duration := duration s; isPlaying := v;
     loopingEnabled := loopingEnabled s; playbackRate := playbackRate s;
     draftLabel := draftLabel s; draftStart := draftStart s; draftEnd := draftEnd s;
     draftStartInput := draftStartInput s; draftEndInput := draftEndInput s;
     isInputDirty := isInputDirty s |}.

Definition setDraftLabel (v : string) (s : LooperState) : LooperState :=
  {| inputValue := inputValue s; videoId := videoId s; inputError := inputError s;
     loopSegments := loopSegments s; selectedSegmentId := selectedSegmentId s;
     currentTime := currentTime s; duration := duration s; isPlaying := isPlaying s;
     loopingEnabled := loopingEnabled s; playbackRate := playbackRate s;
     draftLabel := v; draftStart := draftStart s; draftEnd := draftEnd s;
     draftStartInput := draftStartInput s; draftEndInput := draftEndInput s;
     isInputDirty := isInputDirty s |}.

Definition setDraftStart (v : option number) (s : LooperState) : LooperState :=
  {| inputValue := inputValue s; videoId := videoId s; inputError := inputError s;
     loopSegments := loopSegments s; selectedSegmentId := selectedSegmentId s;
     currentTime := currentTime s; duration := duration s; isPlaying := isPlaying s;
     loopingEnabled := loopingEnabled s; playbackRate := playbackRate s;
     draftLabel := draftLabel s; draftStart := v; draftEnd := draftEnd s;
     draftStartInput := draftStartInput s; draftEndInput := draftEndInput s;
     isInputDirty := isInputDirty s |}.

Definition setDraftEnd (v : option number) (s : LooperState) : LooperState :=
  {| inputValue := inputValue s; videoId := videoId s; inputError := inputError s;
     loopSegments := loopSegments s; selectedSegmentId := selectedSegmentId s;
     currentTime := currentTime s; duration := duration s; isPlaying := isPlaying s;
     loopingEnabled := loopingEnabled s; playbackRate := playbackRate s;
     draftLabel := draftLabel s; draftStart := draftStart s; draftEnd := v;
     draftStartInput := draftStartInput s; draftEndInput := draftEndInput s;
     isInputDirty := isInputDirty s |}.

Definition setDraftStartInput (v : string) (s : LooperState) : LooperState :=
  {| inputValue := inputValue s; videoId := videoId s; inputError := inputError s;
     loopSegments := loopSegments s; selectedSegmentId := selectedSegmentId s;
     currentTime := currentTime s; duration := duration s; isPlaying := isPlaying s;
     loopingEnabled := loopingEnabled s; playbackRate := playbackRate s;
     draftLabel := draftLabel s; draftStart := draftStart s; draftEnd := draftEnd s;
     draftStartInput := v; draftEndInput := draftEndInput s;
     isInputDirty := isInputDirty s |}.

Definition setDraftEndInput (v : string) (s : LooperState) : LooperState :=
  {| inputValue := inputValue s; videoId := videoId s; inputError := inputError s;
     loopSegments := loopSegments s; selectedSegmentId := selectedSegmentId s;
     currentTime := currentTime s; duration := duration s; isPlaying := isPlaying s;
     loopingEnabled := loopingEnabled s; playbackRate := playbackRate s;
     draftLabel := draftLabel s; draftStart := draftStart s; draftEnd := draftEnd s;
     draftStartInput := draftStartInput s; draftEndInput := v;
     isInputDirty := isInputDirty s |}.

Definition setIsInputDirty (v : bool) (s : LooperState) : LooperState :=
  {| inputValue := inputValue s; videoId := videoId s; inputError := inputError s;
     loopSegments := loopSegments s; selectedSegmentId := selectedSegmentId s;
     currentTime := currentTime s; duration := duration s; isPlaying := isPlaying s;
     loopingEnabled := loopingEnabled s; playbackRate := playbackRate s;
     draftLabel := draftLabel s; draftStart := draftStart s; draftEnd := draftEnd s;
     draftStartInput := draftStartInput s; draftEndInput := draftEndInput s;
     isInputDirty := v |}.

(** [a ?? 0] *)
Definition or_zero (a : option number) : number :=
  match a with
  | Some x => x
  | None => Fin 0
  end.

Definition MIN_SEGMENT_LENGTH : number := Fin (2 # 10).

Definition canAddSegment (s : LooperState) : bool :=
  match draftStart s, draftEnd s with
  | Some draftStart, Some draftEnd => num_ge (num_sub draftEnd draftStart) MIN_SEGMENT_LENGTH
  | _, _ => false
  end.

Definition resetDraft (s : LooperState) : LooperState :=
  setDraftEndInput EmptyString
    (setDraftStartInput EmptyString
       (setDraftLabel EmptyString
          (setDraftEnd None
             (setDraftStart None s)))).

(** [Math.min(Math.max(0, draft ?? 0), duration)] when [duration > 0],
    else [draft ?? 0]. *)
Definition bounded (duration : number) (draft : option number) : number :=
  if num_gt duration (Fin 0)
  then Math_min (Math_max (Fin 0) (or_zero draft)) duration
  else or_zero draft.

(** [handleAddSegment]; [fresh] is what [generateSegmentId()] returns. *)
Definition handleAddSegment (fresh : string) (s : LooperState) : LooperState :=
  if negb (canAddSegment s) then s
  else
    let boundedStart := bounded (duration s) (draftStart s) in
    let boundedEnd := bounded (duration s) (draftEnd s) in
    let newSegment :=
      {| id := fresh;
         label := or_else (Str.trim (draftLabel s))
                          (loop_label (List.length (loopSegments s) + 1));
         start := Math_min boundedStart boundedEnd;
         end_ := Math_max boundedStart boundedEnd |} in
    resetDraft
      (setSelectedSegmentId (Some fresh)
         (setLoopSegments (sort by_start (loopSegments s ++ [newSegment])) s)).

Definition handleRemoveSegment (id' : string) (s : LooperState) : LooperState :=
  setSelectedSegmentId
    (match selectedSegmentId s with
     | Some current => if String.eqb current id' then None else Some current
     | None => None
     end)
    (setLoopSegments
       (filter (fun segment => negb (String.eqb (id segment) id')) (loopSegments s)) s).

Definition handleClearSegments (s : LooperState) : LooperState :=
  setSelectedSegmentId None (setLoopSegments [] s).

Definition INPUT_ERROR : string := "Please enter a valid YouTube URL or ID.".

Section Controller.

Variable URL_parse : string -> Completion URL.
Variable JSON_parse : string -> Completion json.
Variable JSON_stringify : json -> Completion string.
Variable URLSearchParams_toString : list (string * string) -> string.
Variable ids : nat -> string.

(** [handleSubmit]; [event.preventDefault()] touches no state. *)
Definition handleSubmit (s : LooperState) : LooperState :=
  let candidateId := extractYouTubeId URL_parse (inputValue s) in
  if negb (truthy candidateId) then setInputError (Some INPUT_ERROR) s
  else
    let parsedSegments := extractSegmentsFromInput JSON_parse URL_parse ids (inputValue s) in
    setIsInputDirty false
      (setIsPlaying false
         (setDuration (Fin 0)
            (setCurrentTime (Fin 0)
               (resetDraft
                  (setSelectedSegmentId (option_map id (hd_error parsedSegments))
                     (setLoopSegments parsedSegments
                        (setVideoId candidateId
                           (setInputError None s)))))))).

(** The effect that rewrites the input field from the canonical link;
    it runs after a render in which [videoId], [loopSegments] or
    [isInputDirty] changed. *)
Definition syncInputValue (s : LooperState) : LooperState :=
  if negb (truthy (videoId s)) || isInputDirty s then s
  else
    match videoId s with
    | Some v =>
        setInputValue (buildVideoLink JSON_stringify URLSearchParams_toString v (loopSegments s)) s
    | None => s
    end.

End Controller.

(** ** src/lib/segments.ts: the clock format and the initial state *)

Definition VIDEO_PARAM : string := "video".

Definition formatTime (value : option number) : string :=
  match value with
  | None => "00:00"
  | Some value =>
      if Number_isNaN value || negb (Number_isFinite value) then "00:00"
      else
        let totalSeconds := Math_max (Fin 0) (Math_floor value) in
        let minutes := Math_floor (num_div totalSeconds (Fin 60)) in
        let seconds := num_rem totalSeconds (Fin 60) in
        let hours := Math_floor (num_div minutes (Fin 60)) in
        let remainingMinutes := num_rem minutes (Fin 60) in
        if num_gt hours (Fin 0) then
          (Str.padStart2 (Number_toString hours) ++ ":"
           ++ Str.padStart2 (Number_toString remainingMinutes) ++ ":"
           ++ Str.padStart2 (Number_toString seconds))%string
        else
          (Str.padStart2 (Number_toString remainingMinutes) ++ ":"
           ++ Str.padStart2 (Number_toString seconds))%string
  end.

Module InitialAppState.
Record InitialAppState : Type := {
  videoId : option string;
  segments : list LoopSegment;
  inputValue : string;
  selectedSegmentId : option string
}.
End InitialAppState.

Section InitialState.

Variable URL_parse : string -> Completion URL.
Variable JSON_parse : string -> Completion json.
Variable JSON_stringify : json -> Completion string.
Variable URLSearchParams_toString : list (string * string) -> string.
Variable ids : nat -> string.

(** [getInitialAppState]; [window] is [window.location.href], or
    nothing where [typeof window === "undefined"].  Its
    [basicIdPattern] is the regular expression of
    [YOUTUBE_ID_PATTERN]. *)
Definition getInitialAppState (window : option string)
  : Completion InitialAppState.InitialAppState :=
  match window with
  | None =>
      Normal {| InitialAppState.videoId := None;
                InitialAppState.segments := [];
                InitialAppState.inputValue := EmptyString;
                InitialAppState.selectedSegmentId := None |}
  | Some href =>
      currentUrl <- URL_parse href ;;
      let videoParam := searchParams_get VIDEO_PARAM (searchParams currentUrl) in
      let segmentsFromUrl :=
        parseSegmentsParam JSON_parse ids
          (searchParams_get SEGMENTS_PARAM (searchParams currentUrl)) in
      let validVideoId :=
        match videoParam with
        | Some v => if YOUTUBE_ID_PATTERN v then Some v else None
        | None => None
        end in
      let inputValue :=
        match validVideoId with
        | Some v => buildVideoLink JSON_stringify URLSearchParams_toString v segmentsFromUrl
        | None => EmptyString
        end in
      Normal {| InitialAppState.videoId := validVideoId;
                InitialAppState.segments := segmentsFromUrl;
                InitialAppState.inputValue := inputValue;
                InitialAppState.selectedSegmentId := option_map id (hd_error segmentsFromUrl) |}
  end.

End InitialState.

(** ** src/components/youtube-player.tsx: the effects and the handle *)

Module PlayerEffects.

(** The commands the component sends to the live player. *)
Inductive command : Type :=
| playVideo
| pauseVideo
| stopVideo
| cueVideoById (videoId : string)
| seekTo (seconds : number) (allowSeekAhead : bool)
| setPlaybackRate (rate : number)
| destroy.

(** What the effects ask of the live player: [video_id] is
    [getVideoData()?.video_id]. *)
Record Player : Type := {
  instance : YouTubePlayer.YouTubePlayerInstance;
  video_id : option string
}.

(** The references of the component. *)
Record Refs : Type := {
  playerRef : option Player;
  readyRef : bool;
  pollTimerRef : option nat
}.

(** The effect on [videoId]. *)
Definition videoId_effect (refs : Refs) (videoId : option string) : list command :=
  match playerRef refs with
  | None => []
  | Some player =>
      if negb (readyRef refs) then []
      else if negb (truthy videoId) then [stopVideo]
      else
        match videoId with
        | Some v =>
            let same :=
              match video_id player with
              | Some currentVideo => String.eqb currentVideo v
              | None => false
              end in
            if same then [] else [cueVideoById v]
        | None => [stopVideo]
        end
  end.

(** The effect on [playbackRate]. *)
Definition playbackRate_effect (refs : Refs) (playbackRate : number) : list command :=
  match playerRef refs with
  | None => []
  | Some _ => if negb (readyRef refs) then [] else [setPlaybackRate playbackRate]
  end.

(** The effect on [loopStart] and [isLooping]. *)
Definition loopStart_effect (refs : Refs) (isLooping : bool)
    (loopRange : option YouTubePlayer.LoopRange) : list command :=
  let loopStart := option_map YouTubePlayer.start loopRange in
  match playerRef refs, loopStart with
  | Some _, Some loopStart =>
      if negb (readyRef refs) then []
      else if isLooping then [seekTo loopStart true] else []
  | _, _ => []
  end.

(** The effect that starts the poll timer: whether a timer runs after
    it. *)
Definition poll_effect_starts (refs : Refs) : bool :=
  match playerRef refs with
  | None => false
  | Some _ => readyRef refs
  end.

(** The cleanup of the mounting effect: what it sends and what it
    leaves in the references. *)
Definition unmount (refs : Refs) : list command * Refs :=
  (match playerRef refs with
   | Some _ => [destroy]
   | None => []
   end,
   {| playerRef := None; readyRef := false; pollTimerRef := None |}).

(** The imperative handle. *)
Definition play (refs : Refs) : list command :=
  match playerRef refs with Some _ => [playVideo] | None => [] end.

Definition pause (refs : Refs) : list command :=
  match playerRef refs with Some _ => [pauseVideo] | None => [] end.

Definition handle_seekTo (refs : Refs) (seconds : number) (allowSeekAhead : bool)
  : list command :=
  match playerRef refs with Some _ => [seekTo seconds allowSeekAhead] | None => [] end.

Definition handle_setPlaybackRate (refs : Refs) (rate : number) : list command :=
  match playerRef refs with Some _ => [setPlaybackRate rate] | None => [] end.

Definition getCurrentTime (refs : Refs) : number :=
  match playerRef refs with
  | Some player => YouTubePlayer.getCurrentTime (instance player)
  | None => Fin 0
  end.

Definition getDuration (refs : Refs) : number :=
  match playerRef refs with
  | Some player => YouTubePlayer.getDuration (instance player)
  | None => Fin 0
  end.

End PlayerEffects.

(** ** src/hooks/use-looper-state.ts: the other handlers *)

Definition setLoopingEnabled (v : bool) (s : LooperState) : LooperState :=
  {| inputValue := inputValue s; videoId := videoId s; inputError := inputError s;
     loopSegments := loopSegments s; selectedSegmentId := selectedSegmentId s;
     currentTime := currentTime s; duration := duration s; isPlaying := isPlaying s;
     loopingEnabled := v; playbackRate := playbackRate s;
     draftLabel := draftLabel s; draftStart := draftStart s; draftEnd := draftEnd s;
     draftStartInput := draftStartInput s; draftEndInput := draftEndInput s;
     isInputDirty := isInputDirty s |}.

Definition setPlaybackRate (v : number) (s : LooperState) : LooperState :=
  {| inputValue := inputValue s; videoId := videoId s; inputError := inputError s;
     loopSegments := loopSegments s; selectedSegmentId := selectedSegmentId s;
     currentTime := currentTime s; duration := duration s; isPlaying := isPlaying s;
     loopingEnabled := loopingEnabled s; playbackRate := v;
     draftLabel := draftLabel s; draftStart := draftStart s; draftEnd := draftEnd s;
     draftStartInput := draftStartInput s; draftEndInput := draftEndInput s;
     isInputDirty := isInputDirty s |}.

(** The state a session starts in: the [useState] initialisers. *)
Definition useLooperState_initial (initialState : InitialAppState.InitialAppState)
  : LooperState :=
  {| inputValue := InitialAppState.inputValue initialState;
     videoId := InitialAppState.videoId initialState;
     inputError := None;
     loopSegments := InitialAppState.segments initialState;
     selectedSegmentId := InitialAppState.selectedSegmentId initialState;
     currentTime := Fin 0;
     duration := Fin 0;
     isPlaying := false;
     loopingEnabled := true;
     playbackRate := Fin 1;
     draftLabel := EmptyString;
     draftStart := None;
     draftEnd := None;
     draftStartInput := EmptyString;
     draftEndInput := EmptyString;
     isInputDirty := false |}.

(** [loopSegments.find((segment) => segment.id === selectedSegmentId) ?? null] *)
Definition selectedSegment (s : LooperState) : option LoopSegment :=
  find (fun segment =>
          match selectedSegmentId s with
          | Some selected => String.eqb (id segment) selected
          | None => false
          end)
       (loopSegments s).

Definition loopRange (s : LooperState) : option YouTubePlayer.LoopRange :=
  match selectedSegment s with
  | Some segment =>
      Some {| YouTubePlayer.start := start segment; YouTubePlayer.end_ := end_ segment |}
  | None => None
  end.

Definition progressPercent (s : LooperState) : number :=
  if num_gt (duration s) (Fin 0)
  then Math_min (Fin (inject_Z 100))
         (Math_max (Fin 0)
            (num_mul (num_div (currentTime s) (duration s)) (Fin (inject_Z 100))))
  else Fin 0.

Definition canNavigateSegments (s : LooperState) : bool :=
  negb (Nat.eqb (List.length (loopSegments s)) 0).

Definition canLoop (s : LooperState) : bool :=
  match selectedSegment s with Some _ => true | None => false end.

Definition hasVideo (s : LooperState) : bool := truthy (videoId s).

(** The [isLooping] the player panel hands to the player:
    [loopingEnabled && Boolean(loopRange)]. *)
Definition isLooping (s : LooperState) : bool :=
  loopingEnabled s && match loopRange s with Some _ => true | None => false end.

Definition handleInputChange (value : string) (s : LooperState) : LooperState :=
  setInputValue value (setIsInputDirty true s).

Definition handleTimeUpdate (time total : number) (s : LooperState) : LooperState :=
  let s := setCurrentTime time s in
  if num_gt total (Fin 0) then setDuration total s else s.

Definition handlePlayerReady (total : number) (s : LooperState) : LooperState :=
  setDuration total s.

(** [a === b] on numbers *)
Definition num_strict_eq (a b : number) : bool :=
  match a, b with
  | Fin x, Fin y => Qeq_bool x y
  | PosInf, PosInf => true
  | NegInf, NegInf => true
  | _, _ => false
  end.

Definition handleStateChange (state : number) (s : LooperState) : LooperState :=
  setIsPlaying (num_strict_eq state (Fin 1) || num_strict_eq state (Fin (inject_Z 3))) s.

(** [arr.findIndex(p)] *)
Fixpoint findIndex {A : Type} (p : A -> bool) (l : list A) : Z :=
  match l with
  | [] => (-1)%Z
  | x :: t =>
      if p x then 0%Z
      else let i := findIndex p t in
           if (i <? 0)%Z then (-1)%Z else (i + 1)%Z
  end.

(** [arr[i]] for an integer [i]; [None] is [undefined]. *)
Definition at_index {A : Type} (l : list A) (i : Z) : option A :=
  if (i <? 0)%Z then None else nth_error l (Z.to_nat i).

(** The stepping handlers.  Where nothing is selected they read
    [loopSegments[i].id] without a guard; the list is not empty there,
    so the element exists. *)
Definition handlePrevSegment (s : LooperState) : LooperState :=
  let length := Z.of_nat (List.length (loopSegments s)) in
  if (length =? 0)%Z then s
  else
    match selectedSegment s with
    | None =>
        match at_index (loopSegments s) (length - 1) with
        | Some last => setSelectedSegmentId (Some (id last)) s
        | None => s
        end
    | Some selected =>
        let currentIndex :=
          findIndex (fun segment => String.eqb (id segment) (id selected)) (loopSegments s) in
        let targetIndex :=
          if (0 <? currentIndex)%Z then (currentIndex - 1)%Z else Z.max 0 (length - 1) in
        setSelectedSegmentId (option_map id (at_index (loopSegments s) targetIndex)) s
    end.

Definition handleNextSegment (s : LooperState) : LooperState :=
  let length := Z.of_nat (List.length (loopSegments s)) in
  if (length =? 0)%Z then s
  else
    match selectedSegment s with
    | None =>
        match at_index (loopSegments s) 0 with
        | Some first => setSelectedSegmentId (Some (id first)) s
        | None => s
        end
    | Some selected =>
        let currentIndex :=
          findIndex (fun segment => String.eqb (id segment) (id selected)) (loopSegments s) in
        let targetIndex :=
          if (currentIndex <? length - 1)%Z then (currentIndex + 1)%Z else 0%Z in
        setSelectedSegmentId (option_map id (at_index (loopSegments s) targetIndex)) s
    end.

Definition handleDraftStartInputChange (value : string) (s : LooperState) : LooperState :=
  setDraftStart (parseTimestampInput value) (setDraftStartInput value s).

Definition handleDraftEndInputChange (value : string) (s : LooperState) : LooperState :=
  setDraftEnd (parseTimestampInput value) (setDraftEndInput value s).

Definition handleMarkStart (s : LooperState) : LooperState :=
  let precise := round2 (currentTime s) in
  setDraftStartInput (formatTimestampInput (Some precise)) (setDraftStart (Some precise) s).

Definition handleMarkEnd (s : LooperState) : LooperState :=
  let precise := round2 (currentTime s) in
  setDraftEndInput (formatTimestampInput (Some precise)) (setDraftEnd (Some precise) s).

Definition handleRemoveSelected (s : LooperState) : LooperState :=
  match selectedSegment s with
  | None => s
  | Some selected => handleRemoveSegment (id selected) s
  end.

Definition handlePlaybackRateChange (value : string) (s : LooperState) : LooperState :=
  let rate := StringToNumber value in
  if negb (Number_isNaN rate) then setPlaybackRate rate s else s.

Definition handleToggleLooping (s : LooperState) : LooperState :=
  setLoopingEnabled (negb (loopingEnabled s)) s.

(** The handlers that drive the player; [playerRef] is the handle the
    hook holds, if any, with the references of the component behind
    it. *)
Definition handleTogglePlay (playerRef : option PlayerEffects.Refs) (s : LooperState)
  : list PlayerEffects.command :=
  match playerRef with
  | None => []
  | Some player =>
      if isPlaying s then PlayerEffects.pause player
      else
        ((match selectedSegment s with
          | Some selected => PlayerEffects.handle_seekTo player (start selected) true
          | None => []
          end)
         ++ PlayerEffects.play player)%list
  end.

Definition handleSegmentPlay (playerRef : option PlayerEffects.Refs) (segment : LoopSegment)
    (s : LooperState) : LooperState * list PlayerEffects.command :=
  (setSelectedSegmentId (Some (id segment)) s,
   match playerRef with
   | None => []
   | Some player =>
       (PlayerEffects.handle_seekTo player (start segment) true
        ++ PlayerEffects.play player)%list
   end).

(** The effect on [selectedSegment]. *)
Definition selectedSegment_effect (playerRef : option PlayerEffects.Refs) (s : LooperState)
  : list PlayerEffects.command :=
  match playerRef, selectedSegment s with
  | Some player, Some selected =>
      (PlayerEffects.handle_seekTo player (start selected) true
       ++ PlayerEffects.play player)%list
  | _, _ => []
  end.

(** [URLSearchParams.prototype.delete] *)
Definition searchParams_delete (name : string) (ps : list (string * string))
  : list (string * string) :=
  filter (fun p => negb (String.eqb (fst p) name)) ps.

Section ControllerEffects.

Variable JSON_stringify : json -> Completion string.
Variable URLSearchParams_toString : list (string * string) -> string.

Definition handleInputBlur (value : string) (s : LooperState) : LooperState :=
  if negb (truthy (videoId s)) then setIsInputDirty false s
  else
    match videoId s with
    | Some v =>
        let canonicalLink :=
          buildVideoLink JSON_stringify URLSearchParams_toString v (loopSegments s) in
        if String.eqb value canonicalLink then setIsInputDirty false s else s
    | None => setIsInputDirty false s
    end.

(** The effect that mirrors the session in the address bar: the query
    parameters of the URL handed to [history.replaceState]. *)
Definition syncLocation (url : URL) (s : LooperState) : URL :=
  let params := searchParams url in
  let params :=
    if truthy (videoId s) then
      match videoId s with
      | Some v => searchParams_set VIDEO_PARAM v params
      | None => params
      end
    else searchParams_delete VIDEO_PARAM params in
  let serialized := serializeSegments JSON_stringify (loopSegments s) in
  let params :=
    if truthy serialized then
      match serialized with
      | Some text => searchParams_set SEGMENTS_PARAM text params
      | None => params
      end
    else searchParams_delete SEGMENTS_PARAM params in
  {| hostname := hostname url; pathname := pathname url; searchParams := params |}.

End ControllerEffects.

(** ** An executable model of the host *)

Module Host.

Definition dquote : ascii := ascii_of_N 34.
Definition backslash : ascii := ascii_of_N 92.

Definition hex_char (upper : bool) (n : N) : ascii :=
  if (n <? 10)%N then ascii_of_N (48 + n)
  else ascii_of_N ((if upper then 55 else 87) + n).

Definition hex_value (c : ascii) : option N := radix_digit 16 c.

(** *** Fresh identifiers *)

(** [generateSegmentId()]: the [n]-th identifier handed out. *)
Definition generateSegmentId (n : nat) : string := ("seg-" ++ N_digits (N.of_nat n))%string.

(** *** application/x-www-form-urlencoded *)

Definition urlencode_safe (b : N) : bool :=
  ((48 <=? b) && (b <=? 57) || (65 <=? b) && (b <=? 90) || (97 <=? b) && (b <=? 122)
   || (b =? 42) || (b =? 45) || (b =? 46) || (b =? 95))%N.

Definition urlencode_byte (b : N) : string :=
  if (b =? 32)%N then "+"
  else if urlencode_safe b then String (ascii_of_N b) EmptyString
  else String "%" (String (hex_char true (b / 16)) (String (hex_char true (b mod 16)) EmptyString)).

(** A code unit below U+0080 is one byte of UTF-8, the others two. *)
Definition urlencode_char (c : ascii) : string :=
  let n := Str.code c in
  if (n <? 128)%N then urlencode_byte n
  else (urlencode_byte (192 + n / 64) ++ urlencode_byte (128 + n mod 64))%string.

Fixpoint urlencode (s : string) : string :=
  match s with
  | EmptyString => EmptyString
  | String c r => (urlencode_char c ++ urlencode r)%string
  end.

(** [URLSearchParams.prototype.toString] *)
Definition URLSearchParams_toString (ps : list (string * string)) : string :=
  join "&" (map (fun p => (urlencode (fst p) ++ "=" ++ urlencode (snd p))%string) ps).

Fixpoint percent_decode (plus_is_space : bool) (s : string) : string :=
  match s with
  | EmptyString => EmptyString
  | String c r =>
      if Ascii.eqb c "%" then
        match r with
        | String h (String l r') =>
            match hex_value h, hex_value l with
            | Some a, Some b => String (ascii_of_N (16 * a + b)) (percent_decode plus_is_space r')
            | _, _ => String c (percent_decode plus_is_space r)
            end
        | _ => String c (percent_decode plus_is_space r)
        end
      else if plus_is_space && Ascii.eqb c "+" then String " " (percent_decode plus_is_space r)
      else String c (percent_decode plus_is_space r)
  end.

(** UTF-8 to code units; what lies outside U+0000..U+00FF, or is not
    UTF-8, is shown as a question mark. *)
Fixpoint utf8_decode (s : string) : string :=
  match s with
  | EmptyString => EmptyString
  | String c r =>
      let n := Str.code c in
      if (n <? 128)%N then String c (utf8_decode r)
      else if ((n =? 194) || (n =? 195))%N then
        match r with
        | String d r' =>
            let m := Str.code d in
            if ((128 <=? m) && (m <? 192))%N
            then String (ascii_of_N ((n - 192) * 64 + (m - 128))) (utf8_decode r')
            else String "?" (utf8_decode r)
        | EmptyString => String "?" EmptyString
        end
      else String "?" (utf8_decode r)
  end.

Definition form_decode (s : string) : string := utf8_decode (percent_decode true s).

Definition parse_pair (piece : string) : string * string :=
  let (name, r) := Str.span (fun c => negb (Ascii.eqb c "=")) piece in
  (form_decode name,
   form_decode (match r with
                | String _ value => value
                | EmptyString => EmptyString
                end)).

(** The parser of a query into name-value pairs. *)
Definition parse_query (query : string) : list (string * string) :=
  map parse_pair (filter_Boolean (Str.split "&" query)).

(** *** URLs *)

Definition is_alpha (c : ascii) : bool := Str.is_lower c || Str.is_upper c.

Definition is_scheme_char (c : ascii) : bool :=
  is_alpha c || Str.is_digit c || Ascii.eqb c "+" || Ascii.eqb c "-" || Ascii.eqb c ".".

Definition to_lower (c : ascii) : ascii :=
  if Str.is_upper c then ascii_of_N (Str.code c + 32) else c.

Fixpoint map_chars (f : ascii -> ascii) (s : string) : string :=
  match s with
  | EmptyString => EmptyString
  | String c r => String (f c) (map_chars f r)
  end.

Fixpoint remove_chars (p : ascii -> bool) (s : string) : string :=
  match s with
  | EmptyString => EmptyString
  | String c r => if p c then remove_chars p r else String c (remove_chars p r)
  end.

Definition is_c0_or_space (c : ascii) : bool := (Str.code c <=? 32)%N.

Definition is_tab_or_newline (c : ascii) : bool :=
  match Str.code c with
  | 9 | 10 | 13 => true
  | _ => false
  end%N.

Definition is_special (scheme : string) : bool :=
  existsb (String.eqb scheme) ["http"; "https"; "ftp"; "ws"; "wss"; "file"].

Definition forbidden_host_char (c : ascii) : bool :=
  (Str.code c <=? 32)%N || (127 <=? Str.code c)%N
  || existsb (Ascii.eqb c) ["#"; "/"; ":"; "<"; ">"; "?"; "@"; "["; "\"; "]"; "^"; "|"; "%"]%char.

(** What follows the last [@] of an authority. *)
Fixpoint after_userinfo (authority : string) : string :=
  match authority with
  | EmptyString => EmptyString
  | String c r =>
      if Str.includes "@" authority then after_userinfo r else authority
  end.

(** The host of an authority, its port checked and dropped. *)
Definition host_of_authority (special : bool) (authority : string) : option string :=
  let (host, port) := Str.span (fun c => negb (Ascii.eqb c ":")) (after_userinfo authority) in
  let port_ok :=
    match port with
    | EmptyString => true
    | String _ ds => Str.all Str.is_digit ds
    end in
  let host := percent_decode false host in
  if negb port_ok || Str.is_empty host && special || negb (Str.all (fun c => negb (forbidden_host_char c)) host)
  then None
  else Some (if special then map_chars to_lower host else host).

Definition path_percent_encoded (c : ascii) : bool :=
  (Str.code c <=? 32)%N || (127 <=? Str.code c)%N
  || existsb (Ascii.eqb c) [dquote; "#"; "<"; ">"; "?"; "`"; "{"; "}"]%char.

Definition percent_encode_byte (b : N) : string :=
  String "%" (String (hex_char true (b / 16)) (String (hex_char true (b mod 16)) EmptyString)).

Fixpoint encode_path (special : bool) (s : string) : string :=
  match s with
  | EmptyString => EmptyString
  | String c r =>
      let n := Str.code c in
      (if special && Ascii.eqb c backslash then "/"
       else if path_percent_encoded c then
         if (n <? 128)%N then percent_encode_byte n
         else (percent_encode_byte (192 + n / 64) ++ percent_encode_byte (128 + n mod 64))%string
       else String c EmptyString)
      ++ encode_path special r
  end%string.

Definition INVALID_URL : string := "TypeError: Invalid URL".

(** [new URL(input)] without a base: a model of the URL parser for
    absolute URLs whose host is a registered name.  Dot segments of the
    path are kept as they are. *)
Definition URL_parse (input : string) : Completion URL :=
  let s := remove_chars is_tab_or_newline
             (Str.dropWhileEnd is_c0_or_space (Str.dropWhile is_c0_or_space input)) in
  let (scheme, r) := Str.span is_scheme_char s in
  match scheme, r with
  | String c _, String ":" r1 =>
      if negb (is_alpha c) then Throw INVALID_URL
      else
        let scheme := map_chars to_lower scheme in
        let special := is_special scheme in
        let slash (c : ascii) := Ascii.eqb c "/" || special && Ascii.eqb c backslash in
        let stop (c : ascii) := Ascii.eqb c "?" || Ascii.eqb c "#" in
        let query_of (r4 : string) :=
          match r4 with
          | String "?" q => fst (Str.span (fun c => negb (Ascii.eqb c "#")) q)
          | _ => EmptyString
          end in
        let r2 :=
          if special then Some (Str.dropWhile slash r1)
          else match r1 with
               | String "/" (String "/" t) => Some t
               | _ => None
               end in
        match r2 with
        | Some r2 =>
            let (authority, r3) := Str.span (fun c => negb (slash c || stop c)) r2 in
            match host_of_authority special authority with
            | None => Throw INVALID_URL
            | Some host =>
                let (path, r4) := Str.span (fun c => negb (stop c)) r3 in
                Normal {| hostname := host;
                          pathname := if special && Str.is_empty path then "/"
                                      else encode_path special path;
                          searchParams := parse_query (query_of r4) |}
            end
        | None =>
            let (path, r4) := Str.span (fun c => negb (stop c)) r1 in
            Normal {| hostname := EmptyString;
                      pathname := path;
                      searchParams := parse_query (query_of r4) |}
        end
  | _, _ => Throw INVALID_URL
  end.

(** *** JSON text *)

(** QuoteJSONString, one code unit at a time. *)
Definition quote_char (c : ascii) : string :=
  let n := Str.code c in
  if (n =? 34)%N then String backslash (String dquote EmptyString)
  else if (n =? 92)%N then String backslash (String backslash EmptyString)
  else if (n =? 8)%N then String backslash "b"
  else if (n =? 12)%N then String backslash "f"
  else if (n =? 10)%N then String backslash "n"
  else if (n =? 13)%N then String backslash "r"
  else if (n =? 9)%N then String backslash "t"
  else if (n <? 32)%N then
    String backslash
      (String "u" (String "0" (String "0"
         (String (hex_char false (n / 16)) (String (hex_char false (n mod 16)) EmptyString)))))
  else String c EmptyString.

Fixpoint quote_body (s : string) : string :=
  match s with
  | EmptyString => EmptyString
  | String c r => (quote_char c ++ quote_body r)%string
  end.

Definition quote (s : string) : string :=
  String dquote (quote_body s ++ String dquote EmptyString).

Fixpoint stringify (v : json) : string :=
  match v with
  | JNull => "null"
  | JBool true => "true"
  | JBool false => "false"
  | JNumber n => if Number_isFinite n then Number_toString n else "null"
  | JString s => quote s
  | JArray items => ("[" ++ join "," (map stringify items) ++ "]")%string
  | JObject members =>
      ("{" ++ join "," (map (fun m => (quote (fst m) ++ ":" ++ stringify (snd m))%string) members)
           ++ "}")%string
  end.

(** [JSON.stringify(value)]; it throws on none of the values of [json]. *)
Definition JSON_stringify (v : json) : Completion string := Normal (stringify v).

Definition is_json_space (c : ascii) : bool :=
  match Str.code c with
  | 9 | 10 | 13 | 32 => true
  | _ => false
  end%N.

(** The characters of a string literal after its opening quote, and
    what follows the closing one. *)
Fixpoint parse_string_body (s : string) : option (string * string) :=
  match s with
  | EmptyString => None
  | String c r =>
      if Ascii.eqb c dquote then Some (EmptyString, r)
      else if Ascii.eqb c backslash then
        match r with
        | String e r' =>
            let simple (ch : ascii) :=
              match parse_string_body r' with
              | Some (v, rest) => Some (String ch v, rest)
              | None => None
              end in
            if Ascii.eqb e dquote then simple dquote
            else if Ascii.eqb e backslash then simple backslash
            else if Ascii.eqb e "/" then simple "/"%char
            else if Ascii.eqb e "b" then simple (ascii_of_N 8)
            else if Ascii.eqb e "f" then simple (ascii_of_N 12)
            else if Ascii.eqb e "n" then simple (ascii_of_N 10)
            else if Ascii.eqb e "r" then simple (ascii_of_N 13)
            else if Ascii.eqb e "t" then simple (ascii_of_N 9)
            else if Ascii.eqb e "u" then
              match r' with
              | String h1 (String h2 (String h3 (String h4 r''))) =>
                  match hex_value h1, hex_value h2, hex_value h3, hex_value h4,
                        parse_string_body r'' with
                  | Some a, Some b, Some c', Some d, Some (v, rest) =>
                      let n := (((a * 16 + b) * 16 + c') * 16 + d)%N in
                      Some (String (if (n <? 256)%N then ascii_of_N n else "?"%char) v, rest)
                  | _, _, _, _, _ => None
                  end
              | _ => None
              end
            else None
        | EmptyString => None
        end
      else if (Str.code c <? 32)%N then None
      else match parse_string_body r with
           | Some (v, rest) => Some (String c v, rest)
           | None => None
           end
  end.

(** A JSON number at the head of [s]. *)
Definition parse_number (s : string) : option (number * string) :=
  let '(negative, body) :=
    match s with
    | String "-" r => (true, r)
    | _ => (false, s)
    end in
  let (ip, r1) := Str.span Str.is_digit body in
  let leading_zero :=
    match ip with
    | String "0" (String _ _) => true
    | _ => false
    end in
  let '(fp, r2, frac_ok) :=
    match r1 with
    | String "." t => let (fp, r2) := Str.span Str.is_digit t in (fp, r2, negb (Str.is_empty fp))
    | _ => (EmptyString, r1, true)
    end in
  let '(e, r3, exp_ok) :=
    match r2 with
    | String c t =>
        if Ascii.eqb c "e" || Ascii.eqb c "E" then
          let '(eneg, t') :=
            match t with
            | String "+" u => (false, u)
            | String "-" u => (true, u)
            | _ => (false, t)
            end in
          let (ds, r3) := Str.span Str.is_digit t' in
          ((if eneg then - Z.of_N (digits_value ds) else Z.of_N (digits_value ds))%Z,
           r3, negb (Str.is_empty ds))
        else (0%Z, r2, true)
    | EmptyString => (0%Z, r2, true)
    end in
  if Str.is_empty ip || leading_zero || negb frac_ok || negb exp_ok then None
  else
    let q := scale10 (Z.of_N (digits_value (ip ++ fp))) (e - Z.of_nat (String.length fp)) in
    Some (Fin (if negative then - q else q), r3).

Definition skip_space (s : string) : string := Str.dropWhile is_json_space s.

Fixpoint parse_value (fuel : nat) (s : string) : option (json * string) :=
  match fuel with
  | O => None
  | S fuel' =>
      match skip_space s with
      | EmptyString => None
      | String c r as t =>
          if Ascii.eqb c dquote then
            match parse_string_body r with
            | Some (v, rest) => Some (JString v, rest)
            | None => None
            end
          else if Ascii.eqb c "[" then
            match skip_space r with
            | String "]" rest => Some (JArray [], rest)
            | _ =>
                match parse_elements fuel' r with
                | Some (items, rest) => Some (JArray items, rest)
                | None => None
                end
            end
          else if Ascii.eqb c "{" then
            match skip_space r with
            | String "}" rest => Some (JObject [], rest)
            | _ =>
                match parse_members fuel' r with
                | Some (members, rest) => Some (JObject members, rest)
                | None => None
                end
            end
          else
            match Str.strip_prefix "null" t, Str.strip_prefix "true" t,
                  Str.strip_prefix "false" t with
            | Some rest, _, _ => Some (JNull, rest)
            | _, Some rest, _ => Some (JBool true, rest)
            | _, _, Some rest => Some (JBool false, rest)
            | _, _, _ =>
                match parse_number t with
                | Some (n, rest) => Some (JNumber n, rest)
                | None => None
                end
            end
      end
  end

with parse_elements (fuel : nat) (s : string) : option (list json * string) :=
  match fuel with
  | O => None
  | S fuel' =>
      match parse_value fuel' s with
      | Some (v, rest) =>
          match skip_space rest with
          | String "," rest' =>
              match parse_elements fuel' rest' with
              | Some (vs, rest'') => Some (v :: vs, rest'')
              | None => None
              end
          | String "]" rest' => Some ([v], rest')
          | _ => None
          end
      | None => None
      end
  end

with parse_members (fuel : nat) (s : string) : option (list (string * json) * string) :=
  match fuel with
  | O => None
  | S fuel' =>
      match skip_space s with
      | String c r =>
          if Ascii.eqb c dquote then
            match parse_string_body r with
            | Some (key, rest) =>
                match skip_space rest with
                | String ":" rest1 =>
                    match parse_value fuel' rest1 with
                    | Some (v, rest2) =>
                        match skip_space rest2 with
                        | String "," rest3 =>
                            match parse_members fuel' rest3 with
                            | Some (ms, rest4) => Some ((key, v) :: ms, rest4)
                            | None => None
                            end
                        | String "}" rest3 => Some ([(key, v)], rest3)
                        | _ => None
                        end
                    | None => None
                    end
                | _ => None
                end
            | None => None
            end
          else None
      | EmptyString => None
      end
  end.

Definition SYNTAX_ERROR : string := "SyntaxError: not JSON".

(** [JSON.parse(text)] *)
Definition JSON_parse (text : string) : Completion json :=
  match parse_value (2 * String.length text + 4) text with
  | Some (v, rest) =>
      if Str.is_empty (skip_space rest) then Normal v else Throw SYNTAX_ERROR
  | None => Throw SYNTAX_ERROR
  end.

End Host.

(** ** Vocabulary of the properties *)

(** Ascending by [start]. *)
Definition ascending (l : list LoopSegment) : Prop :=
  Sorted (fun a b => num_le (start a) (start b) = true) l.

(** No segment of [l] starts at [NaN]. *)
Definition starts_comparable (l : list LoopSegment) : Prop :=
  Forall (fun x => Number_isNaN (start x) = false) l.

(** The fields of the state that are neither the segment list, nor the
    selection, nor the draft, nor the validation error. *)
Definition same_video_and_playback (s s' : LooperState) : Prop :=
  inputValue s' = inputValue s /\ videoId s' = videoId s
  /\ isInputDirty s' = isInputDirty s
  /\ currentTime s' = currentTime s /\ duration s' = duration s
  /\ isPlaying s' = isPlaying s /\ playbackRate s' = playbackRate s
  /\ loopingEnabled s' = loopingEnabled s.

Definition same_draft (s s' : LooperState) : Prop :=
  draftLabel s' = draftLabel s /\ draftStart s' = draftStart s
  /\ draftEnd s' = draftEnd s /\ draftStartInput s' = draftStartInput s
  /\ draftEndInput s' = draftEndInput s.

Definition draft_is_clear (s : LooperState) : Prop :=
  draftLabel s = EmptyString /\ draftStart s = None /\ draftEnd s = None
  /\ draftStartInput s = EmptyString /\ draftEndInput s = EmptyString.

(** The first candidate that [normalizeYouTubeId] accepts. *)
Fixpoint first_valid (candidates : list string) : option string :=
  match candidates with
  | [] => None
  | candidate :: rest =>
      match normalizeYouTubeId (Some candidate) with
      | Some id' => Some id'
      | None => first_valid rest
      end
  end.

(** The same label and bounds; the identifiers may differ. *)
Definition same_triple (a b : LoopSegment) : Prop :=
  label a = label b /\ num_eq (start a) (start b) /\ num_eq (end_ a) (end_ b).

(** The same [(label, start, end)] triples in the same order. *)
Definition same_triples (l l' : list LoopSegment) : Prop := Forall2 same_triple l l'.

(** [start <= end] *)
Definition well_ordered (segment : LoopSegment) : Prop :=
  num_le (start segment) (end_ segment) = true.

(** A segment as the controller and the decoder build them: a label
    that is not blank and carries no surrounding white space, and
    finite bounds that are not negative and are multiples of 0.01. *)
Definition sanitized (segment : LoopSegment) : Prop :=
  Str.trim (label segment) = label segment
  /\ Str.is_empty (label segment) = false
  /\ num_le (Fin 0) (start segment) = true
  /\ Number_isFinite (start segment) = true
  /\ Number_isFinite (end_ segment) = true
  /\ num_eq (round2 (start segment)) (start segment)
  /\ num_eq (round2 (end_ segment)) (end_ segment).

(** Two parsed values that differ at most in how their numbers are
    written as fractions. *)
Fixpoint json_equiv (a b : json) : Prop :=
  match a, b with
  | JNull, JNull => True
  | JBool x, JBool y => x = y
  | JNumber x, JNumber y => num_eq x y
  | JString x, JString y => x = y
  | JArray xs, JArray ys =>
      (fix items_equiv (xs ys : list json) : Prop :=
         match xs, ys with
         | [], [] => True
         | x :: xs', y :: ys' => json_equiv x y /\ items_equiv xs' ys'
         | _, _ => False
         end) xs ys
  | JObject xs, JObject ys =>
      (fix members_equiv (xs ys : list (string * json)) : Prop :=
         match xs, ys with
         | [], [] => True
         | (k, x) :: xs', (k', y) :: ys' => k = k' /\ json_equiv x y /\ members_equiv xs' ys'
         | _, _ => False
         end) xs ys
  | _, _ => False
  end.

(** [JSON.parse(JSON.stringify(v))] gives [v] back. *)
Definition JSON_round_trips (JSON_parse : string -> Completion json)
    (JSON_stringify : json -> Completion string) (v : json) : Prop :=
  exists text v',
    JSON_stringify v = Normal text /\ Str.is_empty text = false
    /\ JSON_parse text = Normal v' /\ json_equiv v' v.

(** [L] meets the premises of the round-trip law as the specification
    words it, and yet decoding its encoding does not give its triples
    back. *)
Definition round_trip_fails (L : list LoopSegment) : Prop :=
  Forall well_ordered L /\ ascending L
  /\ ~ same_triples
        (parseSegmentsParam Host.JSON_parse Host.generateSegmentId
           (serializeSegments Host.JSON_stringify L)) L.

(** A printable ASCII character other than the space and [#]. *)
Definition plain (c : ascii) : bool :=
  (33 <=? Str.code c)%N && (Str.code c <=? 126)%N && negb (Ascii.eqb c "#").

(** A character that may stand inside one field of a query. *)
Definition field_char (c : ascii) : bool :=
  plain c && negb (Ascii.eqb c "&") && negb (Ascii.eqb c "=").

Definition WATCH_PREFIX : string := "https://www.youtube.com/watch?".

(** [n] hundredths. *)
Definition hundredths (n : Z) : number := Fin (n # 100).

(** What [formatTimestampInput] prints for [n] hundredths of a second:
    minutes, seconds, and the hundredths when there are any. *)
Definition timestamp_text (n : Z) : string :=
  (Str.padStart2 (Z_digits (n / 6000)) ++ ":"
   ++ Str.padStart2 (Z_digits (n mod 6000 / 100))
   ++ (if (0 <? n mod 100)%Z then "." ++ Str.padStart2 (Z_digits (n mod 100))
       else EmptyString))%string.

(** Nothing, or a first character that is no white space. *)
Definition starts_clean (s : string) : Prop :=
  match s with
  | EmptyString => True
  | String c _ => Str.is_white_space c = false
  end.

(** A text that opens with a digit, followed by nothing, a digit or a
    point. *)
Definition opens_decimal (s : string) : Prop :=
  match s with
  | EmptyString => False
  | String c r =>
      Str.is_digit c = true
      /\ match r with
         | EmptyString => True
         | String p _ => Str.is_digit p = true \/ p = "."%char
         end
  end.

(** The query of a canonical link: the identifier, and the segments
    when there are any. *)
Definition watch_query (videoId : string) (serialized : option string) : string :=
  ("v=" ++ videoId
   ++ match serialized with
      | Some text => if Str.is_empty text then EmptyString
                     else "&segments=" ++ Host.urlencode text
      | None => EmptyString
      end)%string.

(** ** Sample values *)

Definition sample_segment (id' label' : string) (start' end' : Q) : LoopSegment :=
  {| id := id'; label := label'; start := Fin start'; end_ := Fin end' |}.

(** A session with one video, two segments and the first one selected. *)
Definition sample_state (input : string) : LooperState :=
  {| inputValue := input;
     videoId := Some "dQw4w9WgXcQ";
     inputError := None;
     loopSegments := [sample_segment "a" "Intro" 1 (5 # 2); sample_segment "b" "Solo" 10 (25 # 2)];
     selectedSegmentId := Some "a";
     currentTime := Fin (3 # 2);
     duration := Fin (inject_Z 212);
     isPlaying := true;
     loopingEnabled := true;
     playbackRate := Fin 1;
     draftLabel := "Outro";
     draftStart := Some (Fin (inject_Z 200));
     draftEnd := None;
     draftStartInput := "03:20";
     draftEndInput := EmptyString;
     isInputDirty := true |}.

(** ** Proof automation *)

(** Case analysis over the 256 characters. *)
Ltac each_char c :=
  destruct c as [[] [] [] [] [] [] [] []]; vm_compute;
  try reflexivity; try discriminate; auto.

(** Refutes [round_trip_fails]'s last part on a concrete list. *)
Ltac refute_round_trip :=
  unfold round_trip_fails; split; [repeat constructor | split; [repeat constructor |]];
  let H := fresh "H" in
  intros H; vm_compute in H; inversion H as [| ? ? ? ? Ht _]; subst;
  destruct Ht as [Hl [Hs He]];
  first [discriminate Hl | discriminate Hs | discriminate He | contradiction].

(** An equation between rationals with literal denominators. *)
Ltac Qeq_by_lia :=
  unfold Qeq, Qdiv, Qminus, Qplus, Qmult, Qopp, Qinv, inject_Z; cbn [Qnum Qden Z.opp];
  lia.

(** Linear arithmetic with division and remainder by constants. *)
Ltac div_lia := Z.to_euclidean_division_equations; lia.

(** ** Vocabulary of the further properties *)

(** The video of the session, if any, is an identifier. *)
Definition valid_video (s : LooperState) : Prop :=
  match videoId s with
  | Some v => YOUTUBE_ID_PATTERN v = true
  | None => True
  end.

(** The selection is empty or names a segment of the list. *)
Definition selection_valid (s : LooperState) : Prop :=
  match selectedSegmentId s with
  | Some selected => exists segment, In segment (loopSegments s) /\ id segment = selected
  | None => True
  end.

(** A list as the controller keeps it: ascending by start, no start
    [NaN], no identifier twice. *)
Definition segments_ok (l : list LoopSegment) : Prop :=
  ascending l /\ starts_comparable l /\ NoDup (map id l).

(** Linear arithmetic after the boolean comparisons of the
    hypotheses are read as propositions. *)
Ltac bool_lia :=
  repeat match goal with
         | H : (_ <? _)%Z = true |- _ => apply Z.ltb_lt in H
         | H : (_ <? _)%Z = false |- _ => apply Z.ltb_ge in H
         | H : (_ <=? _)%Z = true |- _ => apply Z.leb_le in H
         | H : (_ <=? _)%Z = false |- _ => apply Z.leb_gt in H
         | H : (_ =? _)%Z = true |- _ => apply Z.eqb_eq in H
         | H : (_ =? _)%Z = false |- _ => apply Z.eqb_neq in H
         end;
  first [lia | exfalso; lia].

(** The segment [handleAddSegment] builds from the draft. *)
Definition newSegment (fresh : string) (s : LooperState) : LoopSegment :=
  {| id := fresh;
     label := or_else (Str.trim (draftLabel s))
                      (loop_label (List.length (loopSegments s) + 1));
     start := Math_min (bounded (duration s) (draftStart s))
                       (bounded (duration s) (draftEnd s));
     end_ := Math_max (bounded (duration s) (draftStart s))
                      (bounded (duration s) (draftEnd s)) |}.

(** A session whose draft lies past the end of a video of ten
    seconds. *)
Definition sample_late_draft : LooperState :=
  setDraftEnd (Some (Fin (inject_Z 13)))
    (setDraftStart (Some (Fin (inject_Z 12)))
       (setDuration (Fin (inject_Z 10)) (sample_state "x"))).

(** A session whose draft lies within the video. *)
Definition sample_draft : LooperState :=
  setDraftEnd (Some (Fin (inject_Z 205))) (sample_state "x").

(** The address of the page once the session of [sample_state] has
    been mirrored into the query of [https://looper.example/]. *)
Definition sample_location : URL :=
  syncLocation Host.JSON_stringify
    {| hostname := "looper.example"; pathname := "/"; searchParams := [] |}
    (sample_state "x").

Definition sample_href : string :=
  ("https://looper.example/?"
   ++ Host.URLSearchParams_toString (searchParams sample_location))%string.

(** What the page finds in that address when it is opened. *)
Definition sample_initial : InitialAppState.InitialAppState :=
  Eval vm_compute in
    match getInitialAppState Host.URL_parse Host.JSON_parse Host.JSON_stringify
            Host.URLSearchParams_toString Host.generateSegmentId (Some sample_href) with
    | Normal st => st
    | Throw _ =>
        {| InitialAppState.videoId := None; InitialAppState.segments := [];
           InitialAppState.inputValue := EmptyString;
           InitialAppState.selectedSegmentId := None |}
    end.

(** What [formatTime] prints for [t] whole seconds: the hours when
    there are any, the minutes within the hour and the seconds within
    the minute, each on two digits at least. *)
Definition clock_text (t : Z) : string :=
  ((if (0 <? t / 3600)%Z then Str.padStart2 (Z_digits (t / 3600)) ++ ":" else EmptyString)
   ++ Str.padStart2 (Z_digits (t / 60 mod 60)) ++ ":"
   ++ Str.padStart2 (Z_digits (t mod 60)))%string.

(** A character of a decimal literal without a sign: a digit, the
    point, or the [e] and [+] of an exponent. *)
Definition literal_char (c : ascii) : bool :=
  Str.is_digit c || Ascii.eqb c "." || Ascii.eqb c "e" || Ascii.eqb c "+".

(** A segment as the decoder returns them: a label that is not empty
    and finite bounds with [0 <= start <= end]. *)
Definition well_formed (segment : LoopSegment) : Prop :=
  Str.is_empty (label segment) = false
  /\ Number_isFinite (start segment) = true
  /\ Number_isFinite (end_ segment) = true
  /\ num_le (Fin 0) (start segment) = true
  /\ num_le (start segment) (end_ segment) = true.

(* ================================================================= *)
(** * Part II: the properties *)
(* ================================================================= *)

(** ** Numbers: comparison and arithmetic *)

Lemma Qltb_lt (x y : Q) : Qltb x y = true <-> x < y.
Proof.
  unfold Qltb. rewrite negb_true_iff. split.
  - intros H. apply Qnot_le_lt. intros Hle.
    apply Qle_bool_iff in Hle. congruence.
  - intros H. destruct (Qle_bool y x) eqn:E; [|reflexivity].
    apply Qle_bool_iff in E. exfalso. apply (Qlt_not_le _ _ H E).
Qed.

Lemma Qltb_ge (x y : Q) : Qltb x y = false <-> y <= x.
Proof.
  unfold Qltb. rewrite negb_false_iff. apply Qle_bool_iff.
Qed.

Lemma Qle_bool_gt (x y : Q) : Qle_bool x y = false <-> y < x.
Proof.
  rewrite <- Qltb_lt. unfold Qltb. rewrite negb_true_iff. tauto.
Qed.

Lemma num_eq_refl (a : number) : num_eq a a.
Proof. destruct a; simpl; auto. reflexivity. Qed.

Lemma num_eq_sym (a b : number) : num_eq a b -> num_eq b a.
Proof. destruct a, b; simpl; auto. intros H. symmetry. exact H. Qed.

Lemma num_eq_trans (a b c : number) : num_eq a b -> num_eq b c -> num_eq a c.
Proof.
  destruct a, b, c; simpl; auto; try contradiction.
  intros H1 H2. rewrite H1. exact H2.
Qed.

Lemma num_le_compat (a a' b b' : number) :
  num_eq a a' -> num_eq b b' -> num_le a b = num_le a' b'.
Proof.
  destruct a, a', b, b'; simpl; try contradiction; auto.
  intros H1 H2. rewrite H1, H2. reflexivity.
Qed.

Lemma num_lt_compat (a a' b b' : number) :
  num_eq a a' -> num_eq b b' -> num_lt a b = num_lt a' b'.
Proof.
  destruct a, a', b, b'; simpl; try contradiction; auto.
  intros H1 H2. unfold Qltb. rewrite H1, H2. reflexivity.
Qed.

Lemma num_le_refl (a : number) : Number_isNaN a = false -> num_le a a = true.
Proof.
  destruct a; simpl; try congruence. intros _. apply Qle_bool_iff. apply Qle_refl.
Qed.

Lemma num_le_trans (a b c : number) :
  num_le a b = true -> num_le b c = true -> num_le a c = true.
Proof.
  destruct a, b, c; simpl; try congruence.
  rewrite !Qle_bool_iff. apply Qle_trans.
Qed.

Lemma num_lt_le (a b : number) : num_lt a b = true -> num_le a b = true.
Proof.
  destruct a, b; simpl; try congruence.
  rewrite Qltb_lt, Qle_bool_iff. apply Qlt_le_weak.
Qed.

(** On numbers other than [NaN] the order is total. *)
Lemma num_lt_false_le (a b : number) :
  Number_isNaN a = false -> Number_isNaN b = false ->
  num_lt a b = false -> num_le b a = true.
Proof.
  destruct a, b; simpl; try congruence.
  intros _ _. rewrite Qltb_ge, Qle_bool_iff. auto.
Qed.

Lemma num_le_not_NaN (a b : number) :
  num_le a b = true -> Number_isNaN a = false /\ Number_isNaN b = false.
Proof. destruct a, b; simpl; try congruence; auto. Qed.

Lemma Math_max_cases (a b : number) :
  Number_isNaN a = false -> Number_isNaN b = false ->
  (Math_max a b = b /\ num_lt a b = true) \/ (Math_max a b = a /\ num_le b a = true).
Proof.
  intros Ha Hb. unfold Math_max.
  destruct (num_lt a b) eqn:E.
  - left. destruct a, b; simpl in *; try congruence; auto.
  - right. split.
    + destruct a, b; simpl in *; try congruence; auto.
    + apply num_lt_false_le; auto.
Qed.

Lemma Math_min_cases (a b : number) :
  Number_isNaN a = false -> Number_isNaN b = false ->
  (Math_min a b = b /\ num_lt b a = true) \/ (Math_min a b = a /\ num_le a b = true).
Proof.
  intros Ha Hb. unfold Math_min.
  destruct (num_lt b a) eqn:E.
  - left. destruct a, b; simpl in *; try congruence; auto.
  - right. split.
    + destruct a, b; simpl in *; try congruence; auto.
    + apply num_lt_false_le; auto.
Qed.

(** ** The poll tick (C5) *)

Section PollTick.
Import YouTubePlayer.

Lemma sub_threshold_le (e ct : number) :
  num_eq ct (num_sub e (Fin (1 # 10))) -> Number_isNaN e = false ->
  num_ge ct (num_sub e LOOP_THRESHOLD) = true.
Proof.
  unfold num_ge, LOOP_THRESHOLD.
  destruct e, ct; simpl; try contradiction; try congruence; auto.
  intros H _. apply Qle_bool_iff. rewrite H. lra.
Qed.

Lemma length_guard_gt (s e : number) :
  num_ge (num_sub e s) (Fin (2 # 10)) = true -> num_gt e s = true.
Proof.
  unfold num_ge, num_gt.
  destruct e, s; simpl; try congruence.
  rewrite Qle_bool_iff, Qltb_lt. lra.
Qed.

Lemma length_guard_not_NaN (s e : number) :
  num_ge (num_sub e s) (Fin (2 # 10)) = true ->
  Number_isNaN s = false /\ Number_isNaN e = false.
Proof. unfold num_ge. destruct e, s; simpl; try congruence; auto. Qed.


End PollTick.

(** ** Sorting by start *)

Section SortFacts.
Context {A : Type} (comparefn : A -> A -> number).

Lemma sort_insert_perm (x : A) (l : list A) :
  Permutation (sort_insert comparefn x l) (x :: l).
Proof.
  induction l as [| y t IH]; simpl.
  - apply Permutation_refl.
  - destruct (num_gt (comparefn x y) (Fin 0)).
    + eapply perm_trans; [apply perm_skip, IH | apply perm_swap].
    + apply Permutation_refl.
Qed.

Lemma sort_perm (l : list A) : Permutation (sort comparefn l) l.
Proof.
  induction l as [| x t IH]; simpl.
  - apply perm_nil.
  - eapply perm_trans; [apply sort_insert_perm | apply perm_skip, IH].
Qed.

End SortFacts.

Lemma by_start_not_gt (a b : LoopSegment) :
  Number_isNaN (start a) = false -> Number_isNaN (start b) = false ->
  num_gt (by_start a b) (Fin 0) = false -> num_le (start a) (start b) = true.
Proof.
  unfold by_start, num_gt.
  destruct (start a), (start b); simpl; try congruence.
  intros _ _. rewrite Qltb_ge, Qle_bool_iff. lra.
Qed.

Lemma by_start_gt (a b : LoopSegment) :
  num_gt (by_start a b) (Fin 0) = true -> num_le (start b) (start a) = true.
Proof.
  unfold by_start, num_gt.
  destruct (start a), (start b); simpl; try congruence.
  rewrite Qltb_lt, Qle_bool_iff. lra.
Qed.

Lemma by_start_le (a b : LoopSegment) :
  num_le (start a) (start b) = true -> num_gt (by_start a b) (Fin 0) = false.
Proof.
  unfold by_start, num_gt.
  destruct (start a), (start b); simpl; try congruence.
  rewrite Qltb_ge, Qle_bool_iff. lra.
Qed.

Lemma sort_insert_ascending (x : LoopSegment) (l : list LoopSegment) :
  Number_isNaN (start x) = false -> starts_comparable l ->
  ascending l -> ascending (sort_insert by_start x l).
Proof.
  unfold ascending, starts_comparable.
  intros Hx Hl Hs. induction l as [| y t IH]; simpl.
  - repeat constructor.
  - inversion Hl as [| ? ? Hy Ht]; subst. inversion Hs as [| ? ? Hst Hhd]; subst.
    destruct (num_gt (by_start x y) (Fin 0)) eqn:E.
    + constructor; [apply IH; assumption |].
      destruct t as [| z t']; simpl.
      * constructor. apply by_start_gt. exact E.
      * destruct (num_gt (by_start x z) (Fin 0)).
        -- constructor. inversion Hhd; assumption.
        -- constructor. apply by_start_gt. exact E.
    + constructor; [assumption |]. constructor. apply by_start_not_gt; assumption.
Qed.

Lemma sort_starts_comparable (l : list LoopSegment) :
  starts_comparable l -> starts_comparable (sort by_start l).
Proof.
  unfold starts_comparable. intros H.
  eapply Permutation_Forall; [apply Permutation_sym, sort_perm | exact H].
Qed.

Lemma sort_ascending (l : list LoopSegment) :
  starts_comparable l -> ascending (sort by_start l).
Proof.
  intros H. induction l as [| x t IH]; simpl.
  - constructor.
  - inversion H; subst. apply sort_insert_ascending; auto.
    apply sort_starts_comparable. assumption.
Qed.

(** A list that ascends already is left as it is. *)
Lemma sort_ascending_id (l : list LoopSegment) :
  ascending l -> sort by_start l = l.
Proof.
  unfold ascending. intros H. induction l as [| x t IH]; simpl; [reflexivity |].
  inversion H as [| ? ? Hs Hhd]; subst. rewrite (IH Hs).
  destruct t as [| y t']; simpl; [reflexivity |].
  inversion Hhd; subst. rewrite by_start_le by assumption. reflexivity.
Qed.

(** ** The state controller (C7, C8, C10) *)

Lemma canAddSegment_iff (s : LooperState) :
  canAddSegment s = true <->
  exists ds de, draftStart s = Some ds /\ draftEnd s = Some de
                /\ num_ge (num_sub de ds) (Fin (2 # 10)) = true.
Proof.
  unfold canAddSegment, MIN_SEGMENT_LENGTH. split.
  - destruct (draftStart s) as [ds |], (draftEnd s) as [de |]; try discriminate.
    intros H. exists ds, de. auto.
  - intros [ds [de [H1 [H2 H3]]]]. rewrite H1, H2. exact H3.
Qed.

Lemma bounded_range (d x : number) :
  num_gt d (Fin 0) = true -> Number_isNaN x = false ->
  num_le (Fin 0) (bounded d (Some x)) = true /\ num_le (bounded d (Some x)) d = true.
Proof.
  intros Hd Hx. unfold bounded, or_zero. rewrite Hd.
  assert (Hd' : Number_isNaN d = false)
    by (unfold num_gt in Hd; destruct d; simpl in *; congruence).
  assert (H0d : num_le (Fin 0) d = true) by (apply num_lt_le; exact Hd).
  destruct (Math_max_cases (Fin 0) x eq_refl Hx) as [[Hm Hlt] | [Hm Hle]];
    rewrite Hm.
  - destruct (Math_min_cases x d Hx Hd') as [[Hn Hlt'] | [Hn Hle']]; rewrite Hn.
    + split; [exact H0d | apply num_le_refl; exact Hd'].
    + split; [apply num_lt_le; exact Hlt | exact Hle'].
  - destruct (Math_min_cases (Fin 0) d eq_refl Hd') as [[Hn Hlt'] | [Hn Hle']]; rewrite Hn.
    + split; [exact H0d | apply num_le_refl; exact Hd'].
    + split; [reflexivity | exact H0d].
Qed.

Lemma bounded_not_NaN (d x : number) :
  Number_isNaN x = false -> Number_isNaN (bounded d (Some x)) = false.
Proof.
  intros Hx. destruct (num_gt d (Fin 0)) eqn:Hd.
  - destruct (bounded_range d x Hd Hx) as [H _].
    apply num_le_not_NaN in H. tauto.
  - unfold bounded. rewrite Hd. exact Hx.
Qed.


(** An instance of the guard: a draft of 0.1 s is refused, one of
    0.5 s is committed. *)
Example handleAddSegment_examples :
  let s0 := {| inputValue := ""; videoId := Some "dQw4w9WgXcQ"; inputError := None;
               loopSegments := []; selectedSegmentId := None;
               currentTime := Fin 0; duration := Fin (inject_Z 10);
               isPlaying := false; loopingEnabled := true; playbackRate := Fin 1;
               draftLabel := "  "; draftStart := Some (Fin 1); draftEnd := Some (Fin (11 # 10));
               draftStartInput := "1"; draftEndInput := "1.1"; isInputDirty := false |} in
  handleAddSegment "a" s0 = s0
  /\ loopSegments (handleAddSegment "a" (setDraftEnd (Some (Fin (3 # 2))) s0))
     = [{| id := "a"; label := "Loop 1"; start := Fin 1; end_ := Fin (3 # 2) |}].
Proof. split; reflexivity. Qed.

Lemma truthy_None : truthy None = false.
Proof. reflexivity. Qed.

(** C8.  When the extractor finds no identifier in the input text,
    [handleSubmit] sets the validation error and leaves the video
    identifier, the input text, the segment list, the selection, the
    draft and the playback state as they were. *)
Theorem handleSubmit_failure_atomic :
  forall (URL_parse : string -> Completion URL) (JSON_parse : string -> Completion json)
         (ids : nat -> string) (s : LooperState),
    extractYouTubeId URL_parse (inputValue s) = None ->
    inputError (handleSubmit URL_parse JSON_parse ids s) = Some INPUT_ERROR
    /\ same_video_and_playback s (handleSubmit URL_parse JSON_parse ids s)
    /\ loopSegments (handleSubmit URL_parse JSON_parse ids s) = loopSegments s
    /\ selectedSegmentId (handleSubmit URL_parse JSON_parse ids s) = selectedSegmentId s
    /\ same_draft s (handleSubmit URL_parse JSON_parse ids s).
Proof.
  intros URL_parse JSON_parse ids s Hnone.
  unfold handleSubmit. rewrite Hnone, truthy_None. cbn [negb].
  unfold same_video_and_playback, same_draft.
  repeat match goal with |- _ /\ _ => split end; reflexivity.
Qed.

Lemma handleSubmit_failure_atomic_witness :
  inputError (handleSubmit Host.URL_parse Host.JSON_parse Host.generateSegmentId
                (sample_state "not a video"))
  = Some INPUT_ERROR
  /\ same_video_and_playback (sample_state "not a video")
       (handleSubmit Host.URL_parse Host.JSON_parse Host.generateSegmentId
          (sample_state "not a video"))
  /\ loopSegments (handleSubmit Host.URL_parse Host.JSON_parse Host.generateSegmentId
                     (sample_state "not a video"))
     = loopSegments (sample_state "not a video")
  /\ selectedSegmentId (handleSubmit Host.URL_parse Host.JSON_parse Host.generateSegmentId
                          (sample_state "not a video"))
     = selectedSegmentId (sample_state "not a video")
  /\ same_draft (sample_state "not a video")
       (handleSubmit Host.URL_parse Host.JSON_parse Host.generateSegmentId
          (sample_state "not a video")).
Proof.
  apply (handleSubmit_failure_atomic Host.URL_parse Host.JSON_parse Host.generateSegmentId
           (sample_state "not a video")).
  vm_compute. reflexivity.
Defined.

(** On success the same handler replaces the identifier and the list. *)
Example handleSubmit_success :
  let s' := handleSubmit Host.URL_parse Host.JSON_parse Host.generateSegmentId
              (sample_state "https://youtu.be/aaaaaaaaaaa") in
  videoId s' = Some "aaaaaaaaaaa" /\ loopSegments s' = [] /\ selectedSegmentId s' = None
  /\ inputError s' = None /\ draft_is_clear s' /\ isInputDirty s' = false.
Proof. vm_compute. repeat split. Qed.

(** C10.  [handleRemoveSegment] and [handleClearSegments] change the
    segment list and the selection only: the video identifier, the
    input text, the dirty flag, the draft, the playback state and the
    validation error are kept.  Removing a segment other than the
    selected one keeps the selection; removing the selected one clears
    it. *)
Theorem removal_changes_list_and_selection_only :
  forall (id' : string) (s : LooperState),
    (same_video_and_playback s (handleRemoveSegment id' s)
     /\ same_draft s (handleRemoveSegment id' s)
     /\ inputError (handleRemoveSegment id' s) = inputError s
     /\ loopSegments (handleRemoveSegment id' s)
        = filter (fun segment => negb (String.eqb (id segment) id')) (loopSegments s)
     /\ (selectedSegmentId s <> Some id' ->
         selectedSegmentId (handleRemoveSegment id' s) = selectedSegmentId s)
     /\ (selectedSegmentId s = Some id' ->
         selectedSegmentId (handleRemoveSegment id' s) = None))
    /\ (same_video_and_playback s (handleClearSegments s)
        /\ same_draft s (handleClearSegments s)
        /\ inputError (handleClearSegments s) = inputError s
        /\ loopSegments (handleClearSegments s) = []
        /\ selectedSegmentId (handleClearSegments s) = None).
Proof.
  intros id' s. unfold same_video_and_playback, same_draft.
  repeat match goal with |- _ /\ _ => split end; try reflexivity.
  - intros Hsel. unfold handleRemoveSegment. cbn [selectedSegmentId setSelectedSegmentId].
    destruct (selectedSegmentId s) as [current |]; [| reflexivity].
    destruct (String.eqb current id') eqn:E; [| reflexivity].
    apply String.eqb_eq in E. subst. congruence.
  - intros Hsel. unfold handleRemoveSegment. cbn [selectedSegmentId setSelectedSegmentId].
    rewrite Hsel, String.eqb_refl. reflexivity.
Qed.

(** The effect that follows a removal is a transition of its own: it
    rewrites the input text from the new list when the text is clean. *)
Example syncInputValue_after_removal :
  let s := setIsInputDirty false (sample_state "https://youtu.be/dQw4w9WgXcQ") in
  inputValue (handleRemoveSegment "a" s) = inputValue s
  /\ inputValue (syncInputValue Host.JSON_stringify Host.URLSearchParams_toString
                   (handleClearSegments s))
     = "https://www.youtube.com/watch?v=dQw4w9WgXcQ".
Proof. split; reflexivity. Qed.

(** ** Trimming *)

Lemma trimEnd_idempotent (s : string) : Str.trimEnd (Str.trimEnd s) = Str.trimEnd s.
Proof.
  unfold Str.trimEnd. induction s as [| c r IH]; simpl; [reflexivity |].
  destruct (Str.is_white_space c && Str.is_empty (Str.dropWhileEnd Str.is_white_space r)) eqn:E;
    simpl.
  - reflexivity.
  - rewrite IH, E. reflexivity.
Qed.

Lemma trimStart_starts_clean (s : string) : starts_clean (Str.trimStart s).
Proof.
  unfold Str.trimStart. induction s as [| c r IH]; simpl; [exact I |].
  destruct (Str.is_white_space c) eqn:E; [exact IH | exact E].
Qed.

Lemma trimEnd_starts_clean (s : string) : starts_clean s -> starts_clean (Str.trimEnd s).
Proof.
  unfold Str.trimEnd. destruct s as [| c r]; simpl; [trivial |].
  intros H. rewrite H. simpl. exact H.
Qed.

Lemma trimStart_clean (s : string) : starts_clean s -> Str.trimStart s = s.
Proof.
  unfold Str.trimStart. destruct s as [| c r]; simpl; [trivial |].
  intros H. rewrite H. reflexivity.
Qed.

Lemma trim_idempotent (s : string) : Str.trim (Str.trim s) = Str.trim s.
Proof.
  unfold Str.trim.
  rewrite (trimStart_clean (Str.trimEnd (Str.trimStart s))).
  - apply trimEnd_idempotent.
  - apply trimEnd_starts_clean, trimStart_starts_clean.
Qed.

(** ** The identifier extractor (C2) *)

Lemma pattern_not_empty (s : string) : YOUTUBE_ID_PATTERN s = true -> Str.is_empty s = false.
Proof. destruct s; [discriminate | reflexivity]. Qed.

Lemma normalizeYouTubeId_Some (value : option string) (id' : string) :
  normalizeYouTubeId value = Some id' ->
  exists candidate, value = Some candidate /\ id' = Str.trim candidate
                    /\ YOUTUBE_ID_PATTERN id' = true.
Proof.
  unfold normalizeYouTubeId. destruct value as [v |]; [| discriminate].
  destruct (Str.is_empty v); [discriminate |].
  destruct (YOUTUBE_ID_PATTERN (Str.trim v)) eqn:E; [| discriminate].
  intros H. inversion H; subst. exists v. auto.
Qed.

Lemma normalizeYouTubeId_None (candidate : string) :
  YOUTUBE_ID_PATTERN (Str.trim candidate) = false ->
  normalizeYouTubeId (Some candidate) = None.
Proof.
  intros H. unfold normalizeYouTubeId. rewrite H.
  destruct (Str.is_empty candidate); reflexivity.
Qed.

Lemma truthy_normalizeYouTubeId (value : option string) :
  truthy (normalizeYouTubeId value) = true <-> normalizeYouTubeId value <> None.
Proof.
  destruct (normalizeYouTubeId value) as [id' |] eqn:E; simpl.
  - apply normalizeYouTubeId_Some in E. destruct E as [c [_ [_ Hp]]].
    rewrite (pattern_not_empty _ Hp). simpl. split; [discriminate | reflexivity].
  - split; [discriminate | congruence].
Qed.

Lemma first_valid_Some (candidates : list string) (id' : string) :
  first_valid candidates = Some id' ->
  YOUTUBE_ID_PATTERN id' = true
  /\ exists candidate, In candidate candidates /\ id' = Str.trim candidate.
Proof.
  induction candidates as [| c t IH]; simpl; [discriminate |].
  destruct (normalizeYouTubeId (Some c)) as [x |] eqn:E.
  - intros H. inversion H; subst.
    apply normalizeYouTubeId_Some in E. destruct E as [c' [Hc [Ht Hp]]].
    inversion Hc; subst. split; [exact Hp |]. exists c'. auto.
  - intros H. destruct (IH H) as [Hp [c' [Hin Ht]]].
    split; [exact Hp |]. exists c'. auto.
Qed.

Lemma first_valid_None (candidates : list string) :
  (forall candidate, In candidate candidates ->
                     YOUTUBE_ID_PATTERN (Str.trim candidate) = false) ->
  first_valid candidates = None.
Proof.
  induction candidates as [| c t IH]; simpl; [reflexivity |].
  intros H. rewrite normalizeYouTubeId_None by (apply H; auto).
  apply IH. intros c' Hin. apply H. auto.
Qed.

Lemma normalize_first_valid (o : option string) :
  normalizeYouTubeId o = first_valid (match o with Some c => [c] | None => [] end).
Proof.
  destruct o as [c |]; simpl; [| reflexivity].
  destruct (normalizeYouTubeId (Some c)); reflexivity.
Qed.

Lemma first_valid_app (l1 l2 : list string) :
  first_valid (l1 ++ l2)
  = match first_valid l1 with
    | Some id' => Some id'
    | None => first_valid l2
    end.
Proof.
  induction l1 as [| c t IH]; simpl; [destruct (first_valid l2); reflexivity |].
  destruct (normalizeYouTubeId (Some c)); [reflexivity | exact IH].
Qed.

Section ExtractorFacts.

Variable URL_parse : string -> Completion URL.

(** What the extractor returns once the input is known not to be a
    bare identifier. *)
Lemma extractYouTubeId_of_url (input : string) :
  YOUTUBE_ID_PATTERN (Str.trim input) = false ->
  extractYouTubeId URL_parse input
  = if Str.is_empty (Str.trim input) then None
    else match URL_parse (Str.trim input) with
         | Normal url => first_valid (url_candidates url)
         | Throw _ => None
         end.
Proof.
  intros Hbare. unfold extractYouTubeId.
  destruct (Str.is_empty (Str.trim input)) eqn:Hempty; [reflexivity |].
  assert (Hdirect : normalizeYouTubeId (Some (Str.trim input)) = None).
  { apply normalizeYouTubeId_None. rewrite trim_idempotent. exact Hbare. }
  rewrite Hdirect. cbn [truthy].
  destruct (URL_parse (Str.trim input)) as [url | e]; [| reflexivity].
  cbn [bind try_catch]. unfold url_candidates.
  set (host := Str.replace_prefix "www." (hostname url)).
  destruct (String.eqb host "youtu.be") eqn:Hbe.
  - cbn [try_catch]. apply normalize_first_valid.
  - destruct (String.eqb host "youtube.com" || String.eqb host "m.youtube.com") eqn:Hyt.
    + assert (Hnc : String.eqb host "youtube-nocookie.com" = false).
      { apply orb_true_iff in Hyt. destruct Hyt as [H | H];
          apply String.eqb_eq in H; rewrite H; reflexivity. }
      rewrite first_valid_app, <- normalize_first_valid.
      destruct (normalizeYouTubeId (searchParams_get "v" (searchParams url))) as [q |] eqn:Hq.
      * assert (Ht : truthy (Some q) = true)
          by (rewrite <- Hq; apply truthy_normalizeYouTubeId; congruence).
        rewrite Ht. reflexivity.
      * cbn [truthy].
        destruct (after_embed (path_segments url)) as [candidate |]; cbn [option_map try_catch].
        -- apply normalize_first_valid.
        -- rewrite Hnc. reflexivity.
    + destruct (String.eqb host "youtube-nocookie.com").
      * destruct (after_embed (path_segments url)) as [candidate |]; cbn [try_catch].
        -- apply normalize_first_valid.
        -- reflexivity.
      * reflexivity.
Qed.

(** Whatever the extractor returns is an identifier. *)
Lemma extractYouTubeId_sound (input id' : string) :
  extractYouTubeId URL_parse input = Some id' -> YOUTUBE_ID_PATTERN id' = true.
Proof.
  destruct (YOUTUBE_ID_PATTERN (Str.trim input)) eqn:Hbare.
  - unfold extractYouTubeId.
    rewrite (pattern_not_empty _ Hbare).
    unfold normalizeYouTubeId. rewrite (pattern_not_empty _ Hbare), trim_idempotent, Hbare.
    cbn [truthy]. rewrite (pattern_not_empty _ Hbare). cbn [negb].
    intros H. inversion H; subst. exact Hbare.
  - rewrite (extractYouTubeId_of_url _ Hbare).
    destruct (Str.is_empty (Str.trim input)); [discriminate |].
    destruct (URL_parse (Str.trim input)) as [url | e]; [| discriminate].
    intros H. apply first_valid_Some in H. tauto.
Qed.

(** C2.  For an input that is not itself a bare identifier, what
    [extractYouTubeId] returns is a candidate read off the parsed URL
    under the host rules, trimmed, and it matches the pattern of 11
    characters of [[A-Za-z0-9_-]]; when no candidate of the URL passes
    that check, or the input is not a URL, the function returns
    nothing. *)
Theorem extractYouTubeId_closing_validation :
  forall input : string,
    YOUTUBE_ID_PATTERN (Str.trim input) = false ->
    (forall id', extractYouTubeId URL_parse input = Some id' ->
       YOUTUBE_ID_PATTERN id' = true
       /\ exists url candidate,
            URL_parse (Str.trim input) = Normal url
            /\ In candidate (url_candidates url) /\ id' = Str.trim candidate)
    /\ (forall url, URL_parse (Str.trim input) = Normal url ->
          (forall candidate, In candidate (url_candidates url) ->
                             YOUTUBE_ID_PATTERN (Str.trim candidate) = false) ->
          extractYouTubeId URL_parse input = None)
    /\ (forall e, URL_parse (Str.trim input) = Throw e ->
          extractYouTubeId URL_parse input = None).
Proof.
  intros input Hbare. rewrite (extractYouTubeId_of_url _ Hbare).
  destruct (Str.is_empty (Str.trim input)).
  - repeat split; try discriminate.
  - split; [| split].
    + intros id' H. destruct (URL_parse (Str.trim input)) as [url | e]; [| discriminate].
      apply first_valid_Some in H. destruct H as [Hp [c [Hin Ht]]].
      split; [exact Hp |]. exists url, c. auto.
    + intros url Hurl Hall. rewrite Hurl. apply first_valid_None. exact Hall.
    + intros e He. rewrite He. reflexivity.
Qed.

End ExtractorFacts.

Lemma extractYouTubeId_closing_validation_witness :
  (forall id', extractYouTubeId Host.URL_parse "https://youtu.be/dQw4w9WgXcQ" = Some id' ->
     YOUTUBE_ID_PATTERN id' = true
     /\ exists url candidate,
          Host.URL_parse (Str.trim "https://youtu.be/dQw4w9WgXcQ") = Normal url
          /\ In candidate (url_candidates url) /\ id' = Str.trim candidate)
  /\ (forall url, Host.URL_parse (Str.trim "https://youtu.be/dQw4w9WgXcQ") = Normal url ->
        (forall candidate, In candidate (url_candidates url) ->
                           YOUTUBE_ID_PATTERN (Str.trim candidate) = false) ->
        extractYouTubeId Host.URL_parse "https://youtu.be/dQw4w9WgXcQ" = None)
  /\ (forall e, Host.URL_parse (Str.trim "https://youtu.be/dQw4w9WgXcQ") = Throw e ->
        extractYouTubeId Host.URL_parse "https://youtu.be/dQw4w9WgXcQ" = None).
Proof.
  apply (extractYouTubeId_closing_validation Host.URL_parse "https://youtu.be/dQw4w9WgXcQ").
  vm_compute. reflexivity.
Defined.

(** The extractor on the supported shapes, and on what it refuses. *)
Example extractYouTubeId_examples :
  let extract := extractYouTubeId Host.URL_parse in
  extract "https://youtu.be/dQw4w9WgXcQ" = Some "dQw4w9WgXcQ"
  /\ extract "  dQw4w9WgXcQ " = Some "dQw4w9WgXcQ"
  /\ extract "https://www.youtube.com/watch?v=dQw4w9WgXcQ" = Some "dQw4w9WgXcQ"
  /\ extract "https://m.youtube.com/embed/dQw4w9WgXcQ" = Some "dQw4w9WgXcQ"
  /\ extract "https://www.youtube-nocookie.com/embed/dQw4w9WgXcQ" = Some "dQw4w9WgXcQ"
  /\ extract "https://www.youtube.com/watch?v=dQw4w9WgXcQ%20" = Some "dQw4w9WgXcQ"
  /\ extract "https://www.youtube.com/embed/dQw4w9WgXcQ?v=short" = Some "dQw4w9WgXcQ"
  /\ extract "https://youtu.be/short" = None
  /\ extract "https://example.com/watch?v=dQw4w9WgXcQ" = None
  /\ extract "youtube.com/watch?v=dQw4w9WgXcQ" = None.
Proof. vm_compute. repeat split. Qed.

(** The earlier revision handed back what it found, checked or not. *)
Example revision1_returns_unchecked_candidate :
  Revision1.extractYouTubeId Host.URL_parse "https://youtu.be/short" = Some "short"
  /\ extractYouTubeId Host.URL_parse "https://youtu.be/short" = None.
Proof. vm_compute. split; reflexivity. Qed.

(** ** Decoding never throws (C6) *)

Section DecodeTotal.

Variable JSON_parse : string -> Completion json.
Variable ids : nat -> string.


End DecodeTotal.

(** Garbage in, nothing out. *)
Example parseSegmentsParam_garbage :
  let decode := parseSegmentsParam Host.JSON_parse Host.generateSegmentId in
  decode (Some "not json") = []
  /\ decode (Some "{") = []
  /\ decode (Some "{}") = []
  /\ decode (Some "42") = []
  /\ decode (Some "null") = []
  /\ decode (Some "[1, null, true]") = []
  /\ Host.JSON_parse "not json" = Throw Host.SYNTAX_ERROR
  /\ Host.JSON_parse "{}" = Normal (JObject []).
Proof. vm_compute. repeat split. Qed.

(** ** The timestamp parser without a colon (C4) *)

(** Without a colon the text goes through [Number] and is clamped at
    zero; nothing rounds it. *)
Lemma parseTimestampInput_plain (value : string) :
  Str.is_empty (Str.trim value) = false ->
  Str.includes ":" (Str.trim value) = false ->
  parseTimestampInput value
  = if Number_isNaN (StringToNumber (Str.trim value)) then None
    else Some (Math_max (Fin 0) (StringToNumber (Str.trim value))).
Proof.
  intros He Hc. unfold parseTimestampInput. rewrite He, Hc. reflexivity.
Qed.

(** C4, on the code.  The text [1.234] has no colon and parses to
    1.234, which is not a multiple of 0.01: the branch clamps but does
    not round, while the same value behind a colon is rounded. *)
Theorem parseTimestampInput_plain_keeps_third_decimal :
  parseTimestampInput "1.234" = Some (Fin (1234 # 1000))
  /\ round2 (Fin (1234 # 1000)) = Fin (123 # 100)
  /\ ~ num_eq (Fin (1234 # 1000)) (round2 (Fin (1234 # 1000)))
  /\ parseTimestampInput "0:1.234" = Some (Fin (123 # 100)).
Proof.
  repeat split; try (vm_compute; reflexivity).
  vm_compute. discriminate.
Qed.

(** ** Printing does not depend on how a rational is written *)

Lemma frac_digits_scale (fuel : nat) (k r den : Z) :
  (0 < k)%Z -> (den <> 0)%Z ->
  frac_digits fuel (k * r) (k * den) = frac_digits fuel r den.
Proof.
  intros Hk Hden. revert r. induction fuel as [| f IH]; intros r; simpl; [reflexivity |].
  assert (E0 : ((k * r =? 0) = (r =? 0))%Z).
  { destruct (Z.eqb_spec r 0) as [-> | Hr].
    - rewrite Z.mul_0_r. reflexivity.
    - apply Z.eqb_neq. nia. }
  rewrite E0. destruct (r =? 0)%Z; [reflexivity |].
  replace (k * r * 10)%Z with (k * (r * 10))%Z by ring.
  rewrite Z.div_mul_cancel_l by lia.
  rewrite Z.mul_mod_distr_l by lia.
  rewrite IH. reflexivity.
Qed.

Lemma frac_digits_compat (fuel : nat) (x y : Q) (i : Z) :
  x == y ->
  frac_digits fuel (Qnum x - i * Zpos (Qden x)) (Zpos (Qden x))
  = frac_digits fuel (Qnum y - i * Zpos (Qden y)) (Zpos (Qden y)).
Proof.
  intros H. unfold Qeq in H.
  rewrite <- (frac_digits_scale fuel (Zpos (Qden y)) (Qnum x - i * Zpos (Qden x)) (Zpos (Qden x)))
    by lia.
  rewrite <- (frac_digits_scale fuel (Zpos (Qden x)) (Qnum y - i * Zpos (Qden y)) (Zpos (Qden y)))
    by lia.
  f_equal; nia.
Qed.

Lemma positive_toString_compat (x y : Q) :
  x == y -> positive_toString x = positive_toString y.
Proof.
  intros H. unfold positive_toString.
  rewrite (Qfloor_comp _ _ H).
  rewrite (frac_digits_compat 40 x y (Qfloor y) H). reflexivity.
Qed.

Lemma Number_toString_compat (a b : number) :
  num_eq a b -> Number_toString a = Number_toString b.
Proof.
  destruct a as [| | | x], b as [| | | y]; simpl; try contradiction; try reflexivity.
  intros H. unfold Qltb, Q_is_integer.
  assert (Habs : Qabs x == Qabs y) by (rewrite H; reflexivity).
  rewrite (Qleb_comp _ _ (Qeq_refl 0) _ _ H).
  rewrite (Qfloor_comp _ _ Habs).
  rewrite (Qeqb_comp _ _ (Qeq_refl (inject_Z (Qfloor (Qabs y)))) _ _ Habs).
  rewrite (Qleb_comp _ _ (Qeq_refl ten21) _ _ Habs).
  rewrite (positive_toString_compat _ _ Habs). reflexivity.
Qed.

Lemma toFixed2_compat (a b : number) : num_eq a b -> toFixed2 a = toFixed2 b.
Proof.
  intros H. pose proof (Number_toString_compat a b H) as Hs.
  destruct a as [| | | x], b as [| | | y]; simpl in H; try contradiction; try reflexivity.
  unfold toFixed2. rewrite Hs.
  assert (Habs : Qabs x == Qabs y) by (rewrite H; reflexivity).
  rewrite (Qleb_comp _ _ (Qeq_refl ten21) _ _ Habs).
  assert (Hn : Qfloor (Qabs x * inject_Z 100 + (1 # 2)) = Qfloor (Qabs y * inject_Z 100 + (1 # 2))).
  { apply Qfloor_comp. rewrite Habs. reflexivity. }
  rewrite Hn. unfold Qltb. rewrite (Qleb_comp _ _ (Qeq_refl 0) _ _ H). reflexivity.
Qed.

Lemma round2_compat (a b : number) : num_eq a b -> round2 a = round2 b.
Proof. intros H. unfold round2. rewrite (toFixed2_compat a b H). reflexivity. Qed.

Lemma num_eq_finite (a b : number) :
  num_eq a b -> Number_isFinite b = true -> Number_isFinite a = true.
Proof. destruct a, b; simpl; try contradiction; auto. Qed.

Lemma Math_max_zero (x : number) :
  num_le (Fin 0) x = true -> num_eq (Math_max (Fin 0) x) x.
Proof.
  destruct x as [| | | q]; simpl; try congruence; auto.
  intros H. unfold Math_max. simpl. destruct (Qltb 0 q) eqn:E; simpl.
  - reflexivity.
  - apply Qltb_ge in E. apply Qle_bool_iff in H. lra.
Qed.

Lemma Math_min_le (a b : number) : num_le a b = true -> num_eq (Math_min a b) a.
Proof.
  destruct a as [| | | x], b as [| | | y]; simpl; try congruence; auto.
  all: try (intros _; apply num_eq_refl).
  intros H. unfold Math_min. simpl. destruct (Qltb y x) eqn:E; simpl.
  - apply Qltb_lt in E. apply Qle_bool_iff in H. lra.
  - reflexivity.
Qed.

Lemma Math_max_le (a b : number) : num_le a b = true -> num_eq (Math_max a b) b.
Proof.
  destruct a as [| | | x], b as [| | | y]; simpl; try congruence; auto.
  all: try (intros _; apply num_eq_refl).
  intros H. unfold Math_max. simpl. destruct (Qltb x y) eqn:E; simpl.
  - reflexivity.
  - apply Qltb_ge in E. apply Qle_bool_iff in H. lra.
Qed.

(** ** The segment codec (C1) *)

Lemma json_equiv_array (v : json) (ys : list json) :
  json_equiv v (JArray ys) -> exists xs, v = JArray xs /\ Forall2 json_equiv xs ys.
Proof.
  destruct v as [| | | | xs |]; simpl; try contradiction.
  intros H. exists xs. split; [reflexivity |].
  revert ys H. induction xs as [| x xs' IH]; intros [| y ys'] H; try contradiction.
  - constructor.
  - destruct H as [Hx Hrest]. constructor; [exact Hx | apply IH; exact Hrest].
Qed.

Lemma same_triples_ascending (l l' : list LoopSegment) :
  same_triples l l' -> ascending l' -> ascending l.
Proof.
  unfold same_triples, ascending. intros H. induction H as [| a b l l' Hab Hl IH].
  - intros _. constructor.
  - intros Hs. inversion Hs as [| ? ? Hs' Hhd]; subst.
    constructor; [apply IH; exact Hs' |].
    destruct Hl as [| a2 b2 l2 l2' Hab2 _]; constructor.
    inversion Hhd; subst.
    destruct Hab as [_ [Ha _]]. destruct Hab2 as [_ [Ha2 _]].
    rewrite (num_le_compat _ _ _ _ Ha Ha2). assumption.
Qed.

Section CodecRoundTrip.

Variable JSON_parse : string -> Completion json.
Variable JSON_stringify : json -> Completion string.
Variable ids : nat -> string.

Lemma sanitizeTimestamp_rounded (a x : number) :
  num_eq a (round2 x) -> num_eq (round2 x) x ->
  Number_isFinite x = true -> num_le (Fin 0) x = true ->
  exists y, sanitizeTimestamp (Some (JNumber a)) = Some y /\ num_eq y x.
Proof.
  intros Ha Hx Hfin Hpos. unfold sanitizeTimestamp.
  rewrite (num_eq_finite a (round2 x) Ha (num_eq_finite _ _ Hx Hfin)). cbn [negb].
  rewrite (round2_compat a (round2 x) Ha), (round2_compat (round2 x) x Hx).
  eexists. split; [reflexivity |].
  eapply num_eq_trans; [apply Math_max_zero | exact Hx].
  rewrite (num_le_compat (Fin 0) (Fin 0) (round2 x) x (num_eq_refl _) Hx). exact Hpos.
Qed.

Lemma segment_of_entry_round_trip (fresh : string) (index : nat) (entry : json)
    (segment : LoopSegment) :
  sanitized segment -> well_ordered segment ->
  json_equiv entry
    (JObject [("label", JString (label segment));
              ("start", JNumber (round2 (start segment)));
              ("end", JNumber (round2 (end_ segment)))]) ->
  exists decoded,
    segment_of_entry fresh entry index = Some decoded /\ same_triple decoded segment.
Proof.
  intros [Htrim [Hne [Hpos [Hfs [Hfe [Hrs Hre]]]]]] Hord Heq.
  destruct entry as [| | | | | members]; simpl in Heq; try contradiction.
  destruct members as [| [k1 v1] [| [k2 v2] [| [k3 v3] [| [k4 v4] rest]]]];
    simpl in Heq; try tauto.
  destruct Heq as [-> [H1 [-> [H2 [-> [H3 _]]]]]].
  destruct v1; simpl in H1; try contradiction. subst s.
  destruct v2 as [| | a | | |]; simpl in H2; try contradiction.
  destruct v3 as [| | b | | |]; simpl in H3; try contradiction.
  assert (Hpos_e : num_le (Fin 0) (end_ segment) = true)
    by (eapply num_le_trans; eassumption).
  destruct (sanitizeTimestamp_rounded a (start segment) H2 Hrs Hfs Hpos) as [sa [Esa Hsa]].
  destruct (sanitizeTimestamp_rounded b (end_ segment) H3 Hre Hfe Hpos_e) as [sb [Esb Hsb]].
  unfold segment_of_entry. cbn [get_property get_member String.eqb Ascii.eqb Bool.eqb].
  rewrite Esa, Esb. eexists. split; [reflexivity |].
  assert (Hle : num_le sa sb = true)
    by (rewrite (num_le_compat _ _ _ _ Hsa Hsb); exact Hord).
  unfold same_triple. cbn [label start end_]. split; [| split].
  - rewrite Htrim. unfold or_else. rewrite Hne. reflexivity.
  - eapply num_eq_trans; [apply Math_min_le; exact Hle | exact Hsa].
  - eapply num_eq_trans; [apply Math_max_le; exact Hle | exact Hsb].
Qed.

Lemma map_entries_round_trip (L : list LoopSegment) :
  Forall sanitized L -> Forall well_ordered L ->
  forall (entries : list json) (index next : nat),
    Forall2 json_equiv entries
      (map (fun segment =>
              JObject [("label", JString (label segment));
                       ("start", JNumber (round2 (start segment)));
                       ("end", JNumber (round2 (end_ segment)))]) L) ->
    same_triples (filter_not_null (map_entries ids entries index next)) L.
Proof.
  unfold same_triples.
  induction L as [| segment L' IH]; intros Hsan Hord entries index next Heq;
    inversion Heq; subst; simpl.
  - constructor.
  - inversion Hsan; subst. inversion Hord; subst.
    match goal with
    | H : json_equiv ?x _ |- _ =>
        destruct (segment_of_entry_round_trip (ids next) index x segment) as [d [Ed Hd]];
        try assumption
    end.
    rewrite Ed. simpl. constructor; [exact Hd |]. apply IH; assumption.
Qed.

(** C1, as the code has it.  For a list of sanitized segments with
    [start <= end], ascending by start, decoding the encoding gives
    the same triples in the same order, provided that [JSON.parse]
    reads back what [JSON.stringify] wrote for the payload. *)
Theorem segment_codec_round_trip :
  forall L : list LoopSegment,
    Forall sanitized L -> Forall well_ordered L -> ascending L ->
    JSON_round_trips JSON_parse JSON_stringify (payload L) ->
    same_triples (parseSegmentsParam JSON_parse ids (serializeSegments JSON_stringify L)) L.
Proof.
  intros L Hsan Hord Hasc [text [v' [Hs [Hne [Hp Heq]]]]].
  destruct L as [| s0 L'].
  - constructor.
  - unfold serializeSegments. cbn [List.length Nat.eqb]. rewrite Hs. cbn [bind try_catch].
    unfold parseSegmentsParam. rewrite Hne. unfold parseSegmentsParam_try. rewrite Hp.
    cbn [bind]. unfold payload in Heq.
    destruct (json_equiv_array _ _ Heq) as [entries [-> Hent]]. cbn [try_catch].
    pose proof (map_entries_round_trip (s0 :: L') Hsan Hord entries 0 0 Hent) as Hsame.
    rewrite sort_ascending_id; [exact Hsame |].
    eapply same_triples_ascending; eassumption.
Qed.

End CodecRoundTrip.

Lemma segment_codec_round_trip_witness :
  same_triples
    (parseSegmentsParam Host.JSON_parse Host.generateSegmentId
       (serializeSegments Host.JSON_stringify
          [sample_segment "a" "Intro" 1 (5 # 2); sample_segment "b" "Solo" 10 (25 # 2)]))
    [sample_segment "a" "Intro" 1 (5 # 2); sample_segment "b" "Solo" 10 (25 # 2)].
Proof.
  apply (segment_codec_round_trip Host.JSON_parse Host.JSON_stringify Host.generateSegmentId).
  - repeat constructor; vm_compute; reflexivity.
  - repeat constructor.
  - repeat constructor.
  - eexists. eexists. split; [reflexivity |]. split; [reflexivity |].
    split; [vm_compute; reflexivity |]. vm_compute. repeat split; reflexivity.
Defined.

(** C1, as the specification words it, fails: a label with
    surrounding white space is trimmed, a blank label is replaced, a
    bound with a third decimal is rounded, a negative bound is clamped
    and an infinite bound comes back as zero, although each of these
    lists has [start <= end] and ascends by start. *)
Lemma segment_codec_round_trip_counterexample :
  round_trip_fails [{| id := "a"; label := " A"; start := Fin 0; end_ := Fin 1 |}]
  /\ round_trip_fails [{| id := "a"; label := EmptyString; start := Fin 0; end_ := Fin 1 |}]
  /\ round_trip_fails [{| id := "a"; label := "A"; start := Fin (1234 # 1000);
                          end_ := Fin (inject_Z 2) |}]
  /\ round_trip_fails [{| id := "a"; label := "A"; start := Fin (- (1)); end_ := Fin 1 |}]
  /\ round_trip_fails [{| id := "a"; label := "A"; start := Fin 0; end_ := PosInf |}].
Proof.
  repeat match goal with |- _ /\ _ => split end; refute_round_trip.
Qed.

(** What the decoder does with the encodings of those lists, and the
    example of the specification: a pair given in the wrong order comes
    back swapped. *)
Example segment_codec_examples :
  let decode := parseSegmentsParam Host.JSON_parse Host.generateSegmentId in
  let encode := serializeSegments Host.JSON_stringify in
  map label (decode (encode [{| id := "a"; label := " A"; start := Fin 0; end_ := Fin 1 |}]))
  = ["A"]
  /\ map label (decode (encode [{| id := "a"; label := EmptyString; start := Fin 0;
                                   end_ := Fin 1 |}]))
     = ["Loop 1"]
  /\ map start (decode (encode [{| id := "a"; label := "A"; start := Fin (1234 # 1000);
                                   end_ := Fin (inject_Z 2) |}]))
     = [Fin (123 # 100)]
  /\ map end_ (decode (encode [{| id := "a"; label := "A"; start := Fin 0; end_ := PosInf |}]))
     = [Fin 0]
  /\ encode [] = None
  /\ map (fun s => (start s, end_ s))
         (decode (encode [{| id := "a"; label := "A"; start := Fin (inject_Z 5);
                             end_ := Fin (inject_Z 2) |}]))
     = [(Fin (200 # 100), Fin (500 # 100))].
Proof. vm_compute. repeat split. Qed.

(** ** Strings: scanning *)

Lemma append_empty_r (s : string) : (s ++ EmptyString)%string = s.
Proof. induction s as [| c r IH]; simpl; [reflexivity | rewrite IH; reflexivity]. Qed.

Lemma append_assoc (a b c : string) : ((a ++ b) ++ c)%string = (a ++ b ++ c)%string.
Proof. induction a as [| d r IH]; simpl; [reflexivity | rewrite IH; reflexivity]. Qed.

Lemma all_app (p : ascii -> bool) (a b : string) :
  Str.all p (a ++ b) = Str.all p a && Str.all p b.
Proof.
  induction a as [| c r IH]; simpl; [reflexivity |].
  rewrite IH. apply andb_assoc.
Qed.

Lemma all_impl (p q : ascii -> bool) (s : string) :
  (forall c, p c = true -> q c = true) -> Str.all p s = true -> Str.all q s = true.
Proof.
  intros Hpq. induction s as [| c r IH]; simpl; [reflexivity |].
  intros H. apply andb_true_iff in H. destruct H as [Hc Hr].
  rewrite (Hpq c Hc), (IH Hr). reflexivity.
Qed.

Lemma span_all (p : ascii -> bool) (s : string) :
  Str.all p s = true -> Str.span p s = (s, EmptyString).
Proof.
  induction s as [| c r IH]; simpl; [reflexivity |].
  intros H. apply andb_true_iff in H. destruct H as [Hc Hr].
  rewrite Hc, (IH Hr). reflexivity.
Qed.

Lemma span_app_stop (p : ascii -> bool) (a : string) (c : ascii) (b : string) :
  Str.all p a = true -> p c = false ->
  Str.span p (a ++ String c b) = (a, String c b).
Proof.
  intros Ha Hc. induction a as [| d r IH]; simpl.
  - rewrite Hc. reflexivity.
  - simpl in Ha. apply andb_true_iff in Ha. destruct Ha as [Hd Hr].
    rewrite Hd, (IH Hr). reflexivity.
Qed.

Lemma split_no_sep (sep : ascii) (a : string) :
  Str.all (fun c => negb (Ascii.eqb c sep)) a = true -> Str.split sep a = [a].
Proof.
  induction a as [| c r IH]; simpl; [reflexivity |].
  intros H. apply andb_true_iff in H. destruct H as [Hc Hr].
  apply negb_true_iff in Hc. rewrite Hc, (IH Hr). reflexivity.
Qed.

Lemma split_app_sep (sep : ascii) (a b : string) :
  Str.all (fun c => negb (Ascii.eqb c sep)) a = true ->
  Str.split sep (a ++ String sep b) = a :: Str.split sep b.
Proof.
  induction a as [| c r IH]; simpl.
  - intros _. rewrite Ascii.eqb_refl. reflexivity.
  - intros H. apply andb_true_iff in H. destruct H as [Hc Hr].
    apply negb_true_iff in Hc. rewrite Hc, (IH Hr). reflexivity.
Qed.

Lemma dropWhile_clean (p : ascii -> bool) (s : string) :
  Str.all (fun c => negb (p c)) s = true -> Str.dropWhile p s = s.
Proof.
  destruct s as [| c r]; simpl; [reflexivity |].
  intros H. apply andb_true_iff in H. destruct H as [Hc _].
  apply negb_true_iff in Hc. rewrite Hc. reflexivity.
Qed.

Lemma dropWhileEnd_clean (p : ascii -> bool) (s : string) :
  Str.all (fun c => negb (p c)) s = true -> Str.dropWhileEnd p s = s.
Proof.
  induction s as [| c r IH]; simpl; [reflexivity |].
  intros H. apply andb_true_iff in H. destruct H as [Hc Hr].
  apply negb_true_iff in Hc. rewrite Hc, (IH Hr). reflexivity.
Qed.

Lemma remove_chars_clean (p : ascii -> bool) (s : string) :
  Str.all (fun c => negb (p c)) s = true -> Host.remove_chars p s = s.
Proof.
  induction s as [| c r IH]; simpl; [reflexivity |].
  intros H. apply andb_true_iff in H. destruct H as [Hc Hr].
  apply negb_true_iff in Hc. rewrite Hc, (IH Hr). reflexivity.
Qed.

Lemma trim_clean (s : string) :
  Str.all (fun c => negb (Str.is_white_space c)) s = true -> Str.trim s = s.
Proof.
  intros H. unfold Str.trim, Str.trimStart, Str.trimEnd.
  rewrite (dropWhile_clean Str.is_white_space s H).
  apply dropWhileEnd_clean. exact H.
Qed.

(** ** The link builder against the extractor (C9) *)

Lemma plain_not_c0 (c : ascii) : plain c = true -> negb (Host.is_c0_or_space c) = true.
Proof. each_char c. Qed.

Lemma plain_not_tab (c : ascii) : plain c = true -> negb (Host.is_tab_or_newline c) = true.
Proof. each_char c. Qed.

Lemma plain_not_hash (c : ascii) : plain c = true -> negb (Ascii.eqb c "#") = true.
Proof. each_char c. Qed.

Lemma plain_not_white_space (c : ascii) :
  plain c = true -> negb (Str.is_white_space c) = true.
Proof. each_char c. Qed.

Lemma field_char_plain (c : ascii) : field_char c = true -> plain c = true.
Proof. each_char c. Qed.

Lemma field_char_not_amp (c : ascii) : field_char c = true -> negb (Ascii.eqb c "&") = true.
Proof. each_char c. Qed.

Lemma id_char_field (c : ascii) : is_id_char c = true -> field_char c = true.
Proof. each_char c. Qed.

Lemma id_char_literal (c : ascii) :
  is_id_char c = true ->
  Ascii.eqb c "%" = false /\ Ascii.eqb c "+" = false /\ (Str.code c <? 128)%N = true.
Proof. each_char c. Qed.

Lemma urlencode_char_id (c : ascii) :
  is_id_char c = true -> Host.urlencode_char c = String c EmptyString.
Proof. each_char c. Qed.

Lemma urlencode_char_field (c : ascii) : Str.all field_char (Host.urlencode_char c) = true.
Proof. each_char c. Qed.

Lemma urlencode_id (s : string) : Str.all is_id_char s = true -> Host.urlencode s = s.
Proof.
  induction s as [| c r IH]; simpl; [reflexivity |].
  intros H. apply andb_true_iff in H. destruct H as [Hc Hr].
  rewrite (urlencode_char_id c Hc), (IH Hr). reflexivity.
Qed.

Lemma urlencode_field (s : string) : Str.all field_char (Host.urlencode s) = true.
Proof.
  induction s as [| c r IH]; simpl; [reflexivity |].
  rewrite all_app, urlencode_char_field, IH. reflexivity.
Qed.

Lemma form_decode_id (s : string) : Str.all is_id_char s = true -> Host.form_decode s = s.
Proof.
  unfold Host.form_decode. induction s as [| c r IH]; simpl; [reflexivity |].
  intros H. apply andb_true_iff in H. destruct H as [Hc Hr].
  destruct (id_char_literal c Hc) as [Hpct [Hplus Hlow]].
  rewrite Hpct, Hplus. simpl. rewrite Hlow, (IH Hr). reflexivity.
Qed.

Lemma URL_parse_watch (q : string) :
  Str.all plain q = true ->
  Host.URL_parse (WATCH_PREFIX ++ q)
  = Normal {| hostname := "www.youtube.com"; pathname := "/watch";
              searchParams := Host.parse_query q |}.
Proof.
  intros Hq. unfold Host.URL_parse.
  rewrite (dropWhile_clean Host.is_c0_or_space)
    by (rewrite all_app; apply andb_true_iff; split;
        [reflexivity | apply (all_impl plain); [apply plain_not_c0 | exact Hq]]).
  rewrite (dropWhileEnd_clean Host.is_c0_or_space)
    by (rewrite all_app; apply andb_true_iff; split;
        [reflexivity | apply (all_impl plain); [apply plain_not_c0 | exact Hq]]).
  rewrite (remove_chars_clean Host.is_tab_or_newline)
    by (rewrite all_app; apply andb_true_iff; split;
        [reflexivity | apply (all_impl plain); [apply plain_not_tab | exact Hq]]).
  unfold WATCH_PREFIX. cbn -[Host.parse_query].
  rewrite span_all by (apply (all_impl plain); [apply plain_not_hash | exact Hq]).
  reflexivity.
Qed.

Lemma watch_query_plain (videoId : string) (serialized : option string) :
  Str.all is_id_char videoId = true -> Str.all plain (watch_query videoId serialized) = true.
Proof.
  intros Hid. unfold watch_query.
  assert (Hp : Str.all plain videoId = true).
  { apply (all_impl field_char); [apply field_char_plain |].
    apply (all_impl is_id_char); [apply id_char_field | exact Hid]. }
  change ("v=" ++ videoId ++ ?t)%string with (String "v" (String "=" (videoId ++ t))).
  cbn [Str.all]. rewrite all_app, Hp.
  destruct serialized as [text |]; [| reflexivity].
  destruct (Str.is_empty text); [reflexivity |].
  change ("&segments=" ++ Host.urlencode text)%string
    with (String "&" ("segments=" ++ Host.urlencode text)%string).
  cbn [Str.all]. rewrite all_app.
  rewrite (all_impl field_char plain _ field_char_plain (urlencode_field text)).
  reflexivity.
Qed.

Lemma watch_query_v (videoId : string) (serialized : option string) :
  Str.all is_id_char videoId = true ->
  searchParams_get "v" (Host.parse_query (watch_query videoId serialized)) = Some videoId.
Proof.
  intros Hid.
  assert (Hamp : Str.all (fun c => negb (Ascii.eqb c "&")) ("v=" ++ videoId) = true).
  { change ("v=" ++ videoId)%string with (String "v" (String "=" videoId)).
    cbn [Str.all]. change (negb (Ascii.eqb "v" "&") && (negb (Ascii.eqb "=" "&") && ?x)) with x.
    apply (all_impl field_char); [apply field_char_not_amp |].
    apply (all_impl is_id_char); [apply id_char_field | exact Hid]. }
  assert (Hpair : Host.parse_pair ("v=" ++ videoId) = ("v", videoId)).
  { unfold Host.parse_pair. change ("v=" ++ videoId)%string with ("v" ++ String "=" videoId)%string.
    rewrite span_app_stop by reflexivity.
    rewrite (form_decode_id videoId Hid). reflexivity. }
  assert (Hone : searchParams_get "v"
                   (map Host.parse_pair (filter_Boolean [("v=" ++ videoId)%string]))
                 = Some videoId).
  { cbn [filter_Boolean filter Str.is_empty append negb map]. 
    change (String "v" (String "=" videoId)) with ("v=" ++ videoId)%string.
    rewrite Hpair. reflexivity. }
  unfold watch_query, Host.parse_query.
  destruct serialized as [text |].
  - destruct (Str.is_empty text).
    + rewrite append_empty_r, (split_no_sep _ _ Hamp). exact Hone.
    + change ("v=" ++ videoId ++ "&segments=" ++ Host.urlencode text)%string
        with ("v=" ++ videoId ++ String "&" ("segments=" ++ Host.urlencode text))%string.
      rewrite <- (append_assoc "v=" videoId), (split_app_sep _ _ _ Hamp).
      cbn [filter_Boolean filter Str.is_empty append negb map].
      change (String "v" (String "=" videoId)) with ("v=" ++ videoId)%string.
      rewrite Hpair. reflexivity.
  - rewrite append_empty_r, (split_no_sep _ _ Hamp). exact Hone.
Qed.

Section LinkRoundTrip.

Variable JSON_stringify : json -> Completion string.

Lemma buildVideoLink_watch (videoId : string) (segments : list LoopSegment) :
  Str.all is_id_char videoId = true ->
  buildVideoLink JSON_stringify Host.URLSearchParams_toString videoId segments
  = (WATCH_PREFIX ++ watch_query videoId (serializeSegments JSON_stringify segments))%string.
Proof.
  intros Hid. unfold buildVideoLink, watch_query. fold WATCH_PREFIX. f_equal.
  destruct (serializeSegments JSON_stringify segments) as [text |]; cbn [truthy].
  - destruct (Str.is_empty text); cbn [negb].
    + unfold Host.URLSearchParams_toString. cbn. rewrite (urlencode_id _ Hid).
      rewrite append_empty_r. reflexivity.
    + unfold Host.URLSearchParams_toString. cbn. rewrite (urlencode_id _ Hid).
      reflexivity.
  - unfold Host.URLSearchParams_toString. cbn. rewrite (urlencode_id _ Hid).
    rewrite append_empty_r. reflexivity.
Qed.

(** C9.  The link built for an identifier and any list of segments is
    read back by the extractor as that identifier. *)
Theorem extractYouTubeId_buildVideoLink :
  forall (videoId : string) (segments : list LoopSegment),
    YOUTUBE_ID_PATTERN videoId = true ->
    extractYouTubeId Host.URL_parse
      (buildVideoLink JSON_stringify Host.URLSearchParams_toString videoId segments)
    = Some videoId.
Proof.
  intros videoId segments Hpat.
  assert (Hid : Str.all is_id_char videoId = true)
    by (unfold YOUTUBE_ID_PATTERN in Hpat; apply andb_true_iff in Hpat; tauto).
  rewrite (buildVideoLink_watch videoId segments Hid).
  pose proof (watch_query_v videoId (serializeSegments JSON_stringify segments) Hid) as Hv.
  pose proof (watch_query_plain videoId (serializeSegments JSON_stringify segments) Hid) as Hq.
  remember (watch_query videoId (serializeSegments JSON_stringify segments)) as q eqn:Eq.
  clear Eq.
  assert (Hclean : forall s, Str.all plain s = true ->
                             Str.all (fun c => negb (Str.is_white_space c)) s = true)
    by (intros s; apply all_impl; apply plain_not_white_space).
  assert (Htrim : Str.trim (WATCH_PREFIX ++ q) = (WATCH_PREFIX ++ q)%string).
  { apply trim_clean. apply Hclean. rewrite all_app, Hq. reflexivity. }
  rewrite extractYouTubeId_of_url; rewrite Htrim.
  - rewrite (URL_parse_watch q Hq). cbn [Str.is_empty WATCH_PREFIX append].
    unfold url_candidates. cbn -[searchParams_get Host.parse_query first_valid].
    rewrite Hv. cbn [app first_valid].
    unfold normalizeYouTubeId.
    rewrite (pattern_not_empty _ Hpat), (trim_clean videoId (Hclean _ (all_impl _ _ _ field_char_plain (all_impl _ _ _ id_char_field Hid)))).
    rewrite Hpat. reflexivity.
  - unfold YOUTUBE_ID_PATTERN, WATCH_PREFIX. cbn [append String.length Nat.eqb andb].
    reflexivity.
Qed.

End LinkRoundTrip.

Lemma extractYouTubeId_buildVideoLink_witness :
  extractYouTubeId Host.URL_parse
    (buildVideoLink Host.JSON_stringify Host.URLSearchParams_toString "dQw4w9WgXcQ"
       [sample_segment "a" "Intro" 1 (5 # 2); sample_segment "b" "Solo" 10 (25 # 2)])
  = Some "dQw4w9WgXcQ".
Proof.
  apply (extractYouTubeId_buildVideoLink Host.JSON_stringify "dQw4w9WgXcQ").
  vm_compute. reflexivity.
Defined.

(** The canonical link of the sample session, and what it carries. *)
Example buildVideoLink_example :
  let link := buildVideoLink Host.JSON_stringify Host.URLSearchParams_toString "dQw4w9WgXcQ"
                [sample_segment "a" "Intro" 1 (5 # 2)] in
  link = "https://www.youtube.com/watch?v=dQw4w9WgXcQ&segments=%5B%7B%22label%22%3A%22Intro%22%2C%22start%22%3A1%2C%22end%22%3A2.5%7D%5D"
  /\ map (fun s => (label s, start s, end_ s))
         (extractSegmentsFromInput Host.JSON_parse Host.URL_parse Host.generateSegmentId link)
     = [("Intro", Fin (100 # 100), Fin (250 # 100))].
Proof. vm_compute. split; reflexivity. Qed.

(** ** Decimal digits *)

Lemma digit_char_code (d : N) : (d < 10)%N -> Str.code (digit_char d) = (48 + d)%N.
Proof.
  intros H. unfold Str.code, digit_char. apply N_ascii_embedding. lia.
Qed.

Lemma digit_value_char (d : N) : (d < 10)%N -> digit_value (digit_char d) = d.
Proof. intros H. unfold digit_value. rewrite digit_char_code by exact H. lia. Qed.

Lemma is_digit_char (d : N) : (d < 10)%N -> Str.is_digit (digit_char d) = true.
Proof.
  intros H. unfold Str.is_digit, Str.in_range. rewrite digit_char_code by exact H.
  apply andb_true_iff. split; apply N.leb_le; lia.
Qed.

Lemma digits_value_acc_shift (s : string) (acc : N) :
  digits_value_acc s acc = (acc * 10 ^ N.of_nat (String.length s) + digits_value s)%N.
Proof.
  unfold digits_value. revert acc. induction s as [| c r IH]; intros acc.
  - simpl. lia.
  - cbn [digits_value_acc String.length]. rewrite (IH (acc * 10 + digit_value c)%N).
    rewrite (IH (0 * 10 + digit_value c)%N).
    rewrite Nat2N.inj_succ, N.pow_succ_r'. lia.
Qed.

Lemma digits_value_app (a b : string) :
  digits_value (a ++ b) = (digits_value a * 10 ^ N.of_nat (String.length b) + digits_value b)%N.
Proof.
  unfold digits_value at 1 2. generalize 0%N as acc.
  induction a as [| c r IH]; intros acc.
  - simpl. apply digits_value_acc_shift.
  - cbn [append digits_value_acc]. apply IH.
Qed.

Lemma digits_acc_value (fuel : nat) :
  forall (n : N) (acc : string),
    (n < 2 ^ N.of_nat fuel)%N ->
    digits_value (digits_acc fuel n acc)
    = (n * 10 ^ N.of_nat (String.length acc) + digits_value acc)%N.
Proof.
  induction fuel as [| f IH]; intros n acc Hn.
  - simpl in Hn. assert (n = 0%N) by lia. subst. simpl. lia.
  - cbn [digits_acc].
    assert (Hd : (n mod 10 < 10)%N) by (apply N.mod_lt; lia).
    assert (Hv : digits_value (String (digit_char (n mod 10)) acc)
                 = ((n mod 10) * 10 ^ N.of_nat (String.length acc) + digits_value acc)%N).
    { unfold digits_value at 1. cbn [digits_value_acc].
      rewrite digits_value_acc_shift, digit_value_char by exact Hd. lia. }
    pose proof (N.div_mod n 10 ltac:(lia)) as Hdm.
    destruct (N.eqb_spec (n / 10) 0) as [Hz | Hnz].
    + rewrite Hv. rewrite Hz in Hdm. replace (n mod 10)%N with n by lia. reflexivity.
    + rewrite IH.
      * rewrite Hv. cbn [String.length]. rewrite Nat2N.inj_succ, N.pow_succ_r'. nia.
      * rewrite Nat2N.inj_succ, N.pow_succ_r' in Hn.
        assert (n / 10 <= n / 2)%N by (apply N.div_le_compat_l; lia).
        assert (n / 2 < 2 ^ N.of_nat f)%N by (apply N.Div0.div_lt_upper_bound; lia).
        lia.
Qed.

Lemma N_digits_value (n : N) : digits_value (N_digits n) = n.
Proof.
  unfold N_digits. rewrite digits_acc_value.
  - simpl. unfold digits_value. simpl. lia.
  - rewrite Nat2N.inj_succ, N2Nat.id.
    destruct n as [| p]; [reflexivity |].
    apply N.log2_spec. lia.
Qed.

Lemma digits_acc_all_digits (fuel : nat) :
  forall (n : N) (acc : string),
    Str.all Str.is_digit acc = true -> Str.all Str.is_digit (digits_acc fuel n acc) = true.
Proof.
  induction fuel as [| f IH]; intros n acc Hacc; [exact Hacc |].
  cbn [digits_acc].
  assert (Hacc' : Str.all Str.is_digit (String (digit_char (n mod 10)) acc) = true).
  { cbn [Str.all]. rewrite is_digit_char by (apply N.mod_lt; lia). exact Hacc. }
  destruct (n / 10 =? 0)%N; [exact Hacc' | apply IH; exact Hacc'].
Qed.

Lemma digits_acc_not_empty (fuel : nat) :
  forall (n : N) (acc : string),
    Str.is_empty acc = false -> Str.is_empty (digits_acc fuel n acc) = false.
Proof.
  induction fuel as [| f IH]; intros n acc Hacc; [exact Hacc |].
  cbn [digits_acc]. destruct (n / 10 =? 0)%N; [reflexivity | apply IH; reflexivity].
Qed.

Lemma N_digits_all_digits (n : N) : Str.all Str.is_digit (N_digits n) = true.
Proof. apply digits_acc_all_digits. reflexivity. Qed.

Lemma N_digits_not_empty (n : N) : Str.is_empty (N_digits n) = false.
Proof.
  unfold N_digits. cbn [digits_acc].
  destruct (n / 10 =? 0)%N; [reflexivity | apply digits_acc_not_empty; reflexivity].
Qed.

Lemma padStart2_all_digits (s : string) :
  Str.all Str.is_digit s = true -> Str.all Str.is_digit (Str.padStart2 s) = true.
Proof.
  destruct s as [| c [| d r]]; simpl; auto.
Qed.

Lemma padStart2_not_empty (s : string) : Str.is_empty (Str.padStart2 s) = false.
Proof. destruct s as [| c [| d r]]; reflexivity. Qed.

Lemma padStart2_value (s : string) : digits_value (Str.padStart2 s) = digits_value s.
Proof.
  destruct s as [| c [| d r]]; try reflexivity.
Qed.

(** A number below 100 pads to exactly two digits. *)
Lemma padStart2_length_small (b : N) :
  (b < 100)%N -> String.length (Str.padStart2 (N_digits b)) = 2%nat.
Proof.
  intros Hb.
  assert (Hall : forallb (fun k => Nat.eqb (String.length (Str.padStart2 (N_digits (N.of_nat k)))) 2)
                         (seq 0 100) = true) by (vm_compute; reflexivity).
  rewrite forallb_forall in Hall.
  specialize (Hall (N.to_nat b)). rewrite N2Nat.id in Hall.
  apply Nat.eqb_eq. apply Hall. apply in_seq. lia.
Qed.

(** ** Reading digits back *)

Lemma digit_not_white_space (c : ascii) :
  Str.is_digit c = true -> negb (Str.is_white_space c) = true.
Proof. each_char c. Qed.

Lemma digit_not_colon (c : ascii) : Str.is_digit c = true -> negb (Ascii.eqb c ":") = true.
Proof. each_char c. Qed.

Lemma digit_not_radix_prefix (p : ascii) :
  Str.is_digit p = true \/ p = "."%char ->
  (Ascii.eqb p "x" || Ascii.eqb p "X") = false
  /\ (Ascii.eqb p "o" || Ascii.eqb p "O") = false
  /\ (Ascii.eqb p "b" || Ascii.eqb p "B") = false.
Proof.
  intros [H | ->]; [| repeat split; reflexivity].
  revert H. each_char p.
Qed.

Lemma opens_decimal_not_radix (s : string) :
  opens_decimal s -> NonDecimalIntegerLiteral s = None.
Proof.
  destruct s as [| c [| p r]]; simpl; [contradiction | |].
  - intros _. destruct c as [[] [] [] [] [] [] [] []]; reflexivity.
  - intros [_ Hp]. destruct (digit_not_radix_prefix p Hp) as [H1 [H2 H3]].
    destruct c as [[] [] [] [] [] [] [] []]; try reflexivity.
    rewrite H1, H2, H3. reflexivity.
Qed.

Lemma opens_decimal_unsigned (s : string) :
  opens_decimal s ->
  match s with
  | String "+" r => (false, r)
  | String "-" r => (true, r)
  | _ => (false, s)
  end = (false, s).
Proof.
  destruct s as [| c r]; simpl; [contradiction |].
  intros [Hc _]. revert Hc.
  destruct c as [[] [] [] [] [] [] [] []]; vm_compute; try discriminate; reflexivity.
Qed.

Lemma opens_decimal_not_Infinity (s : string) :
  opens_decimal s -> String.eqb s "Infinity" = false.
Proof.
  destruct s as [| c r]; simpl; [contradiction |].
  intros [Hc _]. revert Hc.
  destruct c as [[] [] [] [] [] [] [] []]; vm_compute; try discriminate; reflexivity.
Qed.

Lemma is_empty_app (a b : string) :
  Str.is_empty a = false -> Str.is_empty (a ++ b) = false.
Proof. destruct a; [discriminate | reflexivity]. Qed.

Lemma length_app (a b : string) :
  String.length (a ++ b) = (String.length a + String.length b)%nat.
Proof. induction a as [| c r IH]; simpl; [reflexivity | rewrite IH; reflexivity]. Qed.

(** [Number] of digits, a point and digits. *)
Lemma StringToNumber_fixed (D F : string) :
  Str.is_empty D = false -> Str.all Str.is_digit D = true ->
  Str.is_empty F = false -> Str.all Str.is_digit F = true ->
  StringToNumber (D ++ String "." F)
  = Fin (scale10 (Z.of_N (digits_value (D ++ F))) (0 - Z.of_nat (String.length F))).
Proof.
  intros HD HDd HF HFd.
  assert (Hopen : opens_decimal (D ++ String "." F)).
  { destruct D as [| c [| p r]]; [discriminate | |]; simpl in *.
    - apply andb_true_iff in HDd. split; [tauto | right; reflexivity].
    - apply andb_true_iff in HDd. destruct HDd as [Hc Hr].
      apply andb_true_iff in Hr. split; [exact Hc | left; tauto]. }
  assert (Hclean : Str.all (fun c => negb (Str.is_white_space c)) (D ++ String "." F) = true).
  { rewrite all_app. cbn [Str.all].
    rewrite (all_impl _ _ D digit_not_white_space HDd).
    rewrite (all_impl _ _ F digit_not_white_space HFd). reflexivity. }
  unfold StringToNumber. rewrite (trim_clean _ Hclean).
  rewrite (is_empty_app D _ HD), (opens_decimal_not_radix _ Hopen).
  rewrite (opens_decimal_unsigned _ Hopen).
  unfold StrUnsignedDecimalLiteral. rewrite (opens_decimal_not_Infinity _ Hopen).
  rewrite (span_app_stop Str.is_digit D "." F HDd eq_refl).
  rewrite (span_all Str.is_digit F HFd).
  rewrite HD. cbn [andb parse_exponent]. reflexivity.
Qed.

(** [Number] of digits alone. *)
Lemma StringToNumber_digits (D : string) :
  Str.is_empty D = false -> Str.all Str.is_digit D = true ->
  StringToNumber D = Fin (inject_Z (Z.of_N (digits_value D) * 1)).
Proof.
  intros HD HDd.
  assert (Hopen : opens_decimal D).
  { destruct D as [| c [| p r]]; [discriminate | |]; simpl in *.
    - apply andb_true_iff in HDd. tauto.
    - apply andb_true_iff in HDd. destruct HDd as [Hc Hr].
      apply andb_true_iff in Hr. split; [exact Hc | left; tauto]. }
  unfold StringToNumber.
  rewrite (trim_clean _ (all_impl _ _ D digit_not_white_space HDd)).
  rewrite HD, (opens_decimal_not_radix _ Hopen), (opens_decimal_unsigned _ Hopen).
  unfold StrUnsignedDecimalLiteral. rewrite (opens_decimal_not_Infinity _ Hopen).
  rewrite (span_all Str.is_digit D HDd).
  rewrite HD. cbn [andb parse_exponent]. rewrite append_empty_r. reflexivity.
Qed.

(** [Number.parseInt] of digits. *)
Lemma parseInt10_digits (D : string) :
  Str.is_empty D = false -> Str.all Str.is_digit D = true ->
  parseInt10 D = of_Z (Z.of_N (digits_value D)).
Proof.
  intros HD HDd.
  assert (Hopen : opens_decimal D).
  { destruct D as [| c [| p r]]; [discriminate | |]; simpl in *.
    - apply andb_true_iff in HDd. tauto.
    - apply andb_true_iff in HDd. destruct HDd as [Hc Hr].
      apply andb_true_iff in Hr. split; [exact Hc | left; tauto]. }
  unfold parseInt10, Str.trimStart.
  rewrite (dropWhile_clean _ _ (all_impl _ _ D digit_not_white_space HDd)).
  rewrite (opens_decimal_unsigned _ Hopen), (span_all Str.is_digit D HDd), HD.
  reflexivity.
Qed.

(** ** Rounding to two places *)

Lemma Z_digits_value (z : Z) : (0 <= z)%Z -> Z.of_N (digits_value (Z_digits z)) = z.
Proof. intros H. unfold Z_digits. rewrite N_digits_value. lia. Qed.

Lemma padStart2_Z_length (z : Z) :
  (0 <= z < 100)%Z -> String.length (Str.padStart2 (Z_digits z)) = 2%nat.
Proof. intros H. unfold Z_digits. apply padStart2_length_small. lia. Qed.

(** The value of the digits of [a] followed by the two digits of [b]. *)
Lemma fixed_digits_value (a b : Z) :
  (0 <= a)%Z -> (0 <= b < 100)%Z ->
  Z.of_N (digits_value (Str.padStart2 (Z_digits a) ++ Str.padStart2 (Z_digits b)))
  = (a * 100 + b)%Z
  /\ Z.of_N (digits_value (Z_digits a ++ Str.padStart2 (Z_digits b))) = (a * 100 + b)%Z.
Proof.
  intros Ha Hb.
  rewrite !digits_value_app, !padStart2_value, (padStart2_Z_length b Hb).
  rewrite !N2Z.inj_add, !N2Z.inj_mul, !Z_digits_value by lia.
  split; reflexivity.
Qed.

Lemma toFixed2_fixed (x : Q) :
  0 <= x -> x < ten21 ->
  toFixed2 (Fin x)
  = (Z_digits (Qfloor (x * inject_Z 100 + (1 # 2)) / 100)
     ++ String "." (Str.padStart2 (Z_digits (Qfloor (x * inject_Z 100 + (1 # 2)) mod 100))))%string.
Proof.
  intros H0 H21. unfold toFixed2.
  assert (Habs : Qabs x == x) by (apply Qabs_pos; exact H0).
  rewrite (Qleb_comp _ _ (Qeq_refl ten21) _ _ Habs).
  rewrite (proj2 (Qle_bool_gt ten21 x) H21).
  assert (Hn : Qfloor (Qabs x * inject_Z 100 + (1 # 2)) = Qfloor (x * inject_Z 100 + (1 # 2)))
    by (apply Qfloor_comp; rewrite Habs; reflexivity).
  rewrite Hn, (proj2 (Qltb_ge x 0) H0). reflexivity.
Qed.

Lemma Qfloor_half_nonneg (x : Q) : 0 <= x -> (0 <= Qfloor (x * inject_Z 100 + (1 # 2)))%Z.
Proof.
  intros H. change 0%Z with (Qfloor 0). apply Qfloor_resp_le.
  assert (0 <= x * inject_Z 100) by (apply Qmult_le_0_compat; [exact H | discriminate]).
  lra.
Qed.

(** Below 10^21, [Number(x.toFixed(2))] is the nearest multiple of 0.01. *)
Lemma round2_fixed (x : Q) :
  0 <= x -> x < ten21 ->
  round2 (Fin x) = hundredths (Qfloor (x * inject_Z 100 + (1 # 2))).
Proof.
  intros H0 H21. unfold round2. rewrite (toFixed2_fixed x H0 H21).
  set (n := Qfloor (x * inject_Z 100 + (1 # 2))).
  assert (Hn : (0 <= n)%Z) by (apply Qfloor_half_nonneg; exact H0).
  assert (Ha : (0 <= n / 100)%Z) by (apply Z.div_pos; lia).
  assert (Hb : (0 <= n mod 100 < 100)%Z) by (apply Z.mod_pos_bound; lia).
  rewrite StringToNumber_fixed.
  - rewrite (padStart2_Z_length _ Hb).
    rewrite (proj2 (fixed_digits_value _ _ Ha Hb)).
    unfold hundredths. cbn [scale10 Z.sub Z.of_nat Z.opp Z.leb Z.compare Pos.of_succ_nat Pos.succ
                             Z.add Z.pos_sub Z.succ_double Z.pred_double Z.double Pos.pred_double].
    f_equal. f_equal.
    pose proof (Z.div_mod n 100 ltac:(lia)). lia.
  - apply N_digits_not_empty.
  - apply N_digits_all_digits.
  - apply padStart2_not_empty.
  - apply padStart2_all_digits, N_digits_all_digits.
Qed.

Lemma ten21_value : ten21 = 1000000000000000000000 # 1.
Proof. reflexivity. Qed.

Lemma hundredths_below_ten21 (k : Z) :
  (k < 100000000000000000000000)%Z -> hundredths k = Fin (k # 100) /\ (k # 100) < ten21.
Proof.
  intros H. split; [reflexivity |]. rewrite ten21_value. unfold Qlt. cbn [Qnum Qden]. lia.
Qed.

Lemma round2_hundredths (k : Z) :
  (0 <= k < 100000000000000000000000)%Z -> round2 (hundredths k) = hundredths k.
Proof.
  intros [H0 H23]. unfold hundredths at 1. rewrite round2_fixed.
  - f_equal.
    rewrite (Qfloor_comp _ ((2 * k + 1) # 2)) by Qeq_by_lia.
    change (Qfloor ((2 * k + 1) # 2)) with ((2 * k + 1) / 2)%Z. div_lia.
  - unfold Qle. cbn [Qnum Qden]. lia.
  - apply hundredths_below_ten21. exact H23.
Qed.

Lemma round2_to_hundredths (v : number) (k : Z) :
  num_eq v (hundredths k) -> (0 <= k < 100000000000000000000000)%Z ->
  round2 v = hundredths k.
Proof.
  intros Hv Hk. rewrite (round2_compat v (hundredths k) Hv). apply round2_hundredths. exact Hk.
Qed.

Lemma floor_minutes (k : Z) :
  Math_floor (num_div (hundredths k) (Fin 60)) = of_Z (k / 6000).
Proof.
  unfold hundredths, of_Z. cbn [num_div Math_floor].
  change (Qeq_bool 60 0) with false. cbv iota. cbn [Math_floor]. f_equal. f_equal.
  rewrite (Qfloor_comp _ (k # 6000)) by Qeq_by_lia. reflexivity.
Qed.

Lemma seconds_left (k m : Z) :
  num_eq (num_sub (hundredths k) (num_mul (of_Z m) (Fin 60))) (hundredths (k - 6000 * m)).
Proof. unfold hundredths, of_Z. cbn [num_sub num_mul num_add num_opp num_eq]. Qeq_by_lia. Qed.

Lemma seconds_below_60 (r : Z) : (r < 6000)%Z -> num_ge (hundredths r) (Fin 60) = false.
Proof.
  intros H. unfold num_ge, hundredths. cbn [num_le]. apply Qle_bool_gt.
  unfold Qlt. cbn [Qnum Qden]. lia.
Qed.

Lemma floor_hundredths (r : Z) : Math_floor (hundredths r) = of_Z (r / 100).
Proof. reflexivity. Qed.

Lemma fraction_left (r : Z) :
  num_eq (num_sub (hundredths r) (of_Z (r / 100))) (hundredths (r mod 100)).
Proof.
  unfold hundredths, of_Z. cbn [num_sub num_add num_opp num_eq].
  pose proof (Z.div_mod r 100 ltac:(lia)). Qeq_by_lia.
Qed.

Lemma hundredths_positive (f : Z) : num_gt (hundredths f) (Fin 0) = (0 <? f)%Z.
Proof.
  unfold num_gt, hundredths. cbn [num_lt].
  destruct (Z.ltb_spec 0 f) as [H | H].
  - apply Qltb_lt. unfold Qlt. cbn [Qnum Qden]. lia.
  - apply Qltb_ge. unfold Qle. cbn [Qnum Qden]. lia.
Qed.

Lemma round_fraction (f : Z) : Math_round (num_mul (hundredths f) (Fin 100)) = of_Z f.
Proof.
  unfold hundredths, of_Z. cbn [num_mul Math_round]. f_equal. f_equal.
  rewrite (Qfloor_comp _ ((2 * f + 1) # 2)) by Qeq_by_lia.
  change (Qfloor ((2 * f + 1) # 2)) with ((2 * f + 1) / 2)%Z. div_lia.
Qed.

(** An integer from 0 up to 10^21 prints as its digits. *)
Lemma Number_toString_of_Z (m : Z) :
  (0 <= m < 1000000000000000000000)%Z -> Number_toString (of_Z m) = Z_digits m.
Proof.
  intros [H0 H21]. unfold of_Z, Number_toString.
  rewrite (proj2 (Qltb_ge (inject_Z m) 0)) by (unfold Qle; cbn [Qnum Qden inject_Z]; lia).
  assert (Habs : Qabs (inject_Z m) = inject_Z m).
  { unfold Qabs, inject_Z. rewrite Z.abs_eq by exact H0. reflexivity. }
  rewrite Habs. unfold Q_is_integer. rewrite Qfloor_Z, Qeq_bool_refl.
  rewrite (proj2 (Qltb_lt (inject_Z m) ten21))
    by (rewrite ten21_value; unfold Qlt; cbn [Qnum Qden inject_Z]; lia).
  reflexivity.
Qed.

(** ** The editable timestamp (C3) *)

Lemma formatTimestampInput_hundredths (n : Z) :
  (0 < n < 100000000000000000000000)%Z ->
  forall s : Q, round2 (Fin s) = hundredths n ->
  formatTimestampInput (Some (Fin s)) = timestamp_text n.
Proof.
  intros Hn s Hs. unfold formatTimestampInput.
  cbn [Number_isNaN Number_isFinite negb orb]. rewrite Hs.
  assert (Hmax : Math_max (Fin 0) (hundredths n) = hundredths n).
  { unfold Math_max, hundredths. cbn [num_lt].
    rewrite (proj2 (Qltb_lt 0 (n # 100))) by (unfold Qlt; cbn [Qnum Qden]; lia).
    reflexivity. }
  rewrite Hmax. cbv zeta.
  rewrite floor_minutes.
  assert (Hm : (0 <= n / 6000 < 1000000000000000000000)%Z) by div_lia.
  assert (Hr : (0 <= n mod 6000 < 6000)%Z) by div_lia.
  assert (Hsi : (0 <= n mod 6000 / 100 < 1000000000000000000000)%Z) by div_lia.
  assert (Hf : (0 <= n mod 100 < 100)%Z) by div_lia.
  assert (Hsec : round2 (num_sub (hundredths n) (num_mul (of_Z (n / 6000)) (Fin 60)))
                 = hundredths (n mod 6000)).
  { apply round2_to_hundredths; [| lia].
    eapply num_eq_trans; [apply seconds_left |].
    replace (n - 6000 * (n / 6000))%Z with (n mod 6000)%Z by div_lia. apply num_eq_refl. }
  rewrite Hsec, seconds_below_60 by lia. cbv iota.
  rewrite floor_hundredths.
  assert (Hfrac : round2 (num_sub (hundredths (n mod 6000)) (of_Z (n mod 6000 / 100)))
                  = hundredths (n mod 100)).
  { apply round2_to_hundredths; [| lia].
    eapply num_eq_trans; [apply fraction_left |].
    replace ((n mod 6000) mod 100)%Z with (n mod 100)%Z by div_lia. apply num_eq_refl. }
  rewrite Hfrac, hundredths_positive, round_fraction.
  rewrite !Number_toString_of_Z by lia.
  unfold timestamp_text.
  destruct (0 <? n mod 100)%Z; [reflexivity | rewrite append_empty_r; reflexivity].
Qed.

(** The specification's examples of the formatter and the parser. *)
Example timestamp_examples :
  formatTimestampInput (Some (Fin (125 # 2))) = "01:02.50"
  /\ formatTimestampInput (Some (Fin (inject_Z 3725))) = "62:05"
  /\ formatTimestampInput (Some (Fin 0)) = "00:00"
  /\ formatTimestampInput (Some NaN) = EmptyString
  /\ formatTimestampInput None = EmptyString
  /\ parseTimestampInput "00:10" = Some (Fin (1000 # 100))
  /\ parseTimestampInput "1:02:03" = Some (Fin (372300 # 100))
  /\ parseTimestampInput "01:02.50" = Some (Fin (6250 # 100))
  /\ parseTimestampInput "1::2" = None
  /\ parseTimestampInput "1.5:2" = None
  /\ parseTimestampInput "  " = None.
Proof. vm_compute. repeat split. Qed.

Lemma includes_app_char (c : ascii) (a b : string) :
  Str.includes c (a ++ String c b) = true.
Proof.
  induction a as [| d r IH]; simpl.
  - rewrite Ascii.eqb_refl. reflexivity.
  - rewrite IH. apply orb_true_r.
Qed.

Lemma digit_or_point_clean (c : ascii) :
  Str.is_digit c || Ascii.eqb c "." = true ->
  negb (Str.is_white_space c) = true /\ negb (Ascii.eqb c ":") = true.
Proof. each_char c. Qed.

(** A text [MM:rest], with [MM] digits and [rest] a number without a
    colon, parses to [60 * MM + rest], rounded and clamped. *)
Lemma parseTimestampInput_minutes (MM rest : string) (q : Q) :
  Str.is_empty MM = false -> Str.all Str.is_digit MM = true ->
  Str.is_empty rest = false ->
  Str.all (fun c => Str.is_digit c || Ascii.eqb c ".") rest = true ->
  StringToNumber rest = Fin q ->
  parseTimestampInput (MM ++ String ":" rest)
  = Some (Math_max (Fin 0)
            (round2 (Fin (0 + q * 1 + inject_Z (Z.of_N (digits_value MM)) * (1 * 60))))).
Proof.
  intros HMe HMd Hre Hrd Hq.
  assert (Hclean : Str.all (fun c => negb (Str.is_white_space c)) (MM ++ String ":" rest) = true).
  { rewrite all_app. cbn [Str.all].
    rewrite (all_impl _ _ MM digit_not_white_space HMd).
    rewrite (all_impl _ _ rest (fun c H => proj1 (digit_or_point_clean c H)) Hrd).
    reflexivity. }
  unfold parseTimestampInput. rewrite (trim_clean _ Hclean).
  rewrite (is_empty_app MM _ HMe), includes_app_char. cbn [negb].
  rewrite (split_app_sep ":" MM rest (all_impl _ _ MM digit_not_colon HMd)).
  rewrite (split_no_sep ":" rest
             (all_impl _ _ rest (fun c H => proj2 (digit_or_point_clean c H)) Hrd)).
  cbn [List.rev app parseTimestampInput_loop].
  rewrite Hre, Hq. cbn [Number_isNaN]. rewrite HMe.
  unfold Str.test_digits. rewrite HMe, HMd. cbn [negb andb].
  rewrite (parseInt10_digits MM HMe HMd). reflexivity.
Qed.

Lemma parseTimestampInput_text (n : Z) :
  (0 <= n < 100000000000000000000000)%Z ->
  exists v, parseTimestampInput (timestamp_text n) = Some v /\ num_eq v (hundredths n).
Proof.
  intros Hn.
  assert (Hm : (0 <= n / 6000)%Z) by div_lia.
  assert (Hsi : (0 <= n mod 6000 / 100 < 100)%Z) by div_lia.
  assert (Hf : (0 <= n mod 100 < 100)%Z) by div_lia.
  assert (Hsplit : (n = 6000 * (n / 6000) + 100 * (n mod 6000 / 100) + n mod 100)%Z) by div_lia.
  unfold timestamp_text.
  set (MM := Str.padStart2 (Z_digits (n / 6000))).
  set (SS := Str.padStart2 (Z_digits (n mod 6000 / 100))).
  set (FF := Str.padStart2 (Z_digits (n mod 100))).
  assert (HMd : Str.all Str.is_digit MM = true) by apply padStart2_all_digits, N_digits_all_digits.
  assert (HSd : Str.all Str.is_digit SS = true) by apply padStart2_all_digits, N_digits_all_digits.
  assert (HFd : Str.all Str.is_digit FF = true) by apply padStart2_all_digits, N_digits_all_digits.
  assert (HMe : Str.is_empty MM = false) by apply padStart2_not_empty.
  assert (HSe : Str.is_empty SS = false) by apply padStart2_not_empty.
  assert (HFe : Str.is_empty FF = false) by apply padStart2_not_empty.
  assert (HMv : Z.of_N (digits_value MM) = (n / 6000)%Z)
    by (unfold MM; rewrite padStart2_value; apply Z_digits_value; exact Hm).
  assert (Hdigit_or_point : forall s, Str.all Str.is_digit s = true ->
            Str.all (fun c => Str.is_digit c || Ascii.eqb c ".") s = true)
    by (intros s; apply all_impl; intros c ->; reflexivity).
  destruct (0 <? n mod 100)%Z eqn:Ef.
  - change (MM ++ ":" ++ SS ++ "." ++ FF)%string with (MM ++ String ":" (SS ++ String "." FF))%string.
    rewrite (parseTimestampInput_minutes MM (SS ++ String "." FF)
               (scale10 (Z.of_N (digits_value (SS ++ FF))) (0 - Z.of_nat (String.length FF)))).
    + eexists. split; [reflexivity |].
      unfold FF at 2. rewrite (padStart2_Z_length _ Hf).
      unfold SS, FF. rewrite (proj1 (fixed_digits_value _ _ (proj1 Hsi) Hf)).
      rewrite HMv.
      assert (Hround : round2 (Fin (0 + scale10 (n mod 6000 / 100 * 100 + n mod 100)
                                         (0 - Z.of_nat 2) * 1
                                   + inject_Z (n / 6000) * (1 * 60)))
                       = hundredths n).
      { apply round2_to_hundredths; [| exact Hn].
        unfold hundredths, num_eq.
        change (scale10 (n mod 6000 / 100 * 100 + n mod 100) (0 - Z.of_nat 2))
          with ((n mod 6000 / 100 * 100 + n mod 100) # 100).
        Qeq_by_lia. }
      rewrite Hround. apply Math_max_zero.
      unfold hundredths. cbn [num_le]. apply Qle_bool_iff. unfold Qle. cbn [Qnum Qden]. lia.
    + exact HMe.
    + exact HMd.
    + apply is_empty_app. exact HSe.
    + rewrite all_app. cbn [Str.all]. rewrite (Hdigit_or_point SS HSd), (Hdigit_or_point FF HFd).
      reflexivity.
    + apply StringToNumber_fixed; assumption.
  - assert (Hf0 : (n mod 100 = 0)%Z) by (apply Z.ltb_ge in Ef; lia).
    change (MM ++ ":" ++ SS ++ "")%string with (MM ++ String ":" (SS ++ ""))%string.
    rewrite append_empty_r.
    rewrite (parseTimestampInput_minutes MM SS (inject_Z (Z.of_N (digits_value SS) * 1))).
    + eexists. split; [reflexivity |].
      assert (HSv : Z.of_N (digits_value SS) = (n mod 6000 / 100)%Z)
        by (unfold SS; rewrite padStart2_value; apply Z_digits_value; lia).
      rewrite HSv, HMv.
      assert (Hround : round2 (Fin (0 + inject_Z (n mod 6000 / 100 * 1) * 1
                                   + inject_Z (n / 6000) * (1 * 60)))
                       = hundredths n).
      { apply round2_to_hundredths; [| exact Hn]. unfold hundredths, num_eq. Qeq_by_lia. }
      rewrite Hround. apply Math_max_zero.
      unfold hundredths. cbn [num_le]. apply Qle_bool_iff. unfold Qle. cbn [Qnum Qden]. lia.
    + exact HMe.
    + exact HMd.
    + exact HSe.
    + apply Hdigit_or_point. exact HSd.
    + apply StringToNumber_digits; assumption.
Qed.




(* ================================================================= *)
(** * Part III: further properties of the code *)
(* ================================================================= *)

(** ** The extractor on bare identifiers and on padded input *)

Lemma pattern_id_chars (t : string) :
  YOUTUBE_ID_PATTERN t = true -> Str.all is_id_char t = true.
Proof.
  unfold YOUTUBE_ID_PATTERN. intros H. apply andb_true_iff in H.
  destruct H as [_ H]. exact H.
Qed.

Lemma pattern_trim (t : string) : YOUTUBE_ID_PATTERN t = true -> Str.trim t = t.
Proof.
  intros Hpat. apply trim_clean. apply (all_impl plain); [apply plain_not_white_space |].
  apply (all_impl field_char); [apply field_char_plain |].
  apply (all_impl is_id_char); [apply id_char_field | apply pattern_id_chars; exact Hpat].
Qed.

Section ExtractorMore.

Variable URL_parse : string -> Completion URL.

(** When the input, white space around it apart, is an identifier,
    the extractor returns that identifier and never consults the URL
    parser. *)
Theorem extractYouTubeId_bare_identifier :
  forall input : string,
    YOUTUBE_ID_PATTERN (Str.trim input) = true ->
    extractYouTubeId URL_parse input = Some (Str.trim input).
Proof.
  intros input Hpat. unfold extractYouTubeId.
  rewrite (pattern_not_empty _ Hpat).
  unfold normalizeYouTubeId.
  rewrite (pattern_not_empty _ Hpat), trim_idempotent, Hpat.
  cbn [truthy]. rewrite (pattern_not_empty _ Hpat). reflexivity.
Qed.

(** White space around the input makes no difference to the
    extractor. *)
Theorem extractYouTubeId_ignores_padding :
  forall input : string,
    extractYouTubeId URL_parse input = extractYouTubeId URL_parse (Str.trim input).
Proof.
  intros input. unfold extractYouTubeId. rewrite trim_idempotent. reflexivity.
Qed.

End ExtractorMore.

Lemma extractYouTubeId_bare_identifier_witness :
  extractYouTubeId Host.URL_parse "  dQw4w9WgXcQ " = Some (Str.trim "  dQw4w9WgXcQ ").
Proof.
  apply (extractYouTubeId_bare_identifier Host.URL_parse "  dQw4w9WgXcQ ").
  vm_compute. reflexivity.
Defined.

(** ** Loading a video *)

Section Loading.

Variable URL_parse : string -> Completion URL.
Variable JSON_parse : string -> Completion json.
Variable ids : nat -> string.

(** When the extractor finds an identifier, [handleSubmit] loads it:
    the identifier and the decoded segments replace the old ones, the
    first segment is selected, the draft and the error are cleared,
    the playback position, duration and playing flag are reset, and
    the input text is marked clean; the text itself, the playback rate
    and the looping flag are kept. *)
Theorem handleSubmit_success_loads :
  forall (s : LooperState) (id' : string),
    extractYouTubeId URL_parse (inputValue s) = Some id' ->
    videoId (handleSubmit URL_parse JSON_parse ids s) = Some id'
    /\ loopSegments (handleSubmit URL_parse JSON_parse ids s)
       = extractSegmentsFromInput JSON_parse URL_parse ids (inputValue s)
    /\ selectedSegmentId (handleSubmit URL_parse JSON_parse ids s)
       = option_map id (hd_error (extractSegmentsFromInput JSON_parse URL_parse ids (inputValue s)))
    /\ draft_is_clear (handleSubmit URL_parse JSON_parse ids s)
    /\ inputError (handleSubmit URL_parse JSON_parse ids s) = None
    /\ currentTime (handleSubmit URL_parse JSON_parse ids s) = Fin 0
    /\ duration (handleSubmit URL_parse JSON_parse ids s) = Fin 0
    /\ isPlaying (handleSubmit URL_parse JSON_parse ids s) = false
    /\ isInputDirty (handleSubmit URL_parse JSON_parse ids s) = false
    /\ inputValue (handleSubmit URL_parse JSON_parse ids s) = inputValue s
    /\ playbackRate (handleSubmit URL_parse JSON_parse ids s) = playbackRate s
    /\ loopingEnabled (handleSubmit URL_parse JSON_parse ids s) = loopingEnabled s.
Proof.
  intros s id' Hid. unfold handleSubmit. rewrite Hid.
  pose proof (extractYouTubeId_sound URL_parse _ _ Hid) as Hpat.
  cbn [truthy]. rewrite (pattern_not_empty _ Hpat). cbn [negb].
  unfold draft_is_clear.
  repeat match goal with |- _ /\ _ => split end; reflexivity.
Qed.

(** [handleSubmit] never stores anything but an identifier: whatever
    the input, the video of the session afterwards is the old one or
    matches the pattern. *)
Theorem handleSubmit_keeps_video_valid :
  forall s : LooperState,
    valid_video s -> valid_video (handleSubmit URL_parse JSON_parse ids s).
Proof.
  intros s Hv. unfold handleSubmit.
  destruct (extractYouTubeId URL_parse (inputValue s)) as [id' |] eqn:Hid.
  - pose proof (extractYouTubeId_sound URL_parse _ _ Hid) as Hpat.
    cbn [truthy]. rewrite (pattern_not_empty _ Hpat). cbn [negb].
    unfold valid_video. cbn. exact Hpat.
  - cbn [truthy negb]. exact Hv.
Qed.

End Loading.

Lemma handleSubmit_success_loads_witness :
  let s := sample_state "https://youtu.be/aaaaaaaaaaa" in
  let s' := handleSubmit Host.URL_parse Host.JSON_parse Host.generateSegmentId s in
  videoId s' = Some "aaaaaaaaaaa"
  /\ loopSegments s'
     = extractSegmentsFromInput Host.JSON_parse Host.URL_parse Host.generateSegmentId
         (inputValue s)
  /\ selectedSegmentId s'
     = option_map id (hd_error (extractSegmentsFromInput Host.JSON_parse Host.URL_parse
                                  Host.generateSegmentId (inputValue s)))
  /\ draft_is_clear s'
  /\ inputError s' = None
  /\ currentTime s' = Fin 0
  /\ duration s' = Fin 0
  /\ isPlaying s' = false
  /\ isInputDirty s' = false
  /\ inputValue s' = inputValue s
  /\ playbackRate s' = playbackRate s
  /\ loopingEnabled s' = loopingEnabled s.
Proof.
  apply (handleSubmit_success_loads Host.URL_parse Host.JSON_parse Host.generateSegmentId
           (sample_state "https://youtu.be/aaaaaaaaaaa") "aaaaaaaaaaa").
  vm_compute. reflexivity.
Defined.

Lemma handleSubmit_keeps_video_valid_witness :
  valid_video (handleSubmit Host.URL_parse Host.JSON_parse Host.generateSegmentId
                 (sample_state "https://youtu.be/aaaaaaaaaaa")).
Proof.
  apply (handleSubmit_keeps_video_valid Host.URL_parse Host.JSON_parse Host.generateSegmentId
           (sample_state "https://youtu.be/aaaaaaaaaaa")).
  vm_compute. reflexivity.
Defined.

(** ** The selection and the stepping handlers *)

Lemma selectedSegment_Some (s : LooperState) (segment : LoopSegment) :
  selectedSegment s = Some segment ->
  In segment (loopSegments s) /\ selectedSegmentId s = Some (id segment).
Proof.
  unfold selectedSegment. intros H. apply find_some in H. destruct H as [Hin Hp].
  split; [exact Hin |].
  destruct (selectedSegmentId s) as [selected |]; [| discriminate].
  apply String.eqb_eq in Hp. rewrite Hp. reflexivity.
Qed.

Lemma find_In (A : Type) (p : A -> bool) (l : list A) (x : A) :
  In x l -> p x = true -> exists y, find p l = Some y.
Proof.
  intros Hin Hp. destruct (find p l) as [y |] eqn:Hf; [exists y; reflexivity |].
  pose proof (find_none p l Hf x Hin) as Hn. congruence.
Qed.

Lemma selectedSegment_of_id (s : LooperState) (segment : LoopSegment) :
  In segment (loopSegments s) -> selectedSegmentId s = Some (id segment) ->
  exists found, selectedSegment s = Some found /\ id found = id segment
                /\ In found (loopSegments s).
Proof.
  intros Hin Hsel. unfold selectedSegment. rewrite Hsel.
  destruct (find_In _ (fun x => String.eqb (id x) (id segment)) _ _ Hin
              (String.eqb_refl _)) as [y Hy].
  exists y. split; [exact Hy |]. apply find_some in Hy. destruct Hy as [Hyin Hyp].
  apply String.eqb_eq in Hyp. split; assumption.
Qed.

Lemma selection_valid_iff (s : LooperState) :
  selection_valid s <-> (selectedSegmentId s = None \/ selectedSegment s <> None).
Proof.
  unfold selection_valid. split.
  - destruct (selectedSegmentId s) as [selected |] eqn:Hsel; [| auto].
    intros [segment [Hin Hid]]. right. subst selected.
    destruct (selectedSegment_of_id s segment Hin Hsel) as [found [Hf _]]. congruence.
  - intros [Hnone | Hsome].
    + rewrite Hnone. exact I.
    + destruct (selectedSegment s) as [found |] eqn:Hf; [| congruence].
      apply selectedSegment_Some in Hf. destruct Hf as [Hin Hsel]. rewrite Hsel.
      exists found. auto.
Qed.

Lemma findIndex_range (A : Type) (p : A -> bool) (l : list A) :
  (-1 <= findIndex p l < Z.of_nat (List.length l))%Z.
Proof.
  induction l as [| x t IH]; cbn [findIndex List.length]; [lia |].
  destruct (p x); [lia |].
  destruct (findIndex p t <? 0)%Z eqn:Hneg; bool_lia.
Qed.

Lemma findIndex_found (A : Type) (p : A -> bool) (l : list A) (x : A) :
  In x l -> p x = true -> (0 <= findIndex p l)%Z.
Proof.
  induction l as [| y t IH]; cbn [findIndex]; [intros [] |].
  intros [-> | Hin] Hp.
  - rewrite Hp. lia.
  - destruct (p y); [lia |]. specialize (IH Hin Hp).
    destruct (findIndex p t <? 0)%Z eqn:Hneg; bool_lia.
Qed.

Lemma findIndex_unique (l : list LoopSegment) :
  NoDup (map id l) ->
  forall (i : nat) (segment : LoopSegment),
    nth_error l i = Some segment ->
    findIndex (fun x => String.eqb (id x) (id segment)) l = Z.of_nat i.
Proof.
  induction l as [| y t IH]; intros Hnd i segment Hnth.
  - destruct i; discriminate.
  - inversion Hnd as [| ? ? Hnotin Hnd']; subst. cbn [findIndex].
    destruct i as [| i'].
    + cbn in Hnth. inversion Hnth; subst. rewrite String.eqb_refl. reflexivity.
    + cbn [nth_error] in Hnth.
      destruct (String.eqb (id y) (id segment)) eqn:Heq.
      * apply String.eqb_eq in Heq. exfalso. apply Hnotin. rewrite Heq.
        apply in_map. apply nth_error_In with i'. exact Hnth.
      * rewrite (IH Hnd' i' segment Hnth).
        destruct (Z.of_nat i' <? 0)%Z eqn:Hneg; bool_lia.
Qed.

Lemma at_index_nat (A : Type) (l : list A) (i : nat) :
  at_index l (Z.of_nat i) = nth_error l i.
Proof.
  unfold at_index. destruct (Z.of_nat i <? 0)%Z eqn:Hneg; [bool_lia |].
  rewrite Nat2Z.id. reflexivity.
Qed.

Lemma at_index_in_range (A : Type) (l : list A) (i : Z) :
  (0 <= i < Z.of_nat (List.length l))%Z -> exists x, at_index l i = Some x /\ In x l.
Proof.
  intros Hi. unfold at_index. destruct (i <? 0)%Z eqn:Hneg; [bool_lia |].
  destruct (nth_error l (Z.to_nat i)) as [x |] eqn:Hn.
  - exists x. split; [reflexivity |]. apply nth_error_In with (Z.to_nat i). exact Hn.
  - apply nth_error_None in Hn. lia.
Qed.

Lemma setSelectedSegmentId_same (s : LooperState) :
  setSelectedSegmentId (selectedSegmentId s) s = s.
Proof. destruct s. reflexivity. Qed.

Lemma handleNextSegment_shape (s : LooperState) :
  handleNextSegment s = setSelectedSegmentId (selectedSegmentId (handleNextSegment s)) s.
Proof.
  unfold handleNextSegment.
  destruct (Z.of_nat (List.length (loopSegments s)) =? 0)%Z;
    [symmetry; apply setSelectedSegmentId_same |].
  destruct (selectedSegment s); [reflexivity |].
  destruct (at_index (loopSegments s) 0);
    [reflexivity | symmetry; apply setSelectedSegmentId_same].
Qed.

Lemma handlePrevSegment_shape (s : LooperState) :
  handlePrevSegment s = setSelectedSegmentId (selectedSegmentId (handlePrevSegment s)) s.
Proof.
  unfold handlePrevSegment.
  destruct (Z.of_nat (List.length (loopSegments s)) =? 0)%Z;
    [symmetry; apply setSelectedSegmentId_same |].
  destruct (selectedSegment s); [reflexivity |].
  destruct (at_index (loopSegments s) (Z.of_nat (List.length (loopSegments s)) - 1));
    [reflexivity | symmetry; apply setSelectedSegmentId_same].
Qed.

Lemma handleNextSegment_lands (s : LooperState) :
  loopSegments s <> [] ->
  exists segment, In segment (loopSegments s)
                  /\ selectedSegmentId (handleNextSegment s) = Some (id segment).
Proof.
  intros Hne. unfold handleNextSegment.
  assert (Hlen : (0 < Z.of_nat (List.length (loopSegments s)))%Z)
    by (destruct (loopSegments s); [congruence | cbn [List.length]; lia]).
  destruct (Z.of_nat (List.length (loopSegments s)) =? 0)%Z eqn:Hz; [bool_lia |].
  destruct (selectedSegment s) as [selected |] eqn:Hsel.
  - apply selectedSegment_Some in Hsel. destruct Hsel as [Hin _].
    pose proof (findIndex_range _ (fun x => String.eqb (id x) (id selected)) (loopSegments s))
      as Hr.
    pose proof (findIndex_found _ (fun x => String.eqb (id x) (id selected)) _ _ Hin
                  (String.eqb_refl _)) as Hf.
    match goal with
    | |- context [at_index _ ?t] =>
        destruct (at_index_in_range _ (loopSegments s) t) as [x [Hx Hxin]]
    end.
    { destruct (_ <? _)%Z eqn:Hc; bool_lia. }
    rewrite Hx. exists x. split; [exact Hxin | reflexivity].
  - destruct (at_index_in_range _ (loopSegments s) 0) as [x [Hx Hxin]]; [lia |].
    rewrite Hx. exists x. split; [exact Hxin | reflexivity].
Qed.

Lemma handlePrevSegment_lands (s : LooperState) :
  loopSegments s <> [] ->
  exists segment, In segment (loopSegments s)
                  /\ selectedSegmentId (handlePrevSegment s) = Some (id segment).
Proof.
  intros Hne. unfold handlePrevSegment.
  assert (Hlen : (0 < Z.of_nat (List.length (loopSegments s)))%Z)
    by (destruct (loopSegments s); [congruence | cbn [List.length]; lia]).
  destruct (Z.of_nat (List.length (loopSegments s)) =? 0)%Z eqn:Hz; [bool_lia |].
  destruct (selectedSegment s) as [selected |] eqn:Hsel.
  - apply selectedSegment_Some in Hsel. destruct Hsel as [Hin _].
    pose proof (findIndex_range _ (fun x => String.eqb (id x) (id selected)) (loopSegments s))
      as Hr.
    match goal with
    | |- context [at_index _ ?t] =>
        destruct (at_index_in_range _ (loopSegments s) t) as [x [Hx Hxin]]
    end.
    { destruct (_ <? _)%Z eqn:Hc; bool_lia. }
    rewrite Hx. exists x. split; [exact Hxin | reflexivity].
  - destruct (at_index_in_range _ (loopSegments s)
                (Z.of_nat (List.length (loopSegments s)) - 1)) as [x [Hx Hxin]]; [lia |].
    rewrite Hx. exists x. split; [exact Hxin | reflexivity].
Qed.

Lemma handleNextSegment_index (s : LooperState) (i : nat) (segment : LoopSegment) :
  NoDup (map id (loopSegments s)) ->
  nth_error (loopSegments s) i = Some segment ->
  selectedSegmentId s = Some (id segment) ->
  selectedSegmentId (handleNextSegment s)
  = option_map id (nth_error (loopSegments s) ((i + 1) mod List.length (loopSegments s))).
Proof.
  intros Hnd Hnth Hsel.
  assert (Hi : (i < List.length (loopSegments s))%nat)
    by (apply nth_error_Some; congruence).
  destruct (selectedSegment_of_id s segment (nth_error_In _ _ Hnth) Hsel)
    as [found [Hfound [Hid _]]].
  unfold handleNextSegment. rewrite Hfound, Hid, (findIndex_unique _ Hnd i segment Hnth).
  destruct (Z.of_nat (List.length (loopSegments s)) =? 0)%Z eqn:Hz; [bool_lia |].
  cbn [selectedSegmentId setSelectedSegmentId]. f_equal.
  destruct (Z.of_nat i <? Z.of_nat (List.length (loopSegments s)) - 1)%Z eqn:Hlt.
  - replace (Z.of_nat i + 1)%Z with (Z.of_nat (i + 1)) by lia.
    rewrite at_index_nat, Nat.mod_small by bool_lia. reflexivity.
  - replace (i + 1)%nat with (List.length (loopSegments s)) by bool_lia.
    rewrite Nat.Div0.mod_same. apply (at_index_nat _ _ 0).
Qed.

Lemma handlePrevSegment_index (s : LooperState) (i : nat) (segment : LoopSegment) :
  NoDup (map id (loopSegments s)) ->
  nth_error (loopSegments s) i = Some segment ->
  selectedSegmentId s = Some (id segment) ->
  selectedSegmentId (handlePrevSegment s)
  = option_map id
      (nth_error (loopSegments s)
         ((i + List.length (loopSegments s) - 1) mod List.length (loopSegments s))).
Proof.
  intros Hnd Hnth Hsel.
  assert (Hi : (i < List.length (loopSegments s))%nat)
    by (apply nth_error_Some; congruence).
  destruct (selectedSegment_of_id s segment (nth_error_In _ _ Hnth) Hsel)
    as [found [Hfound [Hid _]]].
  unfold handlePrevSegment. rewrite Hfound, Hid, (findIndex_unique _ Hnd i segment Hnth).
  destruct (Z.of_nat (List.length (loopSegments s)) =? 0)%Z eqn:Hz; [bool_lia |].
  cbn [selectedSegmentId setSelectedSegmentId]. f_equal.
  destruct (0 <? Z.of_nat i)%Z eqn:Hlt.
  - replace (Z.of_nat i - 1)%Z with (Z.of_nat (i - 1)) by bool_lia.
    rewrite at_index_nat.
    replace (i + List.length (loopSegments s) - 1)%nat
      with ((i - 1) + 1 * List.length (loopSegments s))%nat by bool_lia.
    rewrite Nat.Div0.mod_add, Nat.mod_small by bool_lia. reflexivity.
  - replace i with 0%nat by bool_lia. cbn [Nat.add].
    rewrite Nat.mod_small by lia.
    replace (Z.max 0 (Z.of_nat (List.length (loopSegments s)) - 1))
      with (Z.of_nat (List.length (loopSegments s) - 1)) by lia.
    apply at_index_nat.
Qed.

(** Stepping through a list that is not empty always lands on one of
    its segments, whatever was selected before, and changes nothing
    but the selection, so that whenever stepping is enabled there is a
    segment to loop afterwards; on an empty list it changes nothing at
    all. *)
Theorem stepping_lands_on_a_segment :
  forall s : LooperState,
    (loopSegments s <> [] ->
     (exists segment, In segment (loopSegments s)
                      /\ selectedSegmentId (handleNextSegment s) = Some (id segment))
     /\ (exists segment, In segment (loopSegments s)
                         /\ selectedSegmentId (handlePrevSegment s) = Some (id segment)))
    /\ (loopSegments s = [] -> handleNextSegment s = s /\ handlePrevSegment s = s)
    /\ handleNextSegment s = setSelectedSegmentId (selectedSegmentId (handleNextSegment s)) s
    /\ handlePrevSegment s = setSelectedSegmentId (selectedSegmentId (handlePrevSegment s)) s
    /\ (canNavigateSegments s = true ->
        canLoop (handleNextSegment s) = true /\ canLoop (handlePrevSegment s) = true).
Proof.
  intros s. split; [| split; [| split; [| split]]].
  - intros Hne. split; [apply handleNextSegment_lands | apply handlePrevSegment_lands];
      exact Hne.
  - intros Hnil. unfold handleNextSegment, handlePrevSegment. rewrite Hnil. split; reflexivity.
  - apply handleNextSegment_shape.
  - apply handlePrevSegment_shape.
  - intros Hnav. unfold canNavigateSegments in Hnav.
    assert (Hne : loopSegments s <> [])
      by (intros E; rewrite E in Hnav; discriminate).
    unfold canLoop. split.
    + destruct (handleNextSegment_lands s Hne) as [segment [Hin Hsel]].
      assert (Hin' : In segment (loopSegments (handleNextSegment s)))
        by (rewrite handleNextSegment_shape; exact Hin).
      destruct (selectedSegment_of_id _ segment Hin' Hsel) as [found [-> _]]. reflexivity.
    + destruct (handlePrevSegment_lands s Hne) as [segment [Hin Hsel]].
      assert (Hin' : In segment (loopSegments (handlePrevSegment s)))
        by (rewrite handlePrevSegment_shape; exact Hin).
      destruct (selectedSegment_of_id _ segment Hin' Hsel) as [found [-> _]]. reflexivity.
Qed.

(** With distinct identifiers, stepping is cyclic: from the segment at
    index [i] of [n], next selects the one at [(i + 1) mod n] and
    previous the one at [(i + n - 1) mod n]. *)
Theorem stepping_is_cyclic :
  forall (s : LooperState) (i : nat) (segment : LoopSegment),
    NoDup (map id (loopSegments s)) ->
    nth_error (loopSegments s) i = Some segment ->
    selectedSegmentId s = Some (id segment) ->
    selectedSegmentId (handleNextSegment s)
    = option_map id (nth_error (loopSegments s) ((i + 1) mod List.length (loopSegments s)))
    /\ selectedSegmentId (handlePrevSegment s)
       = option_map id
           (nth_error (loopSegments s)
              ((i + List.length (loopSegments s) - 1) mod List.length (loopSegments s))).
Proof.
  intros s i segment Hnd Hnth Hsel. split.
  - apply (handleNextSegment_index s i segment); assumption.
  - apply (handlePrevSegment_index s i segment); assumption.
Qed.

Lemma stepping_is_cyclic_witness :
  selectedSegmentId (handleNextSegment (sample_state "x"))
  = option_map id (nth_error (loopSegments (sample_state "x"))
                     ((0 + 1) mod List.length (loopSegments (sample_state "x"))))
  /\ selectedSegmentId (handlePrevSegment (sample_state "x"))
     = option_map id
         (nth_error (loopSegments (sample_state "x"))
            ((0 + List.length (loopSegments (sample_state "x")) - 1)
               mod List.length (loopSegments (sample_state "x")))).
Proof.
  apply (stepping_is_cyclic (sample_state "x") 0 (sample_segment "a" "Intro" 1 (5 # 2))).
  - cbn. repeat constructor; cbn; intuition discriminate.
  - reflexivity.
  - reflexivity.
Defined.

Lemma nth_mod_exists (l : list LoopSegment) (j : nat) :
  l <> [] -> exists x, nth_error l (j mod List.length l) = Some x.
Proof.
  intros Hne.
  assert (Hlen : (List.length l <> 0)%nat) by (destruct l; [congruence | cbn; lia]).
  pose proof (Nat.mod_upper_bound j (List.length l) Hlen) as Hb.
  destruct (nth_error l (j mod List.length l)) as [x |] eqn:Hn; [exists x; reflexivity |].
  apply nth_error_None in Hn. lia.
Qed.

(** With distinct identifiers and a segment selected, next and
    previous undo each other: either one followed by the other gives
    the state back. *)
Theorem stepping_back_and_forth :
  forall (s : LooperState) (i : nat) (segment : LoopSegment),
    NoDup (map id (loopSegments s)) ->
    nth_error (loopSegments s) i = Some segment ->
    selectedSegmentId s = Some (id segment) ->
    handlePrevSegment (handleNextSegment s) = s
    /\ handleNextSegment (handlePrevSegment s) = s.
Proof.
  intros s i segment Hnd Hnth Hsel.
  assert (Hi : (i < List.length (loopSegments s))%nat)
    by (apply nth_error_Some; congruence).
  assert (Hne : loopSegments s <> []) by (intros E; rewrite E in Hi; cbn in Hi; lia).
  set (n := List.length (loopSegments s)) in *.
  assert (Hback : forall s1 : LooperState,
             s1 = setSelectedSegmentId (selectedSegmentId s1) s ->
             forall s2 : LooperState,
               s2 = setSelectedSegmentId (selectedSegmentId s2) s1 ->
               selectedSegmentId s2 = Some (id segment) -> s2 = s).
  { intros s1 H1 s2 H2 H3. rewrite H2, H1, H3. destruct s. cbn in *.
    unfold setSelectedSegmentId. cbn. rewrite Hsel. reflexivity. }
  split.
  - apply (Hback (handleNextSegment s) (handleNextSegment_shape s)).
    + apply handlePrevSegment_shape.
    + destruct (nth_mod_exists (loopSegments s) (i + 1) Hne) as [x Hx]. fold n in Hx.
      pose proof (handleNextSegment_index s i segment Hnd Hnth Hsel) as Hnext.
      fold n in Hnext. rewrite Hx in Hnext. cbn [option_map] in Hnext.
      assert (Hl : loopSegments (handleNextSegment s) = loopSegments s)
        by (rewrite handleNextSegment_shape; reflexivity).
      rewrite (handlePrevSegment_index (handleNextSegment s) ((i + 1) mod n) x);
        rewrite ?Hl; try assumption.
      fold n.
      replace (((i + 1) mod n + n - 1) mod n)%nat with i; [rewrite Hnth; reflexivity |].
      destruct (Nat.eq_dec (i + 1) n) as [E | E].
      * rewrite E, Nat.Div0.mod_same. cbn [Nat.add].
        rewrite Nat.mod_small by lia. lia.
      * rewrite (Nat.mod_small (i + 1)) by lia.
        replace (i + 1 + n - 1)%nat with (i + 1 * n)%nat by lia.
        rewrite Nat.Div0.mod_add, Nat.mod_small by lia. reflexivity.
  - apply (Hback (handlePrevSegment s) (handlePrevSegment_shape s)).
    + apply handleNextSegment_shape.
    + destruct (nth_mod_exists (loopSegments s) (i + n - 1) Hne) as [x Hx]. fold n in Hx.
      pose proof (handlePrevSegment_index s i segment Hnd Hnth Hsel) as Hprev.
      fold n in Hprev. rewrite Hx in Hprev. cbn [option_map] in Hprev.
      assert (Hl : loopSegments (handlePrevSegment s) = loopSegments s)
        by (rewrite handlePrevSegment_shape; reflexivity).
      rewrite (handleNextSegment_index (handlePrevSegment s) ((i + n - 1) mod n) x);
        rewrite ?Hl; try assumption.
      fold n.
      replace (((i + n - 1) mod n + 1) mod n)%nat with i; [rewrite Hnth; reflexivity |].
      destruct (Nat.eq_dec i 0) as [E | E].
      * rewrite E. cbn [Nat.add]. rewrite (Nat.mod_small (n - 1)) by lia.
        replace (n - 1 + 1)%nat with n by lia. rewrite Nat.Div0.mod_same. reflexivity.
      * replace (i + n - 1)%nat with ((i - 1) + 1 * n)%nat by lia.
        rewrite Nat.Div0.mod_add, (Nat.mod_small (i - 1)) by lia.
        replace (i - 1 + 1)%nat with i by lia. symmetry. apply Nat.mod_small. lia.
Qed.

Lemma stepping_back_and_forth_witness :
  handlePrevSegment (handleNextSegment (sample_state "x")) = sample_state "x"
  /\ handleNextSegment (handlePrevSegment (sample_state "x")) = sample_state "x".
Proof.
  apply (stepping_back_and_forth (sample_state "x") 0 (sample_segment "a" "Intro" 1 (5 # 2))).
  - cbn. repeat constructor; cbn; intuition discriminate.
  - reflexivity.
  - reflexivity.
Defined.

(** ** What the handlers keep true of the list and of the selection *)

Lemma handleAddSegment_commit (fresh : string) (s : LooperState) :
  canAddSegment s = true ->
  handleAddSegment fresh s
  = resetDraft
      (setSelectedSegmentId (Some fresh)
         (setLoopSegments (sort by_start (loopSegments s ++ [newSegment fresh s])) s)).
Proof. intros H. unfold handleAddSegment. rewrite H. reflexivity. Qed.

Lemma Math_min_not_NaN (a b : number) :
  Number_isNaN a = false -> Number_isNaN b = false -> Number_isNaN (Math_min a b) = false.
Proof.
  intros Ha Hb. destruct (Math_min_cases a b Ha Hb) as [[-> _] | [-> _]]; assumption.
Qed.

Lemma newSegment_start_not_NaN (fresh : string) (s : LooperState) :
  canAddSegment s = true -> Number_isNaN (start (newSegment fresh s)) = false.
Proof.
  intros H. apply canAddSegment_iff in H. destruct H as [ds [de [Hs [He Hlen]]]].
  destruct (length_guard_not_NaN _ _ Hlen) as [Hds Hde].
  cbn [start newSegment]. rewrite Hs, He.
  apply Math_min_not_NaN; apply bounded_not_NaN; assumption.
Qed.

Lemma ascending_filter (p : LoopSegment -> bool) (l : list LoopSegment) :
  ascending l -> ascending (filter p l).
Proof.
  unfold ascending. intros H.
  apply Sorted_StronglySorted in H;
    [| intros a b c Hab Hbc; exact (num_le_trans _ _ _ Hab Hbc)].
  apply StronglySorted_Sorted.
  induction H as [| x t Hs IH Hall]; cbn [filter]; [constructor |].
  destruct (p x); [| exact IH].
  constructor; [exact IH |].
  apply Forall_forall. intros y Hy. apply filter_In in Hy. destruct Hy as [Hy _].
  rewrite Forall_forall in Hall. apply Hall. exact Hy.
Qed.

Lemma starts_comparable_filter (p : LoopSegment -> bool) (l : list LoopSegment) :
  starts_comparable l -> starts_comparable (filter p l).
Proof.
  unfold starts_comparable. rewrite !Forall_forall. intros H x Hx.
  apply filter_In in Hx. apply H. tauto.
Qed.

Lemma NoDup_ids_filter (p : LoopSegment -> bool) (l : list LoopSegment) :
  NoDup (map id l) -> NoDup (map id (filter p l)).
Proof.
  induction l as [| x t IH]; cbn [map filter]; [auto |].
  intros H. inversion H as [| ? ? Hnotin Hnd]; subst.
  destruct (p x); [| exact (IH Hnd)].
  cbn [map]. constructor; [| exact (IH Hnd)].
  intros Hin. apply Hnotin. apply in_map_iff in Hin. destruct Hin as [y [Hy Hyin]].
  apply filter_In in Hyin. apply in_map_iff. exists y. tauto.
Qed.

Lemma segments_ok_filter (p : LoopSegment -> bool) (l : list LoopSegment) :
  segments_ok l -> segments_ok (filter p l).
Proof.
  intros [Ha [Hc Hn]]. split; [| split].
  - apply ascending_filter. exact Ha.
  - apply starts_comparable_filter. exact Hc.
  - apply NoDup_ids_filter. exact Hn.
Qed.

(** The handlers that rewrite the list keep it in order: ascending by
    start, without a [NaN] start, and without a repeated identifier,
    as long as the identifier given to a new segment is not in use. *)
Theorem segment_list_stays_ordered :
  forall s : LooperState,
    segments_ok (loopSegments s) ->
    (forall fresh, ~ In fresh (map id (loopSegments s)) ->
                   segments_ok (loopSegments (handleAddSegment fresh s)))
    /\ (forall id', segments_ok (loopSegments (handleRemoveSegment id' s)))
    /\ segments_ok (loopSegments (handleClearSegments s))
    /\ segments_ok (loopSegments (handleRemoveSelected s))
    /\ loopSegments (handleNextSegment s) = loopSegments s
    /\ loopSegments (handlePrevSegment s) = loopSegments s.
Proof.
  intros s Hok. split; [| split; [| split; [| split; [| split]]]].
  - intros fresh Hfresh. destruct (canAddSegment s) eqn:Hcan.
    + rewrite (handleAddSegment_commit fresh s Hcan).
      cbn [loopSegments resetDraft setDraftEndInput setDraftStartInput setDraftLabel
             setDraftEnd setDraftStart setSelectedSegmentId setLoopSegments].
      destruct Hok as [Ha [Hc Hn]].
      assert (Hc' : starts_comparable (loopSegments s ++ [newSegment fresh s])).
      { unfold starts_comparable. apply Forall_app. split; [exact Hc |].
        constructor; [| constructor]. apply newSegment_start_not_NaN. exact Hcan. }
      split; [| split].
      * apply sort_ascending. exact Hc'.
      * apply sort_starts_comparable. exact Hc'.
      * apply (Permutation_NoDup (l := fresh :: map id (loopSegments s))).
        -- apply Permutation_sym.
           apply (Permutation_trans (l' := map id (loopSegments s ++ [newSegment fresh s]))).
           ++ apply Permutation_map, sort_perm.
           ++ rewrite map_app. cbn [map id newSegment].
              apply Permutation_sym, Permutation_cons_append.
        -- constructor; assumption.
    + unfold handleAddSegment. rewrite Hcan. exact Hok.
  - intros id'. apply segments_ok_filter. exact Hok.
  - repeat split; constructor.
  - unfold handleRemoveSelected. destruct (selectedSegment s) as [selected |]; [| exact Hok].
    apply segments_ok_filter. exact Hok.
  - rewrite handleNextSegment_shape. reflexivity.
  - rewrite handlePrevSegment_shape. reflexivity.
Qed.

Lemma segment_list_stays_ordered_witness :
  (forall fresh, ~ In fresh (map id (loopSegments (sample_state "x"))) ->
                 segments_ok (loopSegments (handleAddSegment fresh (sample_state "x"))))
  /\ (forall id', segments_ok (loopSegments (handleRemoveSegment id' (sample_state "x"))))
  /\ segments_ok (loopSegments (handleClearSegments (sample_state "x")))
  /\ segments_ok (loopSegments (handleRemoveSelected (sample_state "x")))
  /\ loopSegments (handleNextSegment (sample_state "x")) = loopSegments (sample_state "x")
  /\ loopSegments (handlePrevSegment (sample_state "x")) = loopSegments (sample_state "x").
Proof.
  apply (segment_list_stays_ordered (sample_state "x")).
  split; [| split].
  - repeat constructor.
  - repeat constructor.
  - cbn. repeat constructor; cbn; intuition discriminate.
Defined.

Lemma selection_valid_remove (id' : string) (s : LooperState) :
  selection_valid s -> selection_valid (handleRemoveSegment id' s).
Proof.
  unfold selection_valid, handleRemoveSegment.
  cbn [selectedSegmentId loopSegments setSelectedSegmentId setLoopSegments].
  destruct (selectedSegmentId s) as [selected |]; [| auto].
  intros [segment [Hin Hid]].
  destruct (String.eqb selected id') eqn:Heq; [exact I |].
  exists segment. split; [| exact Hid].
  apply filter_In. split; [exact Hin |]. rewrite Hid, Heq. reflexivity.
Qed.

(** The selection never dangles: if it is empty or names a segment of
    the list, it still is after adding, removing, clearing, stepping,
    playing a segment of the list, or loading a link. *)
Theorem selection_never_dangles :
  forall s : LooperState,
    selection_valid s ->
    (forall fresh, selection_valid (handleAddSegment fresh s))
    /\ (forall id', selection_valid (handleRemoveSegment id' s))
    /\ selection_valid (handleClearSegments s)
    /\ selection_valid (handleRemoveSelected s)
    /\ selection_valid (handleNextSegment s)
    /\ selection_valid (handlePrevSegment s)
    /\ (forall playerRef segment,
           In segment (loopSegments s) ->
           selection_valid (fst (handleSegmentPlay playerRef segment s)))
    /\ (forall URL_parse JSON_parse ids,
           selection_valid (handleSubmit URL_parse JSON_parse ids s)).
Proof.
  intros s Hv.
  repeat match goal with |- _ /\ _ => split end.
  - intros fresh. destruct (canAddSegment s) eqn:Hcan.
    + rewrite (handleAddSegment_commit fresh s Hcan). unfold selection_valid.
      cbn [selectedSegmentId loopSegments resetDraft setDraftEndInput setDraftStartInput
             setDraftLabel setDraftEnd setDraftStart setSelectedSegmentId setLoopSegments].
      exists (newSegment fresh s). split; [| reflexivity].
      apply (Permutation_in (l := loopSegments s ++ [newSegment fresh s])).
      * apply Permutation_sym, sort_perm.
      * apply in_or_app. right. left. reflexivity.
    + unfold handleAddSegment. rewrite Hcan. exact Hv.
  - intros id'. apply selection_valid_remove. exact Hv.
  - exact I.
  - unfold handleRemoveSelected. destruct (selectedSegment s) as [selected |]; [| exact Hv].
    apply selection_valid_remove. exact Hv.
  - destruct (loopSegments s) as [| x t] eqn:Hl.
    + unfold handleNextSegment. rewrite Hl. exact Hv.
    + destruct (handleNextSegment_lands s) as [segment [Hin Hsel]]; [congruence |].
      unfold selection_valid. rewrite Hsel.
      exists segment. split; [| reflexivity].
      rewrite handleNextSegment_shape. exact Hin.
  - destruct (loopSegments s) as [| x t] eqn:Hl.
    + unfold handlePrevSegment. rewrite Hl. exact Hv.
    + destruct (handlePrevSegment_lands s) as [segment [Hin Hsel]]; [congruence |].
      unfold selection_valid. rewrite Hsel.
      exists segment. split; [| reflexivity].
      rewrite handlePrevSegment_shape. exact Hin.
  - intros playerRef segment Hin. unfold selection_valid. cbn.
    exists segment. split; [exact Hin | reflexivity].
  - intros URL_parse JSON_parse ids. unfold handleSubmit.
    destruct (negb (truthy (extractYouTubeId URL_parse (inputValue s)))); [exact Hv |].
    unfold selection_valid.
    cbn [selectedSegmentId loopSegments resetDraft setDraftEndInput setDraftStartInput
           setDraftLabel setDraftEnd setDraftStart setSelectedSegmentId setLoopSegments
           setIsInputDirty setIsPlaying setDuration setCurrentTime setVideoId setInputError].
    destruct (extractSegmentsFromInput JSON_parse URL_parse ids (inputValue s))
      as [| first rest]; cbn [hd_error option_map]; [exact I |].
    exists first. split; [left; reflexivity | reflexivity].
Qed.

Lemma selection_never_dangles_witness :
  (forall fresh, selection_valid (handleAddSegment fresh (sample_state "x")))
  /\ (forall id', selection_valid (handleRemoveSegment id' (sample_state "x")))
  /\ selection_valid (handleClearSegments (sample_state "x"))
  /\ selection_valid (handleRemoveSelected (sample_state "x"))
  /\ selection_valid (handleNextSegment (sample_state "x"))
  /\ selection_valid (handlePrevSegment (sample_state "x"))
  /\ (forall playerRef segment,
         In segment (loopSegments (sample_state "x")) ->
         selection_valid (fst (handleSegmentPlay playerRef segment (sample_state "x"))))
  /\ (forall URL_parse JSON_parse ids,
         selection_valid (handleSubmit URL_parse JSON_parse ids (sample_state "x"))).
Proof.
  apply (selection_never_dangles (sample_state "x")).
  exists (sample_segment "a" "Intro" 1 (5 # 2)). split; [left; reflexivity | reflexivity].
Defined.

Lemma selectedSegment_unselected (s : LooperState) :
  selectedSegmentId s = None -> selectedSegment s = None.
Proof.
  unfold selectedSegment. intros ->.
  induction (loopSegments s) as [| x t IH]; [reflexivity | exact IH].
Qed.

(** Removing the selected segment leaves no segment with its
    identifier and no selection; without a selected segment the
    handler changes nothing. *)
Theorem handleRemoveSelected_removes :
  forall s : LooperState,
    (forall selected, selectedSegment s = Some selected ->
       selectedSegmentId (handleRemoveSelected s) = None
       /\ selectedSegment (handleRemoveSelected s) = None
       /\ (forall segment, In segment (loopSegments (handleRemoveSelected s)) ->
                           id segment <> id selected)
       /\ (forall segment, In segment (loopSegments s) -> id segment <> id selected ->
                           In segment (loopSegments (handleRemoveSelected s))))
    /\ (selectedSegment s = None -> handleRemoveSelected s = s).
Proof.
  intros s. split.
  - intros selected Hsel. unfold handleRemoveSelected. rewrite Hsel.
    apply selectedSegment_Some in Hsel. destruct Hsel as [Hin Hid].
    unfold handleRemoveSegment. rewrite Hid, String.eqb_refl.
    split; [reflexivity |]. split; [apply selectedSegment_unselected; reflexivity |].
    cbn [loopSegments setSelectedSegmentId setLoopSegments]. split.
    + intros segment Hs. apply filter_In in Hs. destruct Hs as [_ Hs].
      apply negb_true_iff, String.eqb_neq in Hs. exact Hs.
    + intros segment Hs Hne. apply filter_In. split; [exact Hs |].
      apply negb_true_iff, String.eqb_neq. exact Hne.
  - intros Hnone. unfold handleRemoveSelected. rewrite Hnone. reflexivity.
Qed.

(** ** Where a new segment goes, and whether it loops *)

Lemma by_start_not_le (a b : LoopSegment) :
  Number_isNaN (start a) = false -> Number_isNaN (start b) = false ->
  num_le (start a) (start b) = false -> num_gt (by_start a b) (Fin 0) = true.
Proof.
  unfold by_start, num_gt.
  destruct (start a), (start b); simpl; try congruence.
  intros _ _. rewrite Qle_bool_gt, Qltb_lt. lra.
Qed.

Lemma sort_insert_front (y : LoopSegment) (l : list LoopSegment) :
  (forall h rest, l = h :: rest -> num_le (start y) (start h) = true) ->
  sort_insert by_start y l = y :: l.
Proof.
  destruct l as [| h rest]; cbn [sort_insert]; [reflexivity |].
  intros H. rewrite (by_start_le y h (H h rest eq_refl)). reflexivity.
Qed.

Lemma filter_none (A : Type) (p : A -> bool) (l : list A) :
  (forall x, In x l -> p x = false) -> filter p l = [].
Proof.
  induction l as [| x t IH]; cbn [filter]; [reflexivity |].
  intros H. rewrite (H x (or_introl eq_refl)). apply IH. intros y Hy. apply H. right. exact Hy.
Qed.

Lemma filter_all (A : Type) (p : A -> bool) (l : list A) :
  (forall x, In x l -> p x = true) -> filter p l = l.
Proof.
  induction l as [| x t IH]; cbn [filter]; [reflexivity |].
  intros H. rewrite (H x (or_introl eq_refl)). f_equal. apply IH.
  intros y Hy. apply H. right. exact Hy.
Qed.

Lemma sort_append (x : LoopSegment) (l : list LoopSegment) :
  Number_isNaN (start x) = false -> starts_comparable l -> ascending l ->
  sort by_start (l ++ [x])
  = (filter (fun y => num_le (start y) (start x)) l
     ++ x :: filter (fun y => negb (num_le (start y) (start x))) l)%list.
Proof.
  intros Hx Hc Ha. unfold ascending in Ha.
  apply Sorted_StronglySorted in Ha;
    [| intros a b c Hab Hbc; exact (num_le_trans _ _ _ Hab Hbc)].
  induction Ha as [| y t Hs IH Hall]; [reflexivity |].
  inversion Hc as [| ? ? Hy Hct]; subst.
  rewrite Forall_forall in Hall.
  cbn [app sort fold_right]. change (fold_right (sort_insert by_start) [] (t ++ [x]))
    with (sort by_start (t ++ [x])). rewrite (IH Hct). cbn [filter].
  destruct (num_le (start y) (start x)) eqn:Hle; cbn [negb app].
  - apply sort_insert_front. intros h rest Hh.
    destruct (filter (fun y0 => num_le (start y0) (start x)) t) as [| a A] eqn:Hf;
      cbn [app] in Hh; inversion Hh; subst.
    + exact Hle.
    + apply Hall. assert (Hin : In h (h :: A)) by (left; reflexivity).
      rewrite <- Hf in Hin. apply filter_In in Hin. tauto.
  - assert (Hnone : forall a, In a t -> num_le (start a) (start x) = false).
    { intros a Hin. destruct (num_le (start a) (start x)) eqn:Hax; [| reflexivity].
      rewrite (num_le_trans _ _ _ (Hall a Hin) Hax) in Hle. discriminate. }
    rewrite (filter_none _ _ _ Hnone).
    rewrite (filter_all _ (fun y0 => negb (num_le (start y0) (start x))) t)
      by (intros a Hin; rewrite (Hnone a Hin); reflexivity).
    cbn [app sort_insert]. rewrite (by_start_not_le y x Hy Hx Hle). f_equal.
    apply sort_insert_front. intros h rest Hh. apply Hall. rewrite Hh. left. reflexivity.
Qed.

(** A new segment is put behind the segments that start no later than
    it does and before those that start later; the segments that were
    there keep their order. *)
Theorem handleAddSegment_insertion_point :
  forall (fresh : string) (s : LooperState),
    canAddSegment s = true ->
    starts_comparable (loopSegments s) -> ascending (loopSegments s) ->
    loopSegments (handleAddSegment fresh s)
    = (filter (fun y => num_le (start y) (start (newSegment fresh s))) (loopSegments s)
       ++ newSegment fresh s
          :: filter (fun y => negb (num_le (start y) (start (newSegment fresh s))))
               (loopSegments s))%list.
Proof.
  intros fresh s Hcan Hc Ha. rewrite (handleAddSegment_commit fresh s Hcan).
  cbn [loopSegments resetDraft setDraftEndInput setDraftStartInput setDraftLabel
         setDraftEnd setDraftStart setSelectedSegmentId setLoopSegments].
  apply sort_append; [apply newSegment_start_not_NaN; exact Hcan | exact Hc | exact Ha].
Qed.

Lemma handleAddSegment_insertion_point_witness :
  loopSegments (handleAddSegment "c" sample_draft)
  = (filter (fun y => num_le (start y) (start (newSegment "c" sample_draft)))
       (loopSegments sample_draft)
     ++ newSegment "c" sample_draft
        :: filter (fun y => negb (num_le (start y) (start (newSegment "c" sample_draft))))
             (loopSegments sample_draft))%list.
Proof.
  apply (handleAddSegment_insertion_point "c" sample_draft).
  - vm_compute. reflexivity.
  - repeat constructor.
  - repeat constructor.
Defined.

Lemma num_sub_compat (a a' b b' : number) :
  num_eq a a' -> num_eq b b' -> num_eq (num_sub a b) (num_sub a' b').
Proof.
  unfold num_sub. destruct a, a', b, b'; simpl; try contradiction; auto.
  intros H1 H2. rewrite H1, H2. reflexivity.
Qed.

Lemma Math_min_ge (a b : number) : num_le b a = true -> num_eq (Math_min a b) b.
Proof.
  destruct a as [| | | x], b as [| | | y]; simpl; try discriminate;
    try (intros _; exact I); try (intros _; reflexivity).
  unfold Qltb. intros H. destruct (Qle_bool x y) eqn:E; simpl.
  - apply Qle_bool_iff in H, E. apply Qle_antisym; assumption.
  - reflexivity.
Qed.

Lemma Math_min_eq (a b c : number) :
  num_eq a c -> num_eq b c -> num_eq (Math_min a b) c.
Proof.
  destruct a as [| | | x], b as [| | | y], c; simpl; try contradiction; auto.
  intros H1 H2. destruct (Qltb y x); assumption.
Qed.

Lemma Math_max_eq (a b c : number) :
  num_eq a c -> num_eq b c -> num_eq (Math_max a b) c.
Proof.
  destruct a as [| | | x], b as [| | | y], c; simpl; try contradiction; auto.
  intros H1 H2. destruct (Qltb x y); assumption.
Qed.

Lemma num_lt_irrefl (a : number) : num_lt a a = false.
Proof.
  destruct a; simpl; try reflexivity. apply Qltb_ge. apply Qle_refl.
Qed.

Lemma find_fresh (p : LoopSegment -> bool) (l l' : list LoopSegment) (x : LoopSegment) :
  Permutation l' (x :: l) -> p x = true -> (forall y, In y l -> p y = false) ->
  find p l' = Some x.
Proof.
  intros Hperm Hx Hl.
  destruct (find_In _ p l' x) as [y Hy].
  - apply (Permutation_in (l := x :: l)); [apply Permutation_sym; exact Hperm |].
    left. reflexivity.
  - exact Hx.
  - rewrite Hy. apply find_some in Hy. destruct Hy as [Hin Hp].
    apply (Permutation_in _ Hperm) in Hin. destruct Hin as [-> | Hin]; [reflexivity |].
    rewrite (Hl y Hin) in Hp. discriminate.
Qed.

Lemma added_segment_selected (fresh : string) (s : LooperState) :
  canAddSegment s = true -> ~ In fresh (map id (loopSegments s)) ->
  selectedSegment (handleAddSegment fresh s) = Some (newSegment fresh s).
Proof.
  intros Hcan Hfresh. rewrite (handleAddSegment_commit fresh s Hcan).
  unfold selectedSegment.
  cbn [selectedSegmentId loopSegments resetDraft setDraftEndInput setDraftStartInput
         setDraftLabel setDraftEnd setDraftStart setSelectedSegmentId setLoopSegments].
  apply (find_fresh _ (loopSegments s)).
  - apply (Permutation_trans (l' := loopSegments s ++ [newSegment fresh s])).
    + apply sort_perm.
    + apply Permutation_sym, Permutation_cons_append.
  - apply String.eqb_refl.
  - intros y Hy. apply String.eqb_neq. intros E. apply Hfresh. rewrite <- E.
    apply in_map. exact Hy.
Qed.

Section AddedSegment.

(** A segment added from a draft that lies within the video, or added
    while the duration is not known, is selected with the bounds of the
    draft, and the player loops it: a tick that finds the playback
    within 0.15 seconds of its end seeks to its start. *)
Theorem added_segment_loops :
  forall (fresh : string) (s : LooperState) (ds de : number),
    draftStart s = Some ds -> draftEnd s = Some de ->
    num_ge (num_sub de ds) (Fin (2 # 10)) = true ->
    ~ In fresh (map id (loopSegments s)) ->
    (num_gt (duration s) (Fin 0) = true ->
     num_le (Fin 0) ds = true /\ num_le de (duration s) = true) ->
    loopingEnabled s = true ->
    exists r : YouTubePlayer.LoopRange,
      loopRange (handleAddSegment fresh s) = Some r
      /\ num_eq (YouTubePlayer.start r) ds /\ num_eq (YouTubePlayer.end_ r) de
      /\ isLooping (handleAddSegment fresh s) = true
      /\ forall (p : YouTubePlayer.YouTubePlayerInstance) (onTimeUpdate : bool),
           num_ge (YouTubePlayer.getCurrentTime p)
                  (num_sub (YouTubePlayer.end_ r) YouTubePlayer.LOOP_THRESHOLD) = true ->
           In (YouTubePlayer.SeekTo (YouTubePlayer.start r) true)
              (YouTubePlayer.poll_tick (Some p) onTimeUpdate (isLooping (handleAddSegment fresh s))
                 (loopRange (handleAddSegment fresh s))).
Proof.
  intros fresh s ds de Hs He Hlen Hfresh Hwithin Hloop.
  assert (Hcan : canAddSegment s = true)
    by (apply canAddSegment_iff; exists ds, de; auto).
  pose proof (added_segment_selected fresh s Hcan Hfresh) as Hsel.
  destruct (length_guard_not_NaN _ _ Hlen) as [Hds Hde].
  pose proof (length_guard_gt _ _ Hlen) as Hgt.
  assert (Hle : num_le ds de = true) by (apply num_lt_le; exact Hgt).
  assert (Hb : num_eq (bounded (duration s) (Some ds)) ds
               /\ num_eq (bounded (duration s) (Some de)) de).
  { unfold bounded, or_zero. destruct (num_gt (duration s) (Fin 0)) eqn:Hd.
    - destruct (Hwithin eq_refl) as [H0 Hdur].
      assert (H0e : num_le (Fin 0) de = true) by (apply (num_le_trans _ ds); assumption).
      assert (Hsd : num_le ds (duration s) = true) by (apply (num_le_trans _ de); assumption).
      split.
      + apply (num_eq_trans _ (Math_max (Fin 0) ds)); [| apply Math_max_zero; exact H0].
        apply Math_min_le.
        rewrite (num_le_compat _ ds _ (duration s)); [exact Hsd | |].
        * apply Math_max_zero; exact H0.
        * apply num_eq_refl.
      + apply (num_eq_trans _ (Math_max (Fin 0) de)); [| apply Math_max_zero; exact H0e].
        apply Math_min_le.
        rewrite (num_le_compat _ de _ (duration s)); [exact Hdur | |].
        * apply Math_max_zero; exact H0e.
        * apply num_eq_refl.
    - split; apply num_eq_refl. }
  destruct Hb as [Hbs Hbe].
  assert (Hble : num_le (bounded (duration s) (Some ds)) (bounded (duration s) (Some de)) = true)
    by (rewrite (num_le_compat _ _ _ _ Hbs Hbe); exact Hle).
  assert (Hstart : num_eq (start (newSegment fresh s)) ds).
  { cbn [start newSegment]. rewrite Hs, He.
    apply (num_eq_trans _ (bounded (duration s) (Some ds))); [| exact Hbs].
    apply Math_min_le. exact Hble. }
  assert (Hend : num_eq (end_ (newSegment fresh s)) de).
  { cbn [end_ newSegment]. rewrite Hs, He.
    apply (num_eq_trans _ (bounded (duration s) (Some de))); [| exact Hbe].
    apply Math_max_le. exact Hble. }
  unfold isLooping, loopRange. rewrite Hsel.
  assert (Hl : loopingEnabled (handleAddSegment fresh s) = true)
    by (rewrite (handleAddSegment_commit fresh s Hcan); exact Hloop).
  rewrite Hl. eexists. split; [reflexivity |].
  cbn [YouTubePlayer.start YouTubePlayer.end_]. split; [exact Hstart |]. split; [exact Hend |].
  split; [reflexivity |].
  intros p onTimeUpdate Ht. unfold YouTubePlayer.poll_tick.
  cbn [option_map YouTubePlayer.start YouTubePlayer.end_ andb].
  assert (Hgt' : num_gt (end_ (newSegment fresh s))
                        (start (newSegment fresh s)) = true).
  { unfold num_gt. rewrite (num_lt_compat _ _ _ _ Hstart Hend). exact Hgt. }
  rewrite Hgt', Ht. apply in_or_app. right. left. reflexivity.
Qed.

(** A draft that lies past the end of the video is still committed,
    as a segment whose start and end are both the duration; the player
    never loops such a segment. *)
Theorem draft_past_the_end_never_loops :
  forall (fresh : string) (s : LooperState) (ds de : number),
    draftStart s = Some ds -> draftEnd s = Some de ->
    num_ge (num_sub de ds) (Fin (2 # 10)) = true ->
    ~ In fresh (map id (loopSegments s)) ->
    num_gt (duration s) (Fin 0) = true -> num_le (duration s) ds = true ->
    exists r : YouTubePlayer.LoopRange,
      loopRange (handleAddSegment fresh s) = Some r
      /\ num_eq (YouTubePlayer.start r) (duration s) /\ num_eq (YouTubePlayer.end_ r) (duration s)
      /\ forall (p : YouTubePlayer.YouTubePlayerInstance) (onTimeUpdate looping : bool)
                (seconds : number) (allow : bool),
           ~ In (YouTubePlayer.SeekTo seconds allow) (YouTubePlayer.poll_tick (Some p) onTimeUpdate looping (Some r)).
Proof.
  intros fresh s ds de Hs He Hlen Hfresh Hd Hpast.
  assert (Hcan : canAddSegment s = true)
    by (apply canAddSegment_iff; exists ds, de; auto).
  pose proof (added_segment_selected fresh s Hcan Hfresh) as Hsel.
  pose proof (length_guard_gt _ _ Hlen) as Hgt.
  assert (Hle : num_le ds de = true) by (apply num_lt_le; exact Hgt).
  assert (H0d : num_le (Fin 0) (duration s) = true) by (apply num_lt_le; exact Hd).
  assert (Hclamp : forall x, num_le (duration s) x = true ->
                             num_eq (bounded (duration s) (Some x)) (duration s)).
  { intros x Hx. unfold bounded, or_zero. rewrite Hd.
    assert (H0x : num_le (Fin 0) x = true) by (apply (num_le_trans _ (duration s)); assumption).
    apply Math_min_ge.
    rewrite (num_le_compat _ (duration s) _ x); [exact Hx | apply num_eq_refl |].
    apply Math_max_zero. exact H0x. }
  pose proof (Hclamp ds Hpast) as Hbs.
  pose proof (Hclamp de (num_le_trans _ _ _ Hpast Hle)) as Hbe.
  assert (Hstart : num_eq (start (newSegment fresh s)) (duration s)).
  { cbn [start newSegment]. rewrite Hs, He. apply Math_min_eq; assumption. }
  assert (Hend : num_eq (end_ (newSegment fresh s)) (duration s)).
  { cbn [end_ newSegment]. rewrite Hs, He. apply Math_max_eq; assumption. }
  unfold loopRange. rewrite Hsel. eexists. split; [reflexivity |].
  cbn [YouTubePlayer.start YouTubePlayer.end_]. split; [exact Hstart |]. split; [exact Hend |].
  intros p onTimeUpdate looping seconds allow. unfold YouTubePlayer.poll_tick.
  cbn [option_map YouTubePlayer.start YouTubePlayer.end_].
  assert (Hgt' : num_gt (end_ (newSegment fresh s))
                        (start (newSegment fresh s)) = false).
  { unfold num_gt. rewrite (num_lt_compat _ _ _ _ Hstart Hend). apply num_lt_irrefl. }
  rewrite Hgt', andb_false_r, app_nil_r.
  destruct onTimeUpdate; cbn; intuition discriminate.
Qed.

End AddedSegment.

Lemma added_segment_loops_witness :
  exists r : YouTubePlayer.LoopRange,
    loopRange (handleAddSegment "c" sample_draft) = Some r
    /\ num_eq (YouTubePlayer.start r) (Fin (inject_Z 200))
    /\ num_eq (YouTubePlayer.end_ r) (Fin (inject_Z 205))
    /\ isLooping (handleAddSegment "c" sample_draft) = true
    /\ forall (p : YouTubePlayer.YouTubePlayerInstance) (onTimeUpdate : bool),
         num_ge (YouTubePlayer.getCurrentTime p)
                (num_sub (YouTubePlayer.end_ r) YouTubePlayer.LOOP_THRESHOLD) = true ->
         In (YouTubePlayer.SeekTo (YouTubePlayer.start r) true)
            (YouTubePlayer.poll_tick (Some p) onTimeUpdate
               (isLooping (handleAddSegment "c" sample_draft))
               (loopRange (handleAddSegment "c" sample_draft))).
Proof.
  apply (added_segment_loops "c" sample_draft (Fin (inject_Z 200)) (Fin (inject_Z 205))).
  - reflexivity.
  - reflexivity.
  - vm_compute. reflexivity.
  - cbn. intuition discriminate.
  - intros _. split; vm_compute; reflexivity.
  - reflexivity.
Defined.

Lemma draft_past_the_end_never_loops_witness :
  exists r : YouTubePlayer.LoopRange,
    loopRange (handleAddSegment "c" sample_late_draft) = Some r
    /\ num_eq (YouTubePlayer.start r) (duration sample_late_draft)
    /\ num_eq (YouTubePlayer.end_ r) (duration sample_late_draft)
    /\ forall (p : YouTubePlayer.YouTubePlayerInstance) (onTimeUpdate looping : bool)
              (seconds : number) (allow : bool),
         ~ In (YouTubePlayer.SeekTo seconds allow)
              (YouTubePlayer.poll_tick (Some p) onTimeUpdate looping (Some r)).
Proof.
  apply (draft_past_the_end_never_loops "c" sample_late_draft
           (Fin (inject_Z 12)) (Fin (inject_Z 13))).
  - reflexivity.
  - reflexivity.
  - vm_compute. reflexivity.
  - cbn. intuition discriminate.
  - vm_compute. reflexivity.
  - vm_compute. reflexivity.
Defined.

(** ** Marking, timing and the playback controls *)

Lemma mark_reads_back (t : Q) :
  0 <= t -> t < ten21 -> num_lt (round2 (Fin t)) (Fin ten21) = true ->
  exists v,
    parseTimestampInput (formatTimestampInput (Some (round2 (Fin t)))) = Some v
    /\ num_eq v (round2 (Fin t)).
Proof.
  intros H0 H21 Hround.
  pose proof (round2_fixed t H0 H21) as Hs.
  pose proof (Qfloor_half_nonneg t H0) as Hn0.
  set (n := Qfloor (t * inject_Z 100 + (1 # 2))) in *.
  assert (Hn23 : (n < 100000000000000000000000)%Z).
  { rewrite Hs in Hround. unfold hundredths in Hround. cbn [num_lt] in Hround.
    apply Qltb_lt in Hround. rewrite ten21_value in Hround.
    unfold Qlt in Hround. cbn [Qnum Qden] in Hround. lia. }
  rewrite Hs.
  destruct (Z.eq_dec n 0) as [Hz | Hnz].
  - rewrite Hz. eexists. split; vm_compute; reflexivity.
  - unfold hundredths at 1.
    rewrite (formatTimestampInput_hundredths n ltac:(lia) (n # 100)
               (round2_hundredths n ltac:(lia))).
    apply parseTimestampInput_text. lia.
Qed.



Lemma Math_max_zero_le (x : number) :
  Number_isNaN x = false -> num_le (Fin 0) (Math_max (Fin 0) x) = true.
Proof.
  intros Hx. destruct (Math_max_cases (Fin 0) x eq_refl Hx) as [[-> H] | [-> H]].
  - apply num_lt_le. exact H.
  - reflexivity.
Qed.

Lemma Math_min_bounds (c x : number) :
  num_le (Fin 0) c = true -> num_le (Fin 0) x = true ->
  num_le (Fin 0) (Math_min c x) = true /\ num_le (Math_min c x) c = true.
Proof.
  intros Hc Hx.
  destruct (num_le_not_NaN _ _ Hc) as [_ Hc'].
  destruct (num_le_not_NaN _ _ Hx) as [_ Hx'].
  destruct (Math_min_cases c x Hc' Hx') as [[-> H] | [-> H]].
  - split; [exact Hx | apply num_lt_le; exact H].
  - split; [exact Hc | apply num_le_refl; exact Hc'].
Qed.

Lemma ratio_not_NaN (c d : number) :
  Number_isFinite c = true -> num_gt d (Fin 0) = true ->
  Number_isNaN (num_mul (num_div c d) (Fin (inject_Z 100))) = false.
Proof.
  unfold num_gt. destruct c as [| | | x]; try discriminate.
  destruct d as [| | | y]; simpl; try discriminate; intros _ Hd; [reflexivity |].
  destruct (Qeq_bool y 0) eqn:Hy; [| reflexivity].
  apply Qeq_bool_iff in Hy. apply Qltb_lt in Hd. rewrite Hy in Hd.
  exfalso. exact (Qlt_irrefl 0 Hd).
Qed.

(** The progress shown lies between 0 and 100 whenever the playback
    position is finite, also after a time update; and a time update
    never replaces a positive duration by one that is not. *)
Theorem progress_stays_in_range :
  forall s : LooperState,
    Number_isFinite (currentTime s) = true ->
    (num_le (Fin 0) (progressPercent s) = true
     /\ num_le (progressPercent s) (Fin (inject_Z 100)) = true)
    /\ (forall time total,
           Number_isFinite time = true ->
           num_le (Fin 0) (progressPercent (handleTimeUpdate time total s)) = true
           /\ num_le (progressPercent (handleTimeUpdate time total s))
                     (Fin (inject_Z 100)) = true)
    /\ (forall time total,
           num_gt (duration s) (Fin 0) = true ->
           num_gt (duration (handleTimeUpdate time total s)) (Fin 0) = true).
Proof.
  assert (Hrange : forall s, Number_isFinite (currentTime s) = true ->
             num_le (Fin 0) (progressPercent s) = true
             /\ num_le (progressPercent s) (Fin (inject_Z 100)) = true).
  { intros s Hc. unfold progressPercent.
    destruct (num_gt (duration s) (Fin 0)) eqn:Hd; [| split; reflexivity].
    apply Math_min_bounds; [reflexivity |].
    apply Math_max_zero_le. apply ratio_not_NaN; assumption. }
  intros s Hc. split; [exact (Hrange s Hc) |]. split.
  - intros time total Ht. apply Hrange. unfold handleTimeUpdate.
    destruct (num_gt total (Fin 0)); exact Ht.
  - intros time total Hd. unfold handleTimeUpdate.
    destruct (num_gt total (Fin 0)) eqn:Ht; [exact Ht | exact Hd].
Qed.

Lemma progress_stays_in_range_witness :
  (num_le (Fin 0) (progressPercent (sample_state "x")) = true
   /\ num_le (progressPercent (sample_state "x")) (Fin (inject_Z 100)) = true)
  /\ (forall time total,
         Number_isFinite time = true ->
         num_le (Fin 0) (progressPercent (handleTimeUpdate time total (sample_state "x"))) = true
         /\ num_le (progressPercent (handleTimeUpdate time total (sample_state "x")))
                   (Fin (inject_Z 100)) = true)
  /\ (forall time total,
         num_gt (duration (sample_state "x")) (Fin 0) = true ->
         num_gt (duration (handleTimeUpdate time total (sample_state "x"))) (Fin 0) = true).
Proof.
  apply (progress_stays_in_range (sample_state "x")). reflexivity.
Defined.

(** A text that is not a number leaves the playback rate as it is, so
    the rate never becomes [NaN]; a blank text, which [Number] reads as
    zero, sets the rate to zero. *)
Theorem playback_rate_is_never_NaN :
  forall (value : string) (s : LooperState),
    (Number_isNaN (StringToNumber value) = true -> handlePlaybackRateChange value s = s)
    /\ (Number_isNaN (playbackRate s) = false ->
        Number_isNaN (playbackRate (handlePlaybackRateChange value s)) = false)
    /\ (Str.is_empty (Str.trim value) = true ->
        playbackRate (handlePlaybackRateChange value s) = Fin 0).
Proof.
  intros value s. unfold handlePlaybackRateChange. split; [| split].
  - intros H. rewrite H. reflexivity.
  - intros H. destruct (Number_isNaN (StringToNumber value)) eqn:E; cbn [negb].
    + exact H.
    + exact E.
  - intros H. unfold StringToNumber. rewrite H. reflexivity.
Qed.

(** ** What a link carries *)

Lemma decode_encode_char (c : ascii) (t : string) :
  Host.utf8_decode (Host.percent_decode true (Host.urlencode_char c ++ t))
  = String c (Host.utf8_decode (Host.percent_decode true t)).
Proof. destruct c as [[] [] [] [] [] [] [] []]; reflexivity. Qed.

(** Decoding a form-encoded text gives the text back. *)
Lemma form_decode_urlencode (s : string) : Host.form_decode (Host.urlencode s) = s.
Proof.
  unfold Host.form_decode. induction s as [| c r IH]; [reflexivity |].
  cbn [Host.urlencode]. rewrite decode_encode_char, IH. reflexivity.
Qed.

Lemma watch_query_segments (videoId : string) (serialized : option string) :
  Str.all is_id_char videoId = true ->
  searchParams_get SEGMENTS_PARAM (Host.parse_query (watch_query videoId serialized))
  = match serialized with
    | Some text => if Str.is_empty text then None else Some text
    | None => None
    end.
Proof.
  intros Hid.
  assert (Hamp : Str.all (fun c => negb (Ascii.eqb c "&")) ("v=" ++ videoId) = true).
  { change ("v=" ++ videoId)%string with (String "v" (String "=" videoId)).
    cbn [Str.all]. change (negb (Ascii.eqb "v" "&") && (negb (Ascii.eqb "=" "&") && ?x)) with x.
    apply (all_impl field_char); [apply field_char_not_amp |].
    apply (all_impl is_id_char); [apply id_char_field | exact Hid]. }
  assert (Hpair : Host.parse_pair ("v=" ++ videoId) = ("v", videoId)).
  { unfold Host.parse_pair. change ("v=" ++ videoId)%string with ("v" ++ String "=" videoId)%string.
    rewrite span_app_stop by reflexivity.
    rewrite (form_decode_id videoId Hid). reflexivity. }
  assert (Hone : searchParams_get SEGMENTS_PARAM
                   (map Host.parse_pair (filter_Boolean [("v=" ++ videoId)%string]))
                 = None).
  { cbn [filter_Boolean filter Str.is_empty append negb map].
    change (String "v" (String "=" videoId)) with ("v=" ++ videoId)%string.
    rewrite Hpair. reflexivity. }
  unfold watch_query, Host.parse_query.
  destruct serialized as [text |].
  - destruct (Str.is_empty text) eqn:Hempty.
    + rewrite append_empty_r, (split_no_sep _ _ Hamp). exact Hone.
    + change ("v=" ++ videoId ++ "&segments=" ++ Host.urlencode text)%string
        with ("v=" ++ videoId ++ String "&" ("segments=" ++ Host.urlencode text))%string.
      rewrite <- (append_assoc "v=" videoId), (split_app_sep _ _ _ Hamp).
      assert (Hamp2 : Str.all (fun c => negb (Ascii.eqb c "&"))
                        ("segments=" ++ Host.urlencode text) = true).
      { rewrite all_app. apply andb_true_iff. split; [reflexivity |].
        apply (all_impl field_char); [apply field_char_not_amp | apply urlencode_field]. }
      rewrite (split_no_sep _ _ Hamp2).
      cbn [filter_Boolean filter Str.is_empty append negb map].
      change (String "v" (String "=" videoId)) with ("v=" ++ videoId)%string.
      rewrite Hpair.
      change (String "s" (String "e" (String "g" (String "m" (String "e" (String "n"
                (String "t" (String "s" (String "=" (Host.urlencode text))))))))))
        with ("segments" ++ String "=" (Host.urlencode text))%string.
      unfold Host.parse_pair. rewrite span_app_stop by reflexivity.
      rewrite form_decode_urlencode. reflexivity.
  - rewrite append_empty_r, (split_no_sep _ _ Hamp). exact Hone.
Qed.

Lemma plain_clean (s : string) :
  Str.all plain s = true -> Str.all (fun c => negb (Str.is_white_space c)) s = true.
Proof. apply all_impl. apply plain_not_white_space. Qed.

(** A watch link whose query gives [v] an identifier is read by the
    extractor as that identifier. *)
Lemma extractYouTubeId_watch (q videoId : string) :
  Str.all plain q = true -> YOUTUBE_ID_PATTERN videoId = true ->
  searchParams_get "v" (Host.parse_query q) = Some videoId ->
  extractYouTubeId Host.URL_parse (WATCH_PREFIX ++ q) = Some videoId.
Proof.
  intros Hq Hpat Hv.
  assert (Htrim : Str.trim (WATCH_PREFIX ++ q) = (WATCH_PREFIX ++ q)%string).
  { apply trim_clean. apply plain_clean. rewrite all_app, Hq. reflexivity. }
  rewrite extractYouTubeId_of_url; rewrite Htrim.
  - rewrite (URL_parse_watch q Hq). cbn [Str.is_empty WATCH_PREFIX append].
    unfold url_candidates. cbn -[searchParams_get Host.parse_query first_valid].
    rewrite Hv. cbn [app first_valid].
    unfold normalizeYouTubeId.
    rewrite (pattern_not_empty _ Hpat), (pattern_trim _ Hpat), Hpat. reflexivity.
  - unfold YOUTUBE_ID_PATTERN, WATCH_PREFIX. cbn [append String.length Nat.eqb andb].
    reflexivity.
Qed.

Section LinkCarries.

Variable JSON_parse : string -> Completion json.
Variable JSON_stringify : json -> Completion string.
Variable ids : nat -> string.

Lemma parseSegmentsParam_blank (serialized : option string) :
  parseSegmentsParam JSON_parse ids
    match serialized with
    | Some text => if Str.is_empty text then None else Some text
    | None => None
    end
  = parseSegmentsParam JSON_parse ids serialized.
Proof.
  destruct serialized as [text |]; [| reflexivity].
  destruct (Str.is_empty text) eqn:Hempty; [| reflexivity].
  unfold parseSegmentsParam. rewrite Hempty. reflexivity.
Qed.

Lemma extractSegmentsFromInput_link (videoId : string) (segments : list LoopSegment) :
  YOUTUBE_ID_PATTERN videoId = true ->
  extractSegmentsFromInput JSON_parse Host.URL_parse ids
    (buildVideoLink JSON_stringify Host.URLSearchParams_toString videoId segments)
  = parseSegmentsParam JSON_parse ids (serializeSegments JSON_stringify segments).
Proof.
  intros Hpat.
  pose proof (pattern_id_chars _ Hpat) as Hid.
  rewrite (buildVideoLink_watch JSON_stringify videoId segments Hid).
  unfold extractSegmentsFromInput.
  rewrite (URL_parse_watch _ (watch_query_plain videoId _ Hid)).
  cbn [bind try_catch searchParams].
  rewrite (watch_query_segments videoId _ Hid). apply parseSegmentsParam_blank.
Qed.

(** The link built for an identifier and a list of segments carries
    the encoding of the list unharmed: reading the segments off the
    link is decoding what [serializeSegments] wrote, whatever the JSON
    services do; a link built without segments gives none. *)
Theorem link_carries_the_encoding :
  forall (videoId : string) (segments : list LoopSegment),
    YOUTUBE_ID_PATTERN videoId = true ->
    extractSegmentsFromInput JSON_parse Host.URL_parse ids
      (buildVideoLink JSON_stringify Host.URLSearchParams_toString videoId segments)
    = parseSegmentsParam JSON_parse ids (serializeSegments JSON_stringify segments)
    /\ extractSegmentsFromInput JSON_parse Host.URL_parse ids
         (buildVideoLink JSON_stringify Host.URLSearchParams_toString videoId [])
       = [].
Proof.
  intros videoId segments Hpat. split.
  - apply extractSegmentsFromInput_link. exact Hpat.
  - rewrite (extractSegmentsFromInput_link videoId [] Hpat). reflexivity.
Qed.

(** Decoding a text that [JSON.parse] reads as the payload of [L]. *)
Lemma parseSegmentsParam_payload (L : list LoopSegment) (text : string) (v : json) :
  Forall sanitized L -> Forall well_ordered L -> ascending L ->
  Str.is_empty text = false -> JSON_parse text = Normal v ->
  json_equiv v (payload L) ->
  same_triples (parseSegmentsParam JSON_parse ids (Some text)) L.
Proof.
  intros Hsan Hord Hasc Hne Hp Heq.
  unfold parseSegmentsParam. rewrite Hne. unfold parseSegmentsParam_try. rewrite Hp.
  cbn [bind]. unfold payload in Heq.
  destruct (json_equiv_array _ _ Heq) as [entries [-> Hent]]. cbn [try_catch].
  pose proof (map_entries_round_trip JSON_parse JSON_stringify ids L Hsan Hord entries 0 0 Hent)
    as Hsame.
  rewrite sort_ascending_id; [exact Hsame |].
  eapply same_triples_ascending; eassumption.
Qed.

Lemma decode_serialized (L : list LoopSegment) :
  Forall sanitized L -> Forall well_ordered L -> ascending L ->
  JSON_round_trips JSON_parse JSON_stringify (payload L) ->
  same_triples (parseSegmentsParam JSON_parse ids (serializeSegments JSON_stringify L)) L.
Proof.
  intros Hsan Hord Hasc [text [v' [Hs [Hne [Hp Heq]]]]].
  destruct L as [| s0 L']; [constructor |].
  unfold serializeSegments. cbn [List.length Nat.eqb]. rewrite Hs. cbn [bind try_catch].
  exact (parseSegmentsParam_payload _ text v' Hsan Hord Hasc Hne Hp Heq).
Qed.

(** The text the input field shows reloads the session: once the
    field has been synchronised, submitting it loads the same video
    and segments with the same labels and bounds, provided the
    segments are sanitized and in order and the JSON services read
    back what they write. *)
Theorem submitting_the_shown_link_reloads :
  forall s : LooperState,
    valid_video s -> videoId s <> None -> isInputDirty s = false ->
    Forall sanitized (loopSegments s) -> Forall well_ordered (loopSegments s) ->
    ascending (loopSegments s) ->
    JSON_round_trips JSON_parse JSON_stringify (payload (loopSegments s)) ->
    videoId (handleSubmit Host.URL_parse JSON_parse ids
               (syncInputValue JSON_stringify Host.URLSearchParams_toString s))
    = videoId s
    /\ same_triples
         (loopSegments (handleSubmit Host.URL_parse JSON_parse ids
                          (syncInputValue JSON_stringify Host.URLSearchParams_toString s)))
         (loopSegments s)
    /\ inputError (handleSubmit Host.URL_parse JSON_parse ids
                     (syncInputValue JSON_stringify Host.URLSearchParams_toString s))
       = None.
Proof.
  intros s Hvalid Hsome Hclean Hsan Hord Hasc Hjson.
  unfold valid_video in Hvalid.
  destruct (videoId s) as [v |] eqn:Hv; [| congruence].
  pose proof (pattern_id_chars _ Hvalid) as Hid.
  unfold syncInputValue. rewrite Hv, Hclean. cbn [truthy].
  rewrite (pattern_not_empty _ Hvalid). cbn [negb orb].
  set (link := buildVideoLink JSON_stringify Host.URLSearchParams_toString v (loopSegments s)).
  assert (Hex : extractYouTubeId Host.URL_parse link = Some v).
  { unfold link. rewrite (buildVideoLink_watch JSON_stringify v _ Hid).
    apply extractYouTubeId_watch.
    - apply watch_query_plain. exact Hid.
    - exact Hvalid.
    - apply watch_query_v. exact Hid. }
  unfold handleSubmit. cbn [inputValue setInputValue]. rewrite Hex. cbn [truthy].
  rewrite (pattern_not_empty _ Hvalid). cbn [negb].
  cbn [videoId loopSegments inputError resetDraft setDraftEndInput setDraftStartInput
         setDraftLabel setDraftEnd setDraftStart setSelectedSegmentId setLoopSegments
         setIsInputDirty setIsPlaying setDuration setCurrentTime setVideoId setInputError
         setInputValue].
  split; [reflexivity |]. split; [| reflexivity].
  unfold link. rewrite (extractSegmentsFromInput_link v (loopSegments s) Hvalid).
  apply decode_serialized; assumption.
Qed.

End LinkCarries.

Lemma link_carries_the_encoding_witness :
  extractSegmentsFromInput Host.JSON_parse Host.URL_parse Host.generateSegmentId
    (buildVideoLink Host.JSON_stringify Host.URLSearchParams_toString "dQw4w9WgXcQ"
       [sample_segment "a" "Intro" 1 (5 # 2)])
  = parseSegmentsParam Host.JSON_parse Host.generateSegmentId
      (serializeSegments Host.JSON_stringify [sample_segment "a" "Intro" 1 (5 # 2)])
  /\ extractSegmentsFromInput Host.JSON_parse Host.URL_parse Host.generateSegmentId
       (buildVideoLink Host.JSON_stringify Host.URLSearchParams_toString "dQw4w9WgXcQ" [])
     = [].
Proof.
  apply (link_carries_the_encoding Host.JSON_parse Host.JSON_stringify Host.generateSegmentId
           "dQw4w9WgXcQ").
  vm_compute. reflexivity.
Defined.

Lemma sample_segments_fit :
  Forall sanitized (loopSegments (sample_state "x"))
  /\ Forall well_ordered (loopSegments (sample_state "x"))
  /\ ascending (loopSegments (sample_state "x"))
  /\ JSON_round_trips Host.JSON_parse Host.JSON_stringify
       (payload (loopSegments (sample_state "x"))).
Proof.
  split; [| split; [| split]].
  - repeat constructor; vm_compute; reflexivity.
  - repeat constructor.
  - repeat constructor.
  - eexists. eexists. split; [reflexivity |]. split; [reflexivity |].
    split; [vm_compute; reflexivity |]. vm_compute. repeat split; reflexivity.
Defined.

Lemma submitting_the_shown_link_reloads_witness :
  let s := setIsInputDirty false (sample_state "x") in
  let s' := handleSubmit Host.URL_parse Host.JSON_parse Host.generateSegmentId
              (syncInputValue Host.JSON_stringify Host.URLSearchParams_toString s) in
  videoId s' = videoId s
  /\ same_triples (loopSegments s') (loopSegments s)
  /\ inputError s' = None.
Proof.
  apply (submitting_the_shown_link_reloads Host.JSON_parse Host.JSON_stringify
           Host.generateSegmentId (setIsInputDirty false (sample_state "x"))).
  - vm_compute. reflexivity.
  - discriminate.
  - reflexivity.
  - exact (proj1 sample_segments_fit).
  - exact (proj1 (proj2 sample_segments_fit)).
  - exact (proj1 (proj2 (proj2 sample_segments_fit))).
  - exact (proj2 (proj2 (proj2 sample_segments_fit))).
Defined.

(** ** The address bar and the initial state *)

Lemma searchParams_get_filter_other (n m : string) (ps : list (string * string)) :
  n <> m ->
  searchParams_get n (filter (fun p => negb (String.eqb (fst p) m)) ps)
  = searchParams_get n ps.
Proof.
  intros Hne. induction ps as [| [k v] t IH]; [reflexivity |].
  cbn [filter fst searchParams_get].
  destruct (String.eqb k m) eqn:Hkm; cbn [negb].
  - apply String.eqb_eq in Hkm. subst k.
    rewrite (proj2 (String.eqb_neq m n)) by congruence. exact IH.
  - cbn [searchParams_get]. rewrite IH. reflexivity.
Qed.

Lemma searchParams_get_filter_same (m : string) (ps : list (string * string)) :
  searchParams_get m (filter (fun p => negb (String.eqb (fst p) m)) ps) = None.
Proof.
  induction ps as [| [k v] t IH]; [reflexivity |].
  cbn [filter fst]. destruct (String.eqb k m) eqn:Hkm; cbn [negb]; [exact IH |].
  cbn [searchParams_get]. rewrite Hkm. exact IH.
Qed.

Lemma searchParams_get_set_same (n v : string) (ps : list (string * string)) :
  searchParams_get n (searchParams_set n v ps) = Some v.
Proof.
  induction ps as [| [k w] t IH]; cbn [searchParams_set searchParams_get].
  - rewrite String.eqb_refl. reflexivity.
  - destruct (String.eqb k n) eqn:Hkn; cbn [searchParams_get].
    + rewrite String.eqb_refl. reflexivity.
    + rewrite Hkn. exact IH.
Qed.

Lemma searchParams_get_set_other (n m v : string) (ps : list (string * string)) :
  n <> m -> searchParams_get n (searchParams_set m v ps) = searchParams_get n ps.
Proof.
  intros Hne. induction ps as [| [k w] t IH]; cbn [searchParams_set searchParams_get].
  - rewrite (proj2 (String.eqb_neq m n)) by congruence. reflexivity.
  - destruct (String.eqb k m) eqn:Hkm; cbn [searchParams_get].
    + apply String.eqb_eq in Hkm. subst k.
      rewrite (proj2 (String.eqb_neq m n)) by congruence.
      apply searchParams_get_filter_other. exact Hne.
    + rewrite IH. reflexivity.
Qed.

Section Reload.

Variable URL_parse : string -> Completion URL.
Variable JSON_parse : string -> Completion json.
Variable JSON_stringify : json -> Completion string.
Variable URLSearchParams_toString : list (string * string) -> string.
Variable ids : nat -> string.

Lemma syncLocation_video (url : URL) (s : LooperState) :
  valid_video s ->
  searchParams_get VIDEO_PARAM (searchParams (syncLocation JSON_stringify url s)) = videoId s.
Proof.
  intros Hvalid. unfold syncLocation. cbn [searchParams].
  assert (Hne : VIDEO_PARAM <> SEGMENTS_PARAM) by discriminate.
  assert (Hfirst :
            searchParams_get VIDEO_PARAM
              (if truthy (videoId s)
               then match videoId s with
                    | Some v => searchParams_set VIDEO_PARAM v (searchParams url)
                    | None => searchParams url
                    end
               else searchParams_delete VIDEO_PARAM (searchParams url))
            = videoId s).
  { unfold valid_video in Hvalid. destruct (videoId s) as [v |]; cbn [truthy].
    - rewrite (pattern_not_empty _ Hvalid). cbn [negb]. apply searchParams_get_set_same.
    - apply searchParams_get_filter_same. }
  destruct (serializeSegments JSON_stringify (loopSegments s)) as [text |]; cbn [truthy].
  - destruct (negb (Str.is_empty text)).
    + rewrite (searchParams_get_set_other _ _ _ _ Hne). exact Hfirst.
    + unfold searchParams_delete at 1.
      rewrite (searchParams_get_filter_other _ _ _ Hne). exact Hfirst.
  - unfold searchParams_delete at 1.
    rewrite (searchParams_get_filter_other _ _ _ Hne). exact Hfirst.
Qed.

Lemma syncLocation_segments (url : URL) (s : LooperState) :
  parseSegmentsParam JSON_parse ids
    (searchParams_get SEGMENTS_PARAM (searchParams (syncLocation JSON_stringify url s)))
  = parseSegmentsParam JSON_parse ids (serializeSegments JSON_stringify (loopSegments s)).
Proof.
  unfold syncLocation. cbn [searchParams].
  destruct (serializeSegments JSON_stringify (loopSegments s)) as [text |]; cbn [truthy].
  - destruct (Str.is_empty text) eqn:Hempty; cbn [negb].
    + unfold searchParams_delete at 1. rewrite searchParams_get_filter_same.
      unfold parseSegmentsParam. rewrite Hempty. reflexivity.
    + rewrite searchParams_get_set_same. reflexivity.
  - unfold searchParams_delete at 1. rewrite searchParams_get_filter_same. reflexivity.
Qed.

(** The address bar restores the session: when the page is opened at
    an address whose query is the one the synchronising effect wrote,
    the initial state has the video of the session and segments with
    the same labels and bounds, and the first of them is selected. *)
Theorem reload_restores_the_session :
  forall (s : LooperState) (url : URL) (href : string),
    valid_video s ->
    Forall sanitized (loopSegments s) -> Forall well_ordered (loopSegments s) ->
    ascending (loopSegments s) ->
    JSON_round_trips JSON_parse JSON_stringify (payload (loopSegments s)) ->
    URL_parse href = Normal (syncLocation JSON_stringify url s) ->
    exists st : InitialAppState.InitialAppState,
      getInitialAppState URL_parse JSON_parse JSON_stringify URLSearchParams_toString ids
        (Some href) = Normal st
      /\ InitialAppState.videoId st = videoId s
      /\ same_triples (InitialAppState.segments st) (loopSegments s)
      /\ InitialAppState.selectedSegmentId st
         = option_map id (hd_error (InitialAppState.segments st)).
Proof.
  intros s url href Hvalid Hsan Hord Hasc Hjson Hurl.
  unfold getInitialAppState. rewrite Hurl. cbn [bind].
  eexists. split; [reflexivity |].
  cbn [InitialAppState.videoId InitialAppState.segments InitialAppState.selectedSegmentId].
  rewrite (syncLocation_video url s Hvalid), (syncLocation_segments url s).
  split; [| split; [| reflexivity]].
  - unfold valid_video in Hvalid. destruct (videoId s) as [v |]; [| reflexivity].
    rewrite Hvalid. reflexivity.
  - apply decode_serialized; assumption.
Qed.

(** The state a session starts in is consistent, whatever the address
    holds: its video is an identifier or none, its selection is empty
    or names one of its segments, and its input text is already what
    the synchronising effect would write, empty when there is no
    video. *)
Theorem initial_state_is_consistent :
  forall (window : option string) (st : InitialAppState.InitialAppState),
    getInitialAppState URL_parse JSON_parse JSON_stringify URLSearchParams_toString ids window
    = Normal st ->
    valid_video (useLooperState_initial st)
    /\ selection_valid (useLooperState_initial st)
    /\ syncInputValue JSON_stringify URLSearchParams_toString (useLooperState_initial st)
       = useLooperState_initial st
    /\ (InitialAppState.videoId st = None -> InitialAppState.inputValue st = EmptyString)
    /\ (window = None -> InitialAppState.segments st = []).
Proof.
  intros window st Hst. unfold getInitialAppState in Hst.
  destruct window as [href |].
  - destruct (URL_parse href) as [url | e]; [| discriminate].
    cbn [bind] in Hst. inversion Hst as [Est]. clear Hst Est.
    set (segs := parseSegmentsParam JSON_parse ids
                   (searchParams_get SEGMENTS_PARAM (searchParams url))).
    unfold valid_video, selection_valid, syncInputValue, useLooperState_initial.
    cbn [videoId selectedSegmentId loopSegments isInputDirty inputValue
           InitialAppState.videoId InitialAppState.segments InitialAppState.selectedSegmentId
           InitialAppState.inputValue].
    destruct (searchParams_get VIDEO_PARAM (searchParams url)) as [v |].
    + destruct (YOUTUBE_ID_PATTERN v) eqn:Hpat.
      * split; [exact Hpat |]. split.
        { destruct segs as [| first rest]; cbn [hd_error option_map]; [exact I |].
          exists first. split; [left; reflexivity | reflexivity]. }
        split; [| split; [discriminate | discriminate]].
        cbn [truthy]. rewrite (pattern_not_empty _ Hpat). reflexivity.
      * split; [exact I |]. split.
        { destruct segs as [| first rest]; cbn [hd_error option_map]; [exact I |].
          exists first. split; [left; reflexivity | reflexivity]. }
        split; [reflexivity |]. split; [reflexivity | discriminate].
    + split; [exact I |]. split.
      { destruct segs as [| first rest]; cbn [hd_error option_map]; [exact I |].
        exists first. split; [left; reflexivity | reflexivity]. }
      split; [reflexivity |]. split; [reflexivity | discriminate].
  - inversion Hst. unfold valid_video, selection_valid, syncInputValue. cbn.
    repeat split.
Qed.

End Reload.

Lemma reload_restores_the_session_witness :
  exists st : InitialAppState.InitialAppState,
    getInitialAppState Host.URL_parse Host.JSON_parse Host.JSON_stringify
      Host.URLSearchParams_toString Host.generateSegmentId (Some sample_href) = Normal st
    /\ InitialAppState.videoId st = videoId (sample_state "x")
    /\ same_triples (InitialAppState.segments st) (loopSegments (sample_state "x"))
    /\ InitialAppState.selectedSegmentId st
       = option_map id (hd_error (InitialAppState.segments st)).
Proof.
  apply (reload_restores_the_session Host.URL_parse Host.JSON_parse Host.JSON_stringify
           Host.URLSearchParams_toString Host.generateSegmentId (sample_state "x")
           {| hostname := "looper.example"; pathname := "/"; searchParams := [] |}
           sample_href).
  - vm_compute. reflexivity.
  - exact (proj1 sample_segments_fit).
  - exact (proj1 (proj2 sample_segments_fit)).
  - exact (proj1 (proj2 (proj2 sample_segments_fit))).
  - exact (proj2 (proj2 (proj2 sample_segments_fit))).
  - vm_compute. reflexivity.
Defined.

Lemma initial_state_is_consistent_witness :
  valid_video (useLooperState_initial sample_initial)
  /\ selection_valid (useLooperState_initial sample_initial)
  /\ syncInputValue Host.JSON_stringify Host.URLSearchParams_toString
       (useLooperState_initial sample_initial)
     = useLooperState_initial sample_initial
  /\ (InitialAppState.videoId sample_initial = None ->
      InitialAppState.inputValue sample_initial = EmptyString)
  /\ (Some sample_href = None -> InitialAppState.segments sample_initial = []).
Proof.
  apply (initial_state_is_consistent Host.URL_parse Host.JSON_parse Host.JSON_stringify
           Host.URLSearchParams_toString Host.generateSegmentId (Some sample_href)
           sample_initial).
  vm_compute. reflexivity.
Defined.

(** ** The clock format *)

Lemma max_zero_of_Z (t : Z) : (0 <= t)%Z -> Math_max (Fin 0) (of_Z t) = of_Z t.
Proof.
  intros H. unfold of_Z. cbn [Math_max num_lt].
  destruct (Qltb 0 (inject_Z t)) eqn:E; [reflexivity |].
  apply Qltb_ge in E. unfold Qle in E. cbn [Qnum Qden inject_Z] in E.
  replace t with 0%Z by lia. reflexivity.
Qed.

Lemma max_zero_negative (t : Z) : (t < 0)%Z -> Math_max (Fin 0) (of_Z t) = Fin 0.
Proof.
  intros H. unfold of_Z. cbn [Math_max num_lt].
  rewrite (proj2 (Qltb_ge 0 (inject_Z t))); [reflexivity |].
  unfold Qle. cbn [Qnum Qden inject_Z]. lia.
Qed.

Lemma floor_div_60 (a : Z) : Math_floor (num_div (of_Z a) (Fin 60)) = of_Z (a / 60).
Proof.
  unfold of_Z. cbn [num_div Math_floor].
  change (Qeq_bool 60 0) with false. cbv iota. cbn [Math_floor]. f_equal. f_equal.
  rewrite (Qfloor_comp _ (a # 60)) by Qeq_by_lia. reflexivity.
Qed.

Lemma rem_60 (a : Z) :
  (0 <= a)%Z -> num_eq (num_rem (of_Z a) (Fin 60)) (of_Z (a mod 60)).
Proof.
  intros H. unfold of_Z. cbn [num_rem].
  change (Qeq_bool 60 0) with false. cbv iota. cbn [num_eq].
  unfold Qtrunc.
  assert (Hpos : Qle_bool 0 (inject_Z a / 60) = true).
  { apply Qle_bool_iff. apply Qle_shift_div_l; [reflexivity |].
    unfold Qle. cbn [Qnum Qden inject_Z Qmult]. lia. }
  rewrite Hpos.
  rewrite (Qfloor_comp _ (a # 60)) by Qeq_by_lia.
  change (Qfloor (a # 60)) with (a / 60)%Z.
  pose proof (Z.div_mod a 60 ltac:(lia)). Qeq_by_lia.
Qed.

Lemma of_Z_positive (h : Z) : num_gt (of_Z h) (Fin 0) = (0 <? h)%Z.
Proof.
  unfold num_gt, of_Z. cbn [num_lt].
  destruct (Z.ltb_spec 0 h) as [H | H].
  - apply Qltb_lt. unfold Qlt. cbn [Qnum Qden inject_Z]. lia.
  - apply Qltb_ge. unfold Qle. cbn [Qnum Qden inject_Z]. lia.
Qed.

Lemma formatTime_of_floor (v : Q) :
  (0 <= Qfloor v < 3600 * 10 ^ 21)%Z ->
  formatTime (Some (Fin v)) = clock_text (Qfloor v).
Proof.
  intros Ht. unfold formatTime. cbn [Number_isNaN Number_isFinite negb orb Math_floor].
  set (t := Qfloor v) in *. change (Fin (inject_Z t)) with (of_Z t).
  rewrite (max_zero_of_Z t (proj1 Ht)), !floor_div_60.
  assert (Hm : (0 <= t / 60)%Z) by div_lia.
  rewrite (Number_toString_compat _ _ (rem_60 t (proj1 Ht))).
  rewrite (Number_toString_compat _ _ (rem_60 (t / 60) Hm)).
  rewrite of_Z_positive, Z.div_div by lia. change (60 * 60)%Z with 3600%Z.
  assert (H21 : (10 ^ 21 = 1000000000000000000000)%Z) by reflexivity.
  rewrite !Number_toString_of_Z by div_lia.
  unfold clock_text. destruct (0 <? t / 3600)%Z; [rewrite append_assoc |]; reflexivity.
Qed.


Lemma digits_clean (s : string) :
  Str.all Str.is_digit s = true ->
  Str.all (fun c => negb (Str.is_white_space c)) s = true
  /\ Str.all (fun c => negb (Ascii.eqb c ":")) s = true.
Proof.
  intros H. split.
  - exact (all_impl _ _ s digit_not_white_space H).
  - exact (all_impl _ _ s digit_not_colon H).
Qed.

Lemma parseTimestampInput_hours (HH MM SS : string) :
  Str.is_empty HH = false -> Str.all Str.is_digit HH = true ->
  Str.is_empty MM = false -> Str.all Str.is_digit MM = true ->
  Str.is_empty SS = false -> Str.all Str.is_digit SS = true ->
  parseTimestampInput (HH ++ String ":" (MM ++ String ":" SS))
  = Some (Math_max (Fin 0)
            (round2 (Fin (0 + inject_Z (Z.of_N (digits_value SS) * 1) * 1
                          + inject_Z (Z.of_N (digits_value MM)) * (1 * 60)
                          + inject_Z (Z.of_N (digits_value HH)) * (1 * 60 * 60))))).
Proof.
  intros HHe HHd HMe HMd HSe HSd.
  destruct (digits_clean HH HHd) as [HHw HHc].
  destruct (digits_clean MM HMd) as [HMw HMc].
  destruct (digits_clean SS HSd) as [HSw HSc].
  assert (Hclean : Str.all (fun c => negb (Str.is_white_space c))
                     (HH ++ String ":" (MM ++ String ":" SS)) = true).
  { rewrite all_app. cbn [Str.all]. rewrite all_app. cbn [Str.all].
    rewrite HHw, HMw, HSw. reflexivity. }
  unfold parseTimestampInput. rewrite (trim_clean _ Hclean).
  rewrite (is_empty_app HH _ HHe), includes_app_char. cbn [negb].
  rewrite (split_app_sep ":" HH _ HHc), (split_app_sep ":" MM _ HMc), (split_no_sep ":" SS HSc).
  cbn [List.rev app parseTimestampInput_loop].
  rewrite HSe, (StringToNumber_digits SS HSe HSd). cbn [Number_isNaN]. rewrite HMe, HHe.
  unfold Str.test_digits. rewrite HMe, HMd, HHe, HHd. cbn [negb andb].
  rewrite (parseInt10_digits MM HMe HMd), (parseInt10_digits HH HHe HHd). reflexivity.
Qed.

Lemma parseTimestampInput_clock (t : Z) :
  (0 <= t < 10 ^ 21)%Z ->
  exists r, parseTimestampInput (clock_text t) = Some r /\ num_eq r (of_Z t).
Proof.
  intros Ht.
  assert (H21 : (10 ^ 21 = 1000000000000000000000)%Z) by reflexivity.
  assert (Hh : (0 <= t / 3600)%Z) by div_lia.
  assert (Hm : (0 <= t / 60 mod 60 < 60)%Z) by div_lia.
  assert (Hs : (0 <= t mod 60 < 60)%Z) by div_lia.
  unfold clock_text.
  set (HH := Str.padStart2 (Z_digits (t / 3600))).
  set (MM := Str.padStart2 (Z_digits (t / 60 mod 60))).
  set (SS := Str.padStart2 (Z_digits (t mod 60))).
  assert (HHd : Str.all Str.is_digit HH = true) by apply padStart2_all_digits, N_digits_all_digits.
  assert (HMd : Str.all Str.is_digit MM = true) by apply padStart2_all_digits, N_digits_all_digits.
  assert (HSd : Str.all Str.is_digit SS = true) by apply padStart2_all_digits, N_digits_all_digits.
  assert (HHe : Str.is_empty HH = false) by apply padStart2_not_empty.
  assert (HMe : Str.is_empty MM = false) by apply padStart2_not_empty.
  assert (HSe : Str.is_empty SS = false) by apply padStart2_not_empty.
  assert (HHv : Z.of_N (digits_value HH) = (t / 3600)%Z)
    by (unfold HH; rewrite padStart2_value; apply Z_digits_value; exact Hh).
  assert (HMv : Z.of_N (digits_value MM) = (t / 60 mod 60)%Z)
    by (unfold MM; rewrite padStart2_value; apply Z_digits_value; lia).
  assert (HSv : Z.of_N (digits_value SS) = (t mod 60)%Z)
    by (unfold SS; rewrite padStart2_value; apply Z_digits_value; lia).
  assert (Hk : (0 <= 100 * t < 100000000000000000000000)%Z) by lia.
  assert (Hnonneg : num_le (Fin 0) (hundredths (100 * t)) = true).
  { unfold hundredths. cbn [num_le]. apply Qle_bool_iff. unfold Qle. cbn [Qnum Qden]. lia. }
  assert (Hval : num_eq (hundredths (100 * t)) (of_Z t)).
  { unfold hundredths, of_Z, num_eq. Qeq_by_lia. }
  destruct (0 <? t / 3600)%Z eqn:Eh.
  - change ((HH ++ ":") ++ MM ++ ":" ++ SS)%string
      with ((HH ++ ":") ++ (MM ++ String ":" SS))%string.
    rewrite append_assoc.
    change (HH ++ ":" ++ MM ++ String ":" SS)%string
      with (HH ++ String ":" (MM ++ String ":" SS))%string.
    rewrite (parseTimestampInput_hours HH MM SS HHe HHd HMe HMd HSe HSd).
    rewrite HHv, HMv, HSv.
    eexists. split; [reflexivity |].
    rewrite (round2_to_hundredths _ (100 * t)); [| | exact Hk].
    + apply (num_eq_trans _ (hundredths (100 * t))); [| exact Hval].
      apply Math_max_zero. exact Hnonneg.
    + unfold hundredths, num_eq.
      assert (Hsplit : (t = 3600 * (t / 3600) + 60 * (t / 60 mod 60) + t mod 60)%Z) by div_lia.
      Qeq_by_lia.
  - assert (Hh0 : (t / 3600 = 0)%Z) by (apply Z.ltb_ge in Eh; lia).
    change (EmptyString ++ MM ++ ":" ++ SS)%string with (MM ++ String ":" SS)%string.
    rewrite (parseTimestampInput_minutes MM SS (inject_Z (Z.of_N (digits_value SS) * 1))
               HMe HMd HSe).
    + rewrite HMv, HSv. eexists. split; [reflexivity |].
      rewrite (round2_to_hundredths _ (100 * t)); [| | exact Hk].
      * apply (num_eq_trans _ (hundredths (100 * t))); [| exact Hval].
        apply Math_max_zero. exact Hnonneg.
      * unfold hundredths, num_eq.
        assert (Hsplit : (t = 60 * (t / 60 mod 60) + t mod 60)%Z) by div_lia.
        Qeq_by_lia.
    + apply (all_impl Str.is_digit); [intros c ->; reflexivity | exact HSd].
    + apply StringToNumber_digits; assumption.
Qed.



Example formatTime_examples :
  formatTime (Some (Fin (7451 # 2))) = "01:02:05"
  /\ formatTime (Some (Fin (inject_Z 65))) = "01:05"
  /\ formatTime (Some (Fin (inject_Z 360000))) = "100:00:00"
  /\ formatTime (Some (Fin (- (1 # 2)))) = "00:00".
Proof. vm_compute. repeat split. Qed.

(** ** Rounding to two places never leaves the numbers *)

Lemma literal_char_clean (c : ascii) :
  literal_char c = true -> negb (Str.is_white_space c) = true.
Proof. each_char c. Qed.

Lemma digit_literal (c : ascii) : Str.is_digit c = true -> literal_char c = true.
Proof. unfold literal_char. intros ->. reflexivity. Qed.

Lemma literal_not_radix_prefix (p : ascii) :
  literal_char p = true ->
  (Ascii.eqb p "x" || Ascii.eqb p "X") = false
  /\ (Ascii.eqb p "o" || Ascii.eqb p "O") = false
  /\ (Ascii.eqb p "b" || Ascii.eqb p "B") = false.
Proof. each_char p. Qed.

Lemma literal_not_radix (s : string) :
  Str.all literal_char s = true -> NonDecimalIntegerLiteral s = None.
Proof.
  destruct s as [| c [| p ds]]; [reflexivity | intros _; destruct c as [[] [] [] [] [] [] [] []]; reflexivity |].
  intros H. cbn [Str.all] in H. apply andb_true_iff in H. destruct H as [_ H].
  apply andb_true_iff in H. destruct H as [Hp _].
  destruct (literal_not_radix_prefix p Hp) as [Hx [Ho Hb]].
  unfold NonDecimalIntegerLiteral. rewrite Hx, Ho, Hb.
  destruct c as [[] [] [] [] [] [] [] []]; reflexivity.
Qed.

Lemma digit_head_unsigned (c : ascii) (r : string) :
  Str.is_digit c = true ->
  match String c r with
  | String "+" t => (false, t)
  | String "-" t => (true, t)
  | _ => (false, String c r)
  end = (false, String c r)
  /\ String.eqb (String c r) "Infinity" = false.
Proof. destruct c as [[] [] [] [] [] [] [] []]; try discriminate; intros _; split; reflexivity. Qed.

(** [Number] of a literal with an optional minus sign. *)
Lemma StringToNumber_signed (negative : bool) (c : ascii) (r : string) (v : number) :
  Str.is_digit c = true -> Str.all literal_char r = true ->
  StrUnsignedDecimalLiteral (String c r) = Some v ->
  StringToNumber ((if negative then "-" else EmptyString) ++ String c r)
  = if negative then num_opp v else v.
Proof.
  intros Hc Hr Hv.
  assert (Hlit : Str.all literal_char (String c r) = true)
    by (cbn [Str.all]; rewrite (digit_literal c Hc), Hr; reflexivity).
  assert (Hclean : Str.all (fun c => negb (Str.is_white_space c)) (String c r) = true)
    by (exact (all_impl _ _ _ literal_char_clean Hlit)).
  unfold StringToNumber. destruct negative.
  - change ("-" ++ String c r)%string with (String "-" (String c r)).
    rewrite trim_clean by (exact (proj2 (andb_true_iff _ _) (conj eq_refl Hclean))).
    cbn [Str.is_empty NonDecimalIntegerLiteral]. rewrite Hv. reflexivity.
  - change (EmptyString ++ String c r)%string with (String c r).
    rewrite (trim_clean _ Hclean). cbn [Str.is_empty].
    rewrite (literal_not_radix _ Hlit), (proj1 (digit_head_unsigned c r Hc)), Hv.
    reflexivity.
Qed.

Lemma test_digits_intro (s : string) :
  Str.is_empty s = false -> Str.all Str.is_digit s = true -> Str.test_digits s = true.
Proof. intros He Hd. unfold Str.test_digits. rewrite He, Hd. reflexivity. Qed.

Lemma unsigned_fixed_finite (c : ascii) (D F : string) :
  Str.is_digit c = true -> Str.all Str.is_digit D = true -> Str.all Str.is_digit F = true ->
  exists q, StrUnsignedDecimalLiteral (String c (D ++ String "." F)) = Some (Fin q).
Proof.
  intros Hc HD HF. unfold StrUnsignedDecimalLiteral.
  rewrite (proj2 (digit_head_unsigned c _ Hc)).
  change (String c (D ++ String "." F)) with (String c D ++ String "." F)%string.
  rewrite (span_app_stop Str.is_digit (String c D) "." F)
    by (try reflexivity; cbn [Str.all]; rewrite Hc, HD; reflexivity).
  rewrite (span_all Str.is_digit F HF). cbn [Str.is_empty andb parse_exponent].
  eexists. reflexivity.
Qed.

Lemma unsigned_exponent_finite (c : ascii) (F E : string) (point : bool) :
  Str.is_digit c = true -> Str.all Str.is_digit F = true ->
  Str.is_empty E = false -> Str.all Str.is_digit E = true ->
  exists q,
    StrUnsignedDecimalLiteral
      (String c ((if point then String "." F else EmptyString)
                 ++ String "e" (String "+" E)))
    = Some (Fin q).
Proof.
  intros Hc HF HEe HEd. unfold StrUnsignedDecimalLiteral.
  rewrite (proj2 (digit_head_unsigned c _ Hc)).
  destruct point.
  - change (String c (String "." F ++ String "e" (String "+" E)))
      with (String c EmptyString ++ String "." (F ++ String "e" (String "+" E)))%string.
    rewrite (span_app_stop Str.is_digit (String c EmptyString) "." _)
      by (try reflexivity; cbn [Str.all]; rewrite Hc; reflexivity).
    rewrite (span_app_stop Str.is_digit F "e" _ HF eq_refl).
    cbn [Str.is_empty andb parse_exponent Ascii.eqb Bool.eqb orb].
    rewrite (test_digits_intro E HEe HEd). eexists. reflexivity.
  - change (String c (EmptyString ++ String "e" (String "+" E)))
      with (String c EmptyString ++ String "e" (String "+" E))%string.
    rewrite (span_app_stop Str.is_digit (String c EmptyString) "e" _)
      by (try reflexivity; cbn [Str.all]; rewrite Hc; reflexivity).
    cbn [Str.is_empty andb parse_exponent Ascii.eqb Bool.eqb orb].
    rewrite (test_digits_intro E HEe HEd). eexists. reflexivity.
Qed.

Lemma frac_digits_all_digits (fuel : nat) :
  forall r den : Z, (0 <= r < den)%Z -> Str.all Str.is_digit (frac_digits fuel r den) = true.
Proof.
  induction fuel as [| f IH]; intros r den Hr; cbn [frac_digits]; [reflexivity |].
  destruct (r =? 0)%Z; [reflexivity |]. cbn [Str.all].
  rewrite is_digit_char.
  - apply IH. apply Z.mod_pos_bound. lia.
  - assert (0 <= r * 10 / den < 10)%Z.
    { split; [apply Z.div_pos; lia | apply Z.div_lt_upper_bound; lia]. }
    lia.
Qed.

Lemma digit_char_not_zero (d : N) :
  (0 < d < 10)%N -> Ascii.eqb (digit_char d) "0" = false.
Proof.
  intros H.
  assert (Hd : d = 1%N \/ d = 2%N \/ d = 3%N \/ d = 4%N \/ d = 5%N \/ d = 6%N
               \/ d = 7%N \/ d = 8%N \/ d = 9%N) by lia.
  repeat (destruct Hd as [-> | Hd]; [reflexivity |]). rewrite Hd. reflexivity.
Qed.

(** The first digit of a positive number is not a zero. *)
Lemma digits_acc_head (fuel : nat) :
  forall (n : N) (acc : string),
    (0 < n < 2 ^ N.of_nat fuel)%N ->
    exists c r, digits_acc fuel n acc = String c r /\ Ascii.eqb c "0" = false.
Proof.
  induction fuel as [| f IH]; intros n acc Hn.
  - cbn in Hn. lia.
  - cbn [digits_acc]. destruct (n / 10 =? 0)%N eqn:Hq.
    + apply N.eqb_eq in Hq. apply N.div_small_iff in Hq; [| lia].
      eexists. eexists. split; [reflexivity |].
      rewrite N.mod_small by exact Hq. apply digit_char_not_zero.
      split; [exact (proj1 Hn) | exact Hq].
    + apply N.eqb_neq in Hq. apply IH.
      rewrite Nat2N.inj_succ, N.pow_succ_r' in Hn. destruct Hn as [Hn0 Hn1]. split.
      * destruct (n / 10)%N; [congruence | reflexivity].
      * apply N.Div0.div_lt_upper_bound.
        remember (2 ^ N.of_nat f)%N as b. lia.
Qed.

Lemma N_digits_head (n : N) :
  (0 < n)%N -> exists c r, N_digits n = String c r /\ Ascii.eqb c "0" = false.
Proof.
  intros Hn. unfold N_digits. apply digits_acc_head. split; [exact Hn |].
  rewrite Nat2N.inj_succ, N2Nat.id. apply N.log2_spec. exact Hn.
Qed.

Lemma digits_value_bound (s : string) :
  Str.all Str.is_digit s = true -> (digits_value s < 10 ^ N.of_nat (String.length s))%N.
Proof.
  induction s as [| c r IH]; intros H; [cbn; lia |].
  cbn [Str.all] in H. apply andb_true_iff in H. destruct H as [Hc Hr].
  change (String c r) with (String c EmptyString ++ r)%string.
  rewrite digits_value_app. specialize (IH Hr).
  assert (Hv : (digits_value (String c EmptyString) < 10)%N).
  { unfold digits_value. cbn [digits_value_acc]. unfold digit_value.
    unfold Str.is_digit, Str.in_range in Hc. apply andb_true_iff in Hc.
    destruct Hc as [H1 H2]. apply N.leb_le in H1, H2. lia. }
  cbn [append String.length]. rewrite Nat2N.inj_succ, N.pow_succ_r'. nia.
Qed.

Lemma rev_acc_all (p : ascii -> bool) (s acc : string) :
  Str.all p (Str.rev_acc s acc) = Str.all p s && Str.all p acc.
Proof.
  revert acc. induction s as [| c r IH]; intros acc; cbn [Str.rev_acc Str.all]; [reflexivity |].
  rewrite IH. cbn [Str.all]. destruct (p c), (Str.all p r), (Str.all p acc); reflexivity.
Qed.

Lemma rev_acc_app (s acc : string) : Str.rev_acc s acc = (Str.rev s ++ acc)%string.
Proof.
  unfold Str.rev. revert acc. induction s as [| c r IH]; intros acc; [reflexivity |].
  cbn [Str.rev_acc]. rewrite (IH (String c acc)), (IH (String c EmptyString)), append_assoc.
  reflexivity.
Qed.

Lemma rev_app_single (w : string) (c : ascii) (acc : string) :
  Str.rev_acc (w ++ String c EmptyString) acc = String c (Str.rev_acc w acc).
Proof.
  revert acc. induction w as [| d w' IH]; intros acc; [reflexivity |].
  cbn [append Str.rev_acc]. apply IH.
Qed.

Lemma dropWhile_all (p q : ascii -> bool) (s : string) :
  Str.all q s = true -> Str.all q (Str.dropWhile p s) = true.
Proof.
  induction s as [| c r IH]; [reflexivity |]. cbn [Str.dropWhile].
  intros H. destruct (p c); [| exact H].
  cbn [Str.all] in H. apply andb_true_iff in H. apply IH. tauto.
Qed.

Lemma dropWhile_app_stop (p : ascii -> bool) (u : string) (c : ascii) :
  p c = false ->
  Str.dropWhile p (u ++ String c EmptyString)
  = (Str.dropWhile p u ++ String c EmptyString)%string.
Proof.
  intros Hc. induction u as [| d u' IH]; cbn [append Str.dropWhile].
  - rewrite Hc. reflexivity.
  - destruct (p d); [exact IH | reflexivity].
Qed.

(** Dropping the trailing characters that satisfy [p] keeps a head
    that does not. *)
Lemma strip_end_head (p q : ascii -> bool) (c : ascii) (r : string) :
  p c = false -> Str.all q r = true ->
  exists x, Str.rev (Str.dropWhile p (Str.rev (String c r))) = String c x
            /\ Str.all q x = true.
Proof.
  intros Hc Hr. unfold Str.rev at 2. cbn [Str.rev_acc].
  rewrite rev_acc_app, (dropWhile_app_stop p _ c Hc).
  unfold Str.rev at 1. rewrite rev_app_single.
  eexists. split; [reflexivity |].
  rewrite rev_acc_all. cbn [Str.all]. rewrite andb_true_r.
  apply dropWhile_all. unfold Str.rev. rewrite rev_acc_all, Hr. reflexivity.
Qed.

Lemma substring_all (p : ascii -> bool) (s : string) :
  Str.all p s = true -> forall a b, Str.all p (substring a b s) = true.
Proof.
  induction s as [| c r IH]; intros H a b.
  - destruct a, b; reflexivity.
  - cbn [Str.all] in H. apply andb_true_iff in H. destruct H as [Hc Hr].
    destruct a as [| a']; cbn [substring].
    + destruct b as [| b']; [reflexivity |]. cbn [Str.all]. rewrite Hc. apply IH. exact Hr.
    + apply IH. exact Hr.
Qed.

Lemma substring_empty (s : string) : substring 0 0 s = EmptyString.
Proof. destruct s; reflexivity. Qed.

(** From 10^21 on, [Number::toString] prints a digit, possibly a point
    and more digits, and an exponent. *)
Lemma positive_toString_large (m : Q) :
  ten21 <= m ->
  exists (c : ascii) (F E : string) (point : bool),
    Str.is_digit c = true /\ Str.all Str.is_digit F = true
    /\ Str.is_empty E = false /\ Str.all Str.is_digit E = true
    /\ positive_toString m
       = String c ((if point then String "." F else EmptyString)
                   ++ String "e" (String "+" E)).
Proof.
  intros Hm. unfold positive_toString.
  assert (Hi : (10 ^ 21 <= Qfloor m)%Z).
  { change (10 ^ 21)%Z with (Qfloor ten21). apply Qfloor_resp_le. exact Hm. }
  set (i := Qfloor m) in *.
  assert (H21 : (10 ^ 21 = 1000000000000000000000)%Z) by reflexivity.
  destruct (i =? 0)%Z eqn:Hz; [bool_lia |].
  destruct (N_digits_head (Z.to_N i)) as [c0 [r0 [Hip Hc0]]]; [lia |].
  assert (Hipd : Str.all Str.is_digit (Z_digits i) = true) by apply N_digits_all_digits.
  assert (Hlen : (22 <= Z.of_nat (String.length (Z_digits i)))%Z).
  { pose proof (digits_value_bound _ Hipd) as Hb.
    pose proof (Z_digits_value i ltac:(lia)) as Hv.
    destruct (Z_le_gt_dec 22 (Z.of_nat (String.length (Z_digits i)))) as [H | H];
      [exact H | exfalso].
    assert (Hpow : (10 ^ N.of_nat (String.length (Z_digits i)) <= 10 ^ 21)%N)
      by (apply N.pow_le_mono_r; lia).
    assert (H21N : (10 ^ 21 = 1000000000000000000000)%N) by reflexivity.
    lia. }
  set (fp := frac_digits 40 (Qnum m - i * Z.pos (Qden m)) (Z.pos (Qden m))).
  assert (Hfp : Str.all Str.is_digit fp = true).
  { apply frac_digits_all_digits. unfold i. unfold Qfloor. destruct m as [a b].
    cbn [Qnum Qden]. pose proof (Z.div_mod a (Z.pos b) ltac:(lia)).
    pose proof (Z.mod_pos_bound a (Z.pos b) ltac:(lia)). lia. }
  unfold Z_digits in *. rewrite Hip in *.
  cbn [append Str.dropWhile]. rewrite Hc0.
  rewrite Nat.sub_diag, Z.sub_0_r.
  assert (Hr0 : Str.all Str.is_digit (r0 ++ fp) = true).
  { rewrite all_app, Hfp. cbn [Str.all] in Hipd. apply andb_true_iff in Hipd.
    destruct Hipd as [_ ->]. reflexivity. }
  assert (Hcd : Str.is_digit c0 = true).
  { cbn [Str.all] in Hipd. apply andb_true_iff in Hipd. tauto. }
  destruct (strip_end_head (fun c => Ascii.eqb c "0") Str.is_digit c0 (r0 ++ fp) Hc0 Hr0)
    as [x [Hs Hx]].
  rewrite Hs. cbn [Str.is_empty].
  set (n := Z.of_nat (String.length (String c0 r0))) in *.
  assert (Hn21 : (n <=? 21)%Z = false) by (apply Z.leb_gt; lia).
  assert (Hn0 : (n <=? 0)%Z = false) by (apply Z.leb_gt; lia).
  rewrite Hn21, Hn0, !andb_false_r.
  assert (Hexp : exponent_text (n - 1)
                 = String "e" (String "+" (Z_digits (Z.abs (n - 1))))).
  { unfold exponent_text. rewrite (proj2 (Z.ltb_ge (n - 1) 0)) by lia. reflexivity. }
  rewrite Hexp.
  destruct (Z.of_nat (String.length (String c0 x)) =? 1)%Z eqn:Hk.
  - assert (Hx0 : x = EmptyString).
    { destruct x; [reflexivity |]. cbn [String.length] in Hk. bool_lia. }
    rewrite Hx0. exists c0, EmptyString, (Z_digits (Z.abs (n - 1))), false.
    repeat split; try assumption; try reflexivity.
    + apply N_digits_not_empty.
    + apply N_digits_all_digits.
  - exists c0, (substring 0 (Z.to_nat (Z.of_nat (String.length (String c0 x)) - 1)) x),
      (Z_digits (Z.abs (n - 1))), true.
    repeat split; try assumption.
    + apply substring_all. exact Hx.
    + apply N_digits_not_empty.
    + apply N_digits_all_digits.
    + cbn [substring]. rewrite substring_empty. reflexivity.
Qed.

Lemma literal_tail (F E : string) (point : bool) :
  Str.all Str.is_digit F = true -> Str.all Str.is_digit E = true ->
  Str.all literal_char
    ((if point then String "." F else EmptyString) ++ String "e" (String "+" E)) = true.
Proof.
  intros HF HE.
  pose proof (all_impl _ _ F digit_literal HF) as HF'.
  pose proof (all_impl _ _ E digit_literal HE) as HE'.
  destruct point.
  - change (String "." F ++ String "e" (String "+" E))%string
      with (String "." (F ++ String "e" (String "+" E))).
    cbn [Str.all]. rewrite all_app. cbn [Str.all]. rewrite HF', HE'. reflexivity.
  - cbn [append Str.all]. rewrite HE'. reflexivity.
Qed.

(** Rounding a finite number to two places gives a finite number,
    however large it is. *)
Lemma round2_finite (a : number) :
  Number_isFinite a = true -> Number_isFinite (round2 a) = true.
Proof.
  destruct a as [| | | x]; try discriminate. intros _.
  unfold round2, toFixed2.
  destruct (Qle_bool ten21 (Qabs x)) eqn:Hbig.
  - apply Qle_bool_iff in Hbig. unfold Number_toString.
    rewrite (proj2 (Qltb_ge (Qabs x) ten21) Hbig), andb_false_r.
    destruct (positive_toString_large (Qabs x) Hbig)
      as [c [F [E [point [Hc [HF [HEe [HEd Hprint]]]]]]]].
    rewrite Hprint.
    destruct (unsigned_exponent_finite c F E point Hc HF HEe HEd) as [q Hq].
    rewrite (StringToNumber_signed (Qltb x 0) c _ (Fin q) Hc (literal_tail F E point HF HEd) Hq).
    destruct (Qltb x 0); reflexivity.
  - set (n := Qfloor (Qabs x * inject_Z 100 + (1 # 2))).
    pose proof (N_digits_all_digits (Z.to_N (n / 100))) as Hd.
    pose proof (N_digits_not_empty (Z.to_N (n / 100))) as He.
    unfold Z_digits at 1. destruct (N_digits (Z.to_N (n / 100))) as [| c D]; [discriminate |].
    cbn [Str.all] in Hd. apply andb_true_iff in Hd. destruct Hd as [Hc HD].
    assert (HF : Str.all Str.is_digit (Str.padStart2 (Z_digits (n mod 100))) = true)
      by apply padStart2_all_digits, N_digits_all_digits.
    change (String c D ++ "." ++ Str.padStart2 (Z_digits (n mod 100)))%string
      with (String c (D ++ String "." (Str.padStart2 (Z_digits (n mod 100))))).
    destruct (unsigned_fixed_finite c D _ Hc HD HF) as [q Hq].
    rewrite (StringToNumber_signed (Qltb x 0) c _ (Fin q) Hc) ; [| | exact Hq].
    + destruct (Qltb x 0); reflexivity.
    + rewrite all_app. cbn [Str.all].
      rewrite (all_impl _ _ D digit_literal HD), (all_impl _ _ _ digit_literal HF).
      reflexivity.
Qed.

Lemma round2_not_NaN (a : number) :
  Number_isNaN a = false -> Number_isNaN (round2 a) = false.
Proof.
  destruct a as [| | | x]; try discriminate; intros _; [reflexivity | reflexivity |].
  pose proof (round2_finite (Fin x) eq_refl) as H.
  destruct (round2 (Fin x)); try discriminate. reflexivity.
Qed.

Lemma finite_not_NaN (a : number) : Number_isFinite a = true -> Number_isNaN a = false.
Proof. destruct a; try discriminate; reflexivity. Qed.

Lemma Math_max_zero_finite (x : number) :
  Number_isFinite x = true ->
  Number_isFinite (Math_max (Fin 0) x) = true /\ num_le (Fin 0) (Math_max (Fin 0) x) = true.
Proof.
  intros H. split; [| apply Math_max_zero_le; apply finite_not_NaN; exact H].
  destruct (Math_max_cases (Fin 0) x eq_refl (finite_not_NaN x H)) as [[-> _] | [-> _]];
    [exact H | reflexivity].
Qed.

(** ** What the decoder and the timestamp parser hand over *)

Lemma sanitizeTimestamp_Some (value : option json) (y : number) :
  sanitizeTimestamp value = Some y ->
  Number_isFinite y = true /\ num_le (Fin 0) y = true.
Proof.
  unfold sanitizeTimestamp.
  set (numeric := match value with Some (JNumber n) => n | _ => ToNumber value end).
  destruct (Number_isFinite numeric) eqn:Hf; cbn [negb]; [| discriminate].
  intros H. inversion H. apply Math_max_zero_finite. apply round2_finite. exact Hf.
Qed.

Lemma min_max_bounds (a b : number) :
  Number_isFinite a = true -> Number_isFinite b = true ->
  num_le (Fin 0) a = true -> num_le (Fin 0) b = true ->
  Number_isFinite (Math_min a b) = true /\ Number_isFinite (Math_max a b) = true
  /\ num_le (Fin 0) (Math_min a b) = true
  /\ num_le (Math_min a b) (Math_max a b) = true.
Proof.
  intros Ha Hb H0a H0b.
  pose proof (finite_not_NaN a Ha) as Ha'. pose proof (finite_not_NaN b Hb) as Hb'.
  destruct (Math_min_cases a b Ha' Hb') as [[-> Hlt] | [-> Hle]];
    destruct (Math_max_cases a b Ha' Hb') as [[-> Hlt'] | [-> Hle']];
    repeat split; try assumption;
    try (apply num_le_refl; assumption); try (apply num_lt_le; assumption).
Qed.

Lemma segment_of_entry_Some (fresh : string) (entry : json) (index : nat)
    (segment : LoopSegment) :
  segment_of_entry fresh entry index = Some segment ->
  well_formed segment /\ id segment = fresh.
Proof.
  assert (Hlabel : forall l n, Str.is_empty (or_else l (loop_label n)) = false).
  { intros l n. unfold or_else. destruct (Str.is_empty l) eqn:E; [reflexivity | exact E]. }
  assert (Hbody : forall l,
             match sanitizeTimestamp (get_property "start" entry),
                   sanitizeTimestamp (get_property "end" entry) with
             | Some start, Some end_ =>
                 Some {| id := fresh;
                         label := or_else (Str.trim l) (loop_label (index + 1));
                         start := Math_min start end_;
                         end_ := Math_max start end_ |}
             | _, _ => None
             end = Some segment ->
             well_formed segment /\ id segment = fresh).
  { intros l.
    destruct (sanitizeTimestamp (get_property "start" entry)) as [a |] eqn:Ha;
      [| discriminate].
    destruct (sanitizeTimestamp (get_property "end" entry)) as [b |] eqn:Hb;
      [| discriminate].
    intros H. inversion H. subst segment. clear H.
    destruct (sanitizeTimestamp_Some _ _ Ha) as [Haf Ha0].
    destruct (sanitizeTimestamp_Some _ _ Hb) as [Hbf Hb0].
    destruct (min_max_bounds a b Haf Hbf Ha0 Hb0) as [H1 [H2 [H3 H4]]].
    unfold well_formed. cbn [id label start end_]. rewrite Hlabel.
    repeat split; assumption. }
  unfold segment_of_entry. destruct entry; try discriminate; apply Hbody.
Qed.

Lemma map_entries_well_formed (ids : nat -> string) (entries : list json) :
  forall index next,
    Forall well_formed (filter_not_null (map_entries ids entries index next))
    /\ map id (filter_not_null (map_entries ids entries index next))
       = map ids (seq next
                    (List.length (filter_not_null (map_entries ids entries index next)))).
Proof.
  induction entries as [| entry rest IH]; intros index next; cbn [map_entries].
  - split; [constructor | reflexivity].
  - destruct (segment_of_entry (ids next) entry index) as [segment |] eqn:Hs;
      cbn [filter_not_null].
    + destruct (segment_of_entry_Some _ _ _ _ Hs) as [Hw Hid].
      destruct (IH (S index) (S next)) as [Hall Hids]. split.
      * constructor; assumption.
      * cbn [map List.length seq]. rewrite Hid, Hids at 1. reflexivity.
    + apply IH.
Qed.

Lemma NoDup_map_injective (A B : Type) (f : A -> B) (l : list A) :
  (forall a b, f a = f b -> a = b) -> NoDup l -> NoDup (map f l).
Proof.
  intros Hinj. induction 1 as [| x t Hnotin Hnd IH]; cbn [map]; constructor; [| exact IH].
  intros Hin. apply in_map_iff in Hin. destruct Hin as [y [Hy Hyin]].
  apply Hinj in Hy. subst y. exact (Hnotin Hyin).
Qed.

Lemma well_formed_comparable (l : list LoopSegment) :
  Forall well_formed l -> starts_comparable l.
Proof.
  unfold starts_comparable. apply Forall_impl. intros x [_ [H _]].
  apply finite_not_NaN. exact H.
Qed.

Lemma parseSegmentsParam_cases (JSON_parse : string -> Completion json) (ids : nat -> string)
    (value : option string) :
  parseSegmentsParam JSON_parse ids value = []
  \/ exists entries,
       parseSegmentsParam JSON_parse ids value
       = sort by_start (filter_not_null (map_entries ids entries 0 0)).
Proof.
  unfold parseSegmentsParam. destruct value as [text |]; [| left; reflexivity].
  destruct (Str.is_empty text); [left; reflexivity |].
  unfold parseSegmentsParam_try.
  destruct (JSON_parse text) as [parsed | e]; [| left; reflexivity].
  cbn [bind]. destruct parsed; try (left; reflexivity).
  right. eexists. reflexivity.
Qed.

Lemma parseSegmentsParam_ok (JSON_parse : string -> Completion json) (ids : nat -> string)
    (value : option string) :
  Forall well_formed (parseSegmentsParam JSON_parse ids value)
  /\ ascending (parseSegmentsParam JSON_parse ids value)
  /\ ((forall a b, ids a = ids b -> a = b) ->
      NoDup (map id (parseSegmentsParam JSON_parse ids value))).
Proof.
  destruct (parseSegmentsParam_cases JSON_parse ids value) as [-> | [entries ->]].
  - repeat split; constructor.
  - destruct (map_entries_well_formed ids entries 0 0) as [Hall Hids].
    set (l := filter_not_null (map_entries ids entries 0 0)) in *.
    split; [| split].
    + eapply Permutation_Forall; [apply Permutation_sym, sort_perm | exact Hall].
    + apply sort_ascending. apply well_formed_comparable. exact Hall.
    + intros Hinj. apply (Permutation_NoDup (l := map id l)).
      * apply Permutation_map, Permutation_sym, sort_perm.
      * rewrite Hids. apply NoDup_map_injective; [exact Hinj | apply seq_NoDup].
Qed.

(** Whatever text it is given, the decoder returns a list the
    controller can rely on: every segment has a label that is not
    empty and finite bounds with [0 <= start <= end], the list ascends
    by start, and no identifier occurs twice as long as
    [generateSegmentId] never repeats itself. *)
Theorem decoded_segments_are_well_formed :
  forall (JSON_parse : string -> Completion json) (ids : nat -> string)
         (value : option string),
    Forall well_formed (parseSegmentsParam JSON_parse ids value)
    /\ ascending (parseSegmentsParam JSON_parse ids value)
    /\ ((forall a b, ids a = ids b -> a = b) ->
        NoDup (map id (parseSegmentsParam JSON_parse ids value))).
Proof. exact parseSegmentsParam_ok. Qed.

Lemma extractSegmentsFromInput_ok (URL_parse : string -> Completion URL)
    (JSON_parse : string -> Completion json) (ids : nat -> string) (value : string) :
  (forall a b, ids a = ids b -> a = b) ->
  segments_ok (extractSegmentsFromInput JSON_parse URL_parse ids value)
  /\ Forall well_formed (extractSegmentsFromInput JSON_parse URL_parse ids value).
Proof.
  intros Hinj. unfold extractSegmentsFromInput.
  destruct (URL_parse value) as [url | e]; cbn [bind try_catch].
  - destruct (parseSegmentsParam_ok JSON_parse ids
                (searchParams_get SEGMENTS_PARAM (searchParams url))) as [Hw [Ha Hn]].
    split; [| exact Hw]. split; [exact Ha |].
    split; [apply well_formed_comparable; exact Hw | exact (Hn Hinj)].
  - split; [| constructor]. repeat split; constructor.
Qed.

(** Loading keeps the list in order: after [handleSubmit], and in the
    initial state, the segments ascend by start, have no [NaN] start
    and no repeated identifier, as long as [generateSegmentId] never
    repeats itself. *)
Theorem loaded_segments_are_ordered :
  forall (URL_parse : string -> Completion URL) (JSON_parse : string -> Completion json)
         (JSON_stringify : json -> Completion string)
         (URLSearchParams_toString : list (string * string) -> string)
         (ids : nat -> string),
    (forall a b, ids a = ids b -> a = b) ->
    (forall s, segments_ok (loopSegments s) ->
               segments_ok (loopSegments (handleSubmit URL_parse JSON_parse ids s)))
    /\ (forall window st,
           getInitialAppState URL_parse JSON_parse JSON_stringify URLSearchParams_toString
             ids window = Normal st ->
           segments_ok (loopSegments (useLooperState_initial st))
           /\ Forall well_formed (loopSegments (useLooperState_initial st))).
Proof.
  intros URL_parse JSON_parse JSON_stringify URLSearchParams_toString ids Hinj. split.
  - intros s Hok. unfold handleSubmit.
    destruct (negb (truthy (extractYouTubeId URL_parse (inputValue s)))); [exact Hok |].
    cbn [loopSegments resetDraft setDraftEndInput setDraftStartInput
           setDraftLabel setDraftEnd setDraftStart setSelectedSegmentId setLoopSegments
           setIsInputDirty setIsPlaying setDuration setCurrentTime setVideoId setInputError].
    apply extractSegmentsFromInput_ok. exact Hinj.
  - intros window st Hst. unfold getInitialAppState in Hst.
    destruct window as [href |].
    + destruct (URL_parse href) as [url | e]; [| discriminate].
      cbn [bind] in Hst. inversion Hst. cbn [useLooperState_initial loopSegments
                                              InitialAppState.segments].
      destruct (parseSegmentsParam_ok JSON_parse ids
                  (searchParams_get SEGMENTS_PARAM (searchParams url))) as [Hw [Ha Hn]].
      split; [| exact Hw]. split; [exact Ha |].
      split; [apply well_formed_comparable; exact Hw | exact (Hn Hinj)].
    + inversion Hst. cbn. split; [| constructor]. repeat split; constructor.
Qed.

Lemma generateSegmentId_injective (a b : nat) :
  Host.generateSegmentId a = Host.generateSegmentId b -> a = b.
Proof.
  unfold Host.generateSegmentId. intros H.
  assert (Hd : N_digits (N.of_nat a) = N_digits (N.of_nat b)).
  { cbn [append] in H. inversion H. reflexivity. }
  apply (f_equal digits_value) in Hd. rewrite !N_digits_value in Hd. lia.
Qed.

Lemma loaded_segments_are_ordered_witness :
  (forall s, segments_ok (loopSegments s) ->
             segments_ok (loopSegments (handleSubmit Host.URL_parse Host.JSON_parse
                                          Host.generateSegmentId s)))
  /\ (forall window st,
         getInitialAppState Host.URL_parse Host.JSON_parse Host.JSON_stringify
           Host.URLSearchParams_toString Host.generateSegmentId window = Normal st ->
         segments_ok (loopSegments (useLooperState_initial st))
         /\ Forall well_formed (loopSegments (useLooperState_initial st))).
Proof.
  apply (loaded_segments_are_ordered Host.URL_parse Host.JSON_parse Host.JSON_stringify
           Host.URLSearchParams_toString Host.generateSegmentId).
  exact generateSegmentId_injective.
Defined.

Lemma num_add_finite_not_NaN (a b : number) :
  Number_isNaN a = false -> Number_isFinite b = true -> Number_isNaN (num_add a b) = false.
Proof. destruct a, b; try discriminate; reflexivity. Qed.

Lemma num_mul_positive_not_NaN (a : number) (q : Q) :
  Number_isNaN a = false -> 0 < q -> Number_isNaN (num_mul a (Fin q)) = false.
Proof.
  intros Ha Hq.
  assert (Hz : Qeq_bool q 0 = false).
  { destruct (Qeq_bool q 0) eqn:E; [| reflexivity].
    apply Qeq_bool_iff in E. rewrite E in Hq. exfalso. exact (Qlt_irrefl 0 Hq). }
  destruct a; try discriminate; cbn [num_mul num_is_zero orb]; try rewrite Hz;
    try reflexivity; cbn [num_is_neg xorb]; destruct (Qltb q 0); reflexivity.
Qed.

Lemma parseTimestampInput_loop_not_NaN (parts : list string) :
  forall (is_last : bool) (total : number) (q : Q) (r : number),
    Number_isNaN total = false -> (is_last = true -> Number_isFinite total = true) ->
    0 < q ->
    parseTimestampInput_loop parts is_last total (Fin q) = Some r ->
    Number_isNaN r = false.
Proof.
  induction parts as [| part rest IH]; intros is_last total q r Ht Hfirst Hq;
    cbn [parseTimestampInput_loop].
  - intros H. inversion H. subst r. exact Ht.
  - destruct (Str.is_empty part) eqn:Hempty; [discriminate |].
    assert (Hq' : 0 < q * 60) by (apply Qmult_lt_0_compat; [exact Hq | reflexivity]).
    destruct is_last.
    + destruct (Number_isNaN (StringToNumber part)) eqn:Hn; [discriminate |].
      apply (IH false _ (q * 60)); [| discriminate | exact Hq'].
      specialize (Hfirst eq_refl).
      pose proof (num_mul_positive_not_NaN _ q Hn Hq) as Hm.
      destruct total as [| | | t]; try discriminate.
      destruct (num_mul (StringToNumber part) (Fin q)); try discriminate; reflexivity.
    + destruct (Str.test_digits part) eqn:Hd; cbn [negb]; [| discriminate].
      apply (IH false _ (q * 60)); [| discriminate | exact Hq'].
      unfold Str.test_digits in Hd. apply andb_true_iff in Hd. destruct Hd as [_ Hd].
      rewrite (parseInt10_digits part Hempty Hd).
      apply num_add_finite_not_NaN; [exact Ht | reflexivity].
Qed.

Lemma parseTimestampInput_nonneg (value : string) (v : number) :
  parseTimestampInput value = Some v -> num_le (Fin 0) v = true.
Proof.
  unfold parseTimestampInput.
  destruct (Str.is_empty (Str.trim value)); [discriminate |].
  destruct (negb (Str.includes ":" (Str.trim value))).
  - destruct (Number_isNaN (StringToNumber (Str.trim value))) eqn:Hn; [discriminate |].
    intros [= <-]. apply Math_max_zero_le. exact Hn.
  - destruct (parseTimestampInput_loop (rev (Str.split ":" (Str.trim value))) true
                (Fin 0) (Fin 1)) as [total |] eqn:Hloop; [| discriminate].
    intros [= <-]. apply Math_max_zero_le. apply round2_not_NaN.
    apply (parseTimestampInput_loop_not_NaN (rev (Str.split ":" (Str.trim value)))
             true (Fin 0) 1 total);
      [reflexivity | reflexivity | reflexivity | exact Hloop].
Qed.


Example parseTimestampInput_edges :
  parseTimestampInput "-5" = Some (Fin 0)
  /\ parseTimestampInput "1:-30" = Some (Fin (3000 # 100))
  /\ parseTimestampInput "0:-30" = Some (Fin 0)
  /\ parseTimestampInput "Infinity" = Some PosInf
  /\ parseTimestampInput "0:-Infinity" = Some (Fin 0).
Proof. vm_compute. repeat split. Qed.

(** ** The input field *)

Section InputField.

Variable JSON_stringify : json -> Completion string.
Variable URLSearchParams_toString : list (string * string) -> string.

(** The input field is left alone while it is edited: after a change
    the synchronising effect does nothing, and leaving the field
    marks it clean only when there is no video or the text is the
    canonical link; the effect itself, run twice, does no more than
    run once. *)
Theorem edited_input_is_left_alone :
  forall (value : string) (s : LooperState),
    syncInputValue JSON_stringify URLSearchParams_toString (handleInputChange value s)
    = handleInputChange value s
    /\ syncInputValue JSON_stringify URLSearchParams_toString
         (syncInputValue JSON_stringify URLSearchParams_toString s)
       = syncInputValue JSON_stringify URLSearchParams_toString s
    /\ (forall v, videoId s = Some v -> Str.is_empty v = false ->
          (value = buildVideoLink JSON_stringify URLSearchParams_toString v (loopSegments s) ->
           handleInputBlur JSON_stringify URLSearchParams_toString value s
           = setIsInputDirty false s)
          /\ (value <> buildVideoLink JSON_stringify URLSearchParams_toString v (loopSegments s) ->
              handleInputBlur JSON_stringify URLSearchParams_toString value s = s))
    /\ (truthy (videoId s) = false ->
        handleInputBlur JSON_stringify URLSearchParams_toString value s
        = setIsInputDirty false s).
Proof.
  intros value s. split; [| split; [| split]].
  - unfold syncInputValue, handleInputChange.
    cbn [isInputDirty setInputValue setIsInputDirty]. rewrite orb_true_r. reflexivity.
  - unfold syncInputValue.
    destruct (negb (truthy (videoId s)) || isInputDirty s) eqn:Hskip.
    + rewrite Hskip. reflexivity.
    + destruct (videoId s) as [v |] eqn:Hv; [| rewrite Hv; reflexivity].
      cbn [videoId isInputDirty loopSegments setInputValue]. rewrite Hv, Hskip. reflexivity.
  - intros v Hv Hne. unfold handleInputBlur. rewrite Hv. cbn [truthy]. rewrite Hne.
    cbn [negb]. split.
    + intros ->. rewrite String.eqb_refl. reflexivity.
    + intros Hdiff. rewrite (proj2 (String.eqb_neq _ _) Hdiff). reflexivity.
  - intros Hno. unfold handleInputBlur. rewrite Hno. reflexivity.
Qed.

End InputField.

(** ** The effects of the player component *)

Section PlayerComponent.
Import PlayerEffects.

(** The effect on the video cues a video exactly when the player is
    there and ready, an identifier is given, and the player does not
    hold that video already; it stops the player exactly when the
    player is there and ready and no identifier is given; and it
    sends nothing else. *)
Theorem videoId_effect_cues_iff :
  forall (refs : Refs) (videoId : option string),
    (forall v,
        In (cueVideoById v) (videoId_effect refs videoId)
        <-> exists player,
              playerRef refs = Some player /\ readyRef refs = true
              /\ videoId = Some v /\ Str.is_empty v = false
              /\ video_id player <> Some v)
    /\ (In stopVideo (videoId_effect refs videoId)
        <-> exists player,
              playerRef refs = Some player /\ readyRef refs = true
              /\ truthy videoId = false)
    /\ (forall c, In c (videoId_effect refs videoId) ->
                  c = stopVideo \/ exists v, c = cueVideoById v).
Proof.
  intros refs videoId. unfold videoId_effect.
  destruct (playerRef refs) as [player |].
  2: { repeat split; try (intros [p [H _]]; discriminate); intros; contradiction. }
  destruct (readyRef refs).
  2: { repeat split; try (intros [p [_ [H _]]]; discriminate); intros; contradiction. }
  cbn [negb].
  destruct videoId as [v0 |]; cbn [truthy].
  2: { split; [| split].
       - intros v. split.
         + intros [H | []]. discriminate.
         + intros [p [_ [_ [H _]]]]. discriminate.
       - split; [intros _; exists player; auto | intros _; left; reflexivity].
       - intros c [<- | []]. left. reflexivity. }
  destruct (Str.is_empty v0) eqn:Hempty; cbn [negb].
  - split; [| split].
    + intros v. split.
      * intros [H | []]. discriminate.
      * intros [p [_ [_ [H [Hne _]]]]]. inversion H. subst v. congruence.
    + split; [intros _; exists player; auto | intros _; left; reflexivity].
    + intros c [<- | []]. left. reflexivity.
  - destruct (video_id player) as [current |] eqn:Hcur.
    + destruct (String.eqb current v0) eqn:Heq.
      * apply String.eqb_eq in Heq. subst current. split; [| split].
        -- intros v. split; [intros [] |].
           intros [p [Hp [_ [Hv [_ Hdiff]]]]]. inversion Hp. subst p.
           inversion Hv. subst v. congruence.
        -- split; [intros [] | intros [p [_ [_ H]]]; discriminate].
        -- intros c [].
      * apply String.eqb_neq in Heq. split; [| split].
        -- intros v. split.
           ++ intros [H | []]. inversion H. subst v. exists player.
              repeat split; try assumption. rewrite Hcur. congruence.
           ++ intros [p [_ [_ [Hv _]]]]. inversion Hv. left. reflexivity.
        -- split; [intros [H | []]; discriminate | intros [p [_ [_ H]]]; discriminate].
        -- intros c [<- | []]. right. exists v0. reflexivity.
    + split; [| split].
      * intros v. split.
        -- intros [H | []]. inversion H. subst v. exists player.
           repeat split; try assumption. rewrite Hcur. discriminate.
        -- intros [p [_ [_ [Hv _]]]]. inversion Hv. left. reflexivity.
      * split; [intros [H | []]; discriminate | intros [p [_ [_ H]]]; discriminate].
      * intros c [<- | []]. right. exists v0. reflexivity.
Qed.

(** Once the component is unmounted nothing reaches the player any
    more: the player is destroyed if there was one, and afterwards
    every effect, every command of the handle and the poll tick do
    nothing, and the handle reports the time and the duration as
    zero. *)
Theorem unmount_silences_the_component :
  forall refs : Refs,
    (forall c, In c (fst (unmount refs)) -> c = destroy /\ playerRef refs <> None)
    /\ (forall videoId, videoId_effect (snd (unmount refs)) videoId = [])
    /\ (forall rate, playbackRate_effect (snd (unmount refs)) rate = [])
    /\ (forall looping range, loopStart_effect (snd (unmount refs)) looping range = [])
    /\ poll_effect_starts (snd (unmount refs)) = false
    /\ (forall onTimeUpdate looping range,
           YouTubePlayer.poll_tick (option_map instance (playerRef (snd (unmount refs))))
             onTimeUpdate looping range = [])
    /\ play (snd (unmount refs)) = [] /\ pause (snd (unmount refs)) = []
    /\ (forall seconds allow, handle_seekTo (snd (unmount refs)) seconds allow = [])
    /\ (forall rate, handle_setPlaybackRate (snd (unmount refs)) rate = [])
    /\ getCurrentTime (snd (unmount refs)) = Fin 0
    /\ getDuration (snd (unmount refs)) = Fin 0.
Proof.
  intros refs. split.
  - unfold unmount. cbn [fst]. destruct (playerRef refs); [| intros c []].
    intros c [<- | []]. split; [reflexivity | discriminate].
  - repeat split.
Qed.

End PlayerComponent.

(** ** Marking a segment while the video plays *)

Lemma round2_gap (t1 t2 : Q) :
  0 <= t1 -> t1 + (2 # 10) <= t2 -> t2 < ten21 ->
  num_ge (num_sub (round2 (Fin t2)) (round2 (Fin t1))) MIN_SEGMENT_LENGTH = true.
Proof.
  intros H0 Hgap H21.
  assert (H1 : t1 < ten21) by lra.
  assert (H2 : 0 <= t2) by lra.
  rewrite (round2_fixed t1 H0 H1), (round2_fixed t2 H2 H21).
  set (n1 := Qfloor (t1 * inject_Z 100 + (1 # 2))).
  set (n2 := Qfloor (t2 * inject_Z 100 + (1 # 2))).
  assert (Hn : (n1 + 20 <= n2)%Z).
  { rewrite <- (Qfloor_Z (n1 + 20)). apply Qfloor_resp_le.
    rewrite inject_Z_plus.
    pose proof (Qfloor_le (t1 * inject_Z 100 + (1 # 2))) as Hf. fold n1 in Hf.
    change (inject_Z 100) with (100 # 1) in *. change (inject_Z 20) with (20 # 1). lra. }
  unfold num_ge, MIN_SEGMENT_LENGTH, hundredths.
  cbn [num_sub num_add num_opp num_le]. apply Qle_bool_iff.
  unfold Qle, Qplus, Qopp. cbn [Qnum Qden]. lia.
Qed.



(** ** Opening a shared page and pressing Load *)

Section InitialLoad.

Variable URL_parse : string -> Completion URL.
Variable JSON_parse : string -> Completion json.
Variable JSON_stringify : json -> Completion string.
Variable ids : nat -> string.

(** The text the page starts with extracts to the video the page
    starts with, so submitting it untouched keeps that video: with a
    video it is loaded again, without one the submission is refused
    and there is still none. *)
Theorem initial_input_extracts_to_initial_video :
  forall (window : option string) (st : InitialAppState.InitialAppState),
    getInitialAppState URL_parse JSON_parse JSON_stringify Host.URLSearchParams_toString
      ids window = Normal st ->
    extractYouTubeId Host.URL_parse (InitialAppState.inputValue st)
    = InitialAppState.videoId st
    /\ videoId (handleSubmit Host.URL_parse JSON_parse ids (useLooperState_initial st))
       = InitialAppState.videoId st.
Proof.
  intros window st Hst.
  assert (Hex : extractYouTubeId Host.URL_parse (InitialAppState.inputValue st)
                = InitialAppState.videoId st).
  { unfold getInitialAppState in Hst. destruct window as [href |].
    - destruct (URL_parse href) as [url | e]; [| discriminate].
      cbn [bind] in Hst. inversion Hst as [Est]. clear Hst Est.
      cbn [InitialAppState.inputValue InitialAppState.videoId].
      destruct (searchParams_get VIDEO_PARAM (searchParams url)) as [v |]; [| reflexivity].
      destruct (YOUTUBE_ID_PATTERN v) eqn:Hpat; [| reflexivity].
      pose proof (pattern_id_chars _ Hpat) as Hid.
      rewrite (buildVideoLink_watch JSON_stringify v _ Hid).
      apply extractYouTubeId_watch.
      + apply watch_query_plain. exact Hid.
      + exact Hpat.
      + apply watch_query_v. exact Hid.
    - inversion Hst. reflexivity. }
  split; [exact Hex |].
  unfold handleSubmit. cbn [inputValue useLooperState_initial]. rewrite Hex.
  destruct (InitialAppState.videoId st) as [v |] eqn:Hv.
  - pose proof (extractYouTubeId_sound Host.URL_parse _ _ Hex) as Hpat.
    cbn [truthy]. rewrite (pattern_not_empty _ Hpat). reflexivity.
  - cbn [truthy negb videoId setInputError]. exact Hv.
Qed.

End InitialLoad.

Lemma initial_input_extracts_to_initial_video_witness :
  extractYouTubeId Host.URL_parse (InitialAppState.inputValue sample_initial)
  = InitialAppState.videoId sample_initial
  /\ videoId (handleSubmit Host.URL_parse Host.JSON_parse Host.generateSegmentId
                (useLooperState_initial sample_initial))
     = InitialAppState.videoId sample_initial.
Proof.
  apply (initial_input_extracts_to_initial_video Host.URL_parse Host.JSON_parse
           Host.JSON_stringify Host.generateSegmentId (Some sample_href) sample_initial).
  vm_compute. reflexivity.
Defined.
